(** * go-cuesheet: the cue sheet reader and writer

    A shallow embedding of [cuesheet.go] (package [cuesheet]): the field
    reader ([ReadString], [ReadUint], [ReadInt], [ReadFrame]), the formatters
    ([FormatString], [FormatTrackNumber], [FormatFrame]), the indentation
    scoped parser ([ReadFile], [readTracks], [readTrack]), the serializer
    ([WriteFile]), the validator ([Validate]), the helper methods of
    [Cuesheet] and [Track] and the reader of the REM comments
    ([ParseRemComment]); and of the package [encoding].

    The parser reads its input through a [bufio.Reader].  The reader is
    modelled twice: as the bytes that are left to read ([Reader]), which is
    what the reader is for an input that its buffer of 4096 bytes holds whole,
    and with its buffer, its offsets and its input ([bufio_Reader], with the
    loops of the parser in [Buffered]), which is the reader for every input
    that is held in memory.  The section on the reader with its buffer shows
    that both loops return the same on an input of at most 4096 bytes.

    Go strings are byte strings: they are modelled by [string], whose
    characters are the 256 values of [ascii].  [uint], [uint64] and [Frame]
    values are numbers of [N], [int] and [Flags] values numbers of [Z]; where
    the source computes on 64 bits the wrap-around is written out. *)

From Stdlib Require Import String Ascii List ZArith NArith Lia Bool.
Import ListNotations.
Open Scope string_scope.

(** ** Bytes and the constants of the package *)

Definition TAB : ascii := "009"%char.
Definition LF : ascii := "010"%char.
Definition CR : ascii := "013"%char.
Definition SP : ascii := " "%char.
Definition DQUOTE : ascii := "034"%char.
Definition SQUOTE : ascii := "039"%char.
Definition BACKSLASH : ascii := "092"%char.
Definition COLON : ascii := ":"%char.

(** [delims = "\t\n\r "], [eol = "\n"], [framesPerSecond = 75]. *)
Definition delims : string := String TAB (String LF (String CR (String SP EmptyString))).
Definition eol : string := String LF EmptyString.
Definition framesPerSecond : N := 75.

(** ** Errors and outcomes

    [ErrSyntax] and [ErrRange] are the sentinels of [strconv]; [NumError] is
    the [*strconv.NumError] that [ParseUint] returns around one of them; [EOF]
    is [io.EOF].  A Go call either returns a value, returns an error, or
    panics (an index or a slice bound out of range).  [OutOfFuel] is the
    outcome of a loop of the model that was given too few iterations; the
    section on totality shows that the readers never produce it. *)

Inductive error : Type :=
| EOF
| ErrSyntax
| ErrRange
| NumError (Func Num : string) (Err : error).

Inductive outcome (A : Type) : Type :=
| Ok (a : A)
| Fail (e : error)
| Panic
| OutOfFuel.

Arguments Ok {A} a.
Arguments Fail {A} e.
Arguments Panic {A}.
Arguments OutOfFuel {A}.

Definition bind {A B : Type} (m : outcome A) (k : A -> outcome B) : outcome B :=
  match m with
  | Ok a => k a
  | Fail e => Fail e
  | Panic => Panic
  | OutOfFuel => OutOfFuel
  end.

Notation "x <- m ;; k" := (bind m (fun x => k))
  (at level 61, m at next level, right associativity).
Notation "' p <- m ;; k" := (bind m (fun x => let 'p := x in k))
  (at level 61, p pattern, m at next level, right associativity).

Definition is_error {A : Type} (m : outcome A) : bool :=
  match m with Fail _ => true | _ => false end.

(** ** The functions of [strings] and [strconv] that the package calls

    The cut sets and separators of the package are ASCII, for which the Go
    functions work byte by byte. *)

(** [strings.IndexByte(s, c) >= 0]. *)
Fixpoint ContainsByte (s : string) (c : ascii) : bool :=
  match s with
  | EmptyString => false
  | String a r => Ascii.eqb a c || ContainsByte r c
  end.

(** [strings.ContainsAny(s, chars)]. *)
Fixpoint ContainsAny (s chars : string) : bool :=
  match s with
  | EmptyString => false
  | String c r => ContainsByte chars c || ContainsAny r chars
  end.

(** [strings.TrimLeft(s, cutset)]. *)
Fixpoint TrimLeft (s cutset : string) : string :=
  match s with
  | EmptyString => EmptyString
  | String c r => if ContainsByte cutset c then TrimLeft r cutset else s
  end.

(** [strings.TrimRight(s, cutset)]. *)
Fixpoint TrimRight (s cutset : string) : string :=
  match s with
  | EmptyString => EmptyString
  | String c r =>
      match TrimRight r cutset with
      | EmptyString => if ContainsByte cutset c then EmptyString else String c EmptyString
      | r' => String c r'
      end
  end.

(** [strings.Trim(s, cutset)]. *)
Definition Trim (s cutset : string) : string :=
  TrimLeft (TrimRight s cutset) cutset.

(** [strings.HasPrefix(s, prefix)]. *)
Definition HasPrefix (s p : string) : bool := String.prefix p s.

(** [strings.Repeat(s, count)] for a count that is not negative. *)
Fixpoint Repeat (s : string) (count : nat) : string :=
  match count with
  | O => EmptyString
  | S n => s ++ Repeat s n
  end.

(** [strings.Split(s, sep)] for a separator of one byte: the pieces between
    the separators, one piece for a string without separator (also for the
    empty string). *)
Fixpoint Split (s : string) (sep : ascii) : list string :=
  match s with
  | EmptyString => [EmptyString]
  | String c r =>
      if Ascii.eqb c sep then EmptyString :: Split r sep
      else match Split r sep with
           | h :: t => String c h :: t
           | [] => [String c EmptyString]
           end
  end.

(** The Go slice expressions [s[lo:hi]] and [s[lo:]]: they panic when the
    bounds are out of range. *)
Definition slice (s : string) (lo hi : nat) : outcome string :=
  if (lo <=? hi)%nat && (hi <=? String.length s)%nat
  then Ok (substring lo (hi - lo) s)
  else Panic.

Definition slice_from (s : string) (lo : nat) : outcome string :=
  slice s lo (String.length s).

(** The decimal digit of a byte, when it is one. *)
Definition digit_val (c : ascii) : option N :=
  let n := N_of_ascii c in
  if (48 <=? n)%N && (n <=? 57)%N then Some (n - 48)%N else None.

Definition digit_char (d : N) : ascii := ascii_of_N (48 + d).

Definition fnParseUint : string := "ParseUint".

(** [strconv.ParseUint(s, 10, bitSize)]: the loop over the bytes of [s]. A
    byte that is no decimal digit is a syntax error; a value above
    [1<<bitSize - 1], or one that leaves 64 bits, is a range error. *)
Fixpoint ParseUint_loop (s0 s : string) (maxVal n : N) : outcome N :=
  match s with
  | EmptyString => Ok n
  | String c r =>
      match digit_val c with
      | None => Fail (NumError fnParseUint s0 ErrSyntax)
      | Some d =>
          if ((2 ^ 64 - 1) / 10 + 1 <=? n)%N
          then Fail (NumError fnParseUint s0 ErrRange)
          else
            let n10 := ((n * 10) mod 2 ^ 64)%N in
            let n1 := ((n10 + d) mod 2 ^ 64)%N in
            if (n1 <? n10)%N || (maxVal <? n1)%N
            then Fail (NumError fnParseUint s0 ErrRange)
            else ParseUint_loop s0 r maxVal n1
      end
  end.

Definition ParseUint (s : string) (bitSize : N) : outcome N :=
  match s with
  | EmptyString => Fail (NumError fnParseUint s ErrSyntax)
  | _ => ParseUint_loop s s (2 ^ bitSize - 1)%N 0%N
  end.

(** [strconv.FormatUint(n, 10)] for a 64-bit [n]: the digits are produced
    from the last one, at most twenty of them. *)
Fixpoint formatBits (fuel : nat) (u : N) (acc : string) : string :=
  match fuel with
  | O => acc
  | S f =>
      if (u <? 10)%N then String (digit_char u) acc
      else formatBits f (u / 10)%N (String (digit_char (u mod 10)%N) acc)
  end.

Definition FormatUint (n : N) : string := formatBits 20 n EmptyString.

(** ** The field reader *)

(** [isQuoted]: the string starts with a double or a single quote. *)
Definition isQuoted (s : string) : bool :=
  match s with
  | EmptyString => false
  | String c _ => Ascii.eqb c DQUOTE || Ascii.eqb c SQUOTE
  end.

(** [quote(s, quote)]: [s] between two quote bytes, with a backslash before
    each quote byte and each backslash of [s]. *)
Fixpoint quote_body (s : string) (q : ascii) : string :=
  match s with
  | EmptyString => EmptyString
  | String c r =>
      if Ascii.eqb c q || Ascii.eqb c BACKSLASH
      then String BACKSLASH (String c (quote_body r q))
      else String c (quote_body r q)
  end.

Definition quote (s : string) (q : ascii) : string :=
  String q (quote_body s q ++ String q EmptyString).

(** The loop of [unquote]: [t] is [s[i:]]; the result is the value of [i]
    when the loop ends, at the first quote byte that no backslash precedes or
    past the end of [s].  A backslash skips the byte after it, also when
    there is none: [i] is then [len(s) + 1]. *)
Fixpoint unquote_end (q : ascii) (t : string) (i : nat) : nat :=
  match t with
  | EmptyString => i
  | String c t' =>
      if Ascii.eqb c q then i
      else if Ascii.eqb c BACKSLASH then
        match t' with
        | EmptyString => i + 2
        | String _ t'' => unquote_end q t'' (i + 2)
        end
      else unquote_end q t' (i + 1)
  end.

(** [unquote(s)]: [s[1:i]] for the [i] of the loop.  [s[0]] panics on the
    empty string, the slice panics when [i] is past the end. *)
Definition unquote (s : string) : outcome string :=
  match s with
  | EmptyString => Panic
  | String q t => slice s 1 (unquote_end q t 1)
  end.

(** The loop of [ReadString] on an unquoted field: the field ends before
    the first space, which is skipped. *)
Fixpoint cut_space (s : string) : option (string * string) :=
  match s with
  | EmptyString => None
  | String c r =>
      if Ascii.eqb c SP then Some (EmptyString, r)
      else match cut_space r with
           | Some (v, rest) => Some (String c v, rest)
           | None => None
           end
  end.

(** [ReadString]: the field read and the new value of the string that the
    argument points to. *)
Definition ReadString (s : string) : outcome (string * string) :=
  let s := TrimLeft s delims in
  if isQuoted s then
    v <- unquote s ;;
    s' <- slice_from s (String.length v + 2) ;;
    Ok (v, s')
  else
    match cut_space s with
    | Some (v, s') => Ok (v, s')
    | None => Ok (s, EmptyString)
    end.

(** [ReadUint]. *)
Definition ReadUint (s : string) : outcome (N * string) :=
  '(v, s') <- ReadString s ;;
  n <- ParseUint v 32 ;;
  Ok (n, s').

(** [ReadFrame]; the arithmetic is that of [uint64]. *)
Definition ReadFrame (s : string) : outcome (N * string) :=
  '(field, s') <- ReadString s ;;
  match Split field COLON with
  | [v0; v1; v2] =>
      mm <- ParseUint v0 32 ;;
      ss <- ParseUint v1 32 ;;
      ff <- ParseUint v2 32 ;;
      Ok ((((mm * 60 + ss) * framesPerSecond + ff) mod 2 ^ 64)%N, s')
  | _ => Fail ErrSyntax
  end.

(** ** The formatters *)

(** [FormatString]. *)
Definition FormatString (s : string) : string :=
  if ContainsAny s delims then quote s DQUOTE else s.

(** [leftPad(s, padStr, overallLen)]: the computation is that of [int], with
    the division that truncates.  The Go function panics on an empty
    [padStr] and on a count or a bound that is negative; its two callers pass
    ["0"] and [2], for which it does not. *)
Definition leftPad (s padStr : string) (overallLen : Z) : string :=
  let lenPad := Z.of_nat (String.length padStr) in
  let padCountInt := (1 + Z.quot (overallLen - lenPad) lenPad)%Z in
  let retStr := Repeat padStr (Z.to_nat padCountInt) ++ s in
  let start := (Z.of_nat (String.length retStr) - overallLen)%Z in
  substring (Z.to_nat start) (String.length retStr - Z.to_nat start) retStr.

(** [FormatTrackNumber]. *)
Definition FormatTrackNumber (n : N) : string :=
  leftPad (FormatUint n) "0" 2.

(** [FormatFrame]. *)
Definition FormatFrame (frame : N) : string :=
  let n := (frame / framesPerSecond)%N in
  let mm := (n / 60)%N in
  let ss := (n mod 60)%N in
  let ff := (frame mod framesPerSecond)%N in
  leftPad (FormatUint mm) "0" 2 ++ ":" ++
  leftPad (FormatUint ss) "0" 2 ++ ":" ++
  leftPad (FormatUint ff) "0" 2.

(** ** The data model *)

(** [Flags]: [None = 0] and one bit for each flag, from [1 << iota]. *)
Definition None_ : Z := 0.
Definition Dcp : Z := 2.
Definition Four_ch : Z := 4.
Definition Pre : Z := 8.
Definition Scms : Z := 16.

Record TrackIndex : Type := Build_TrackIndex {
  TrackIndex_Number : N;
  TrackIndex_Frame : N
}.

Record Track : Type := Build_Track {
  Track_TrackNumber : N;
  Track_TrackDataType : string;
  Track_Flags : Z;
  Track_Isrc : string;
  Track_Title : string;
  Track_Performer : string;
  Track_SongWriter : string;
  Track_Composer : string;
  Track_Arranger : string;
  Track_Message : string;
  Track_Pregap : N;
  Track_Postgap : N;
  Track_Index : list TrackIndex
}.

(** The zero value [Track{}]. *)
Definition Track_zero : Track :=
  Build_Track 0%N EmptyString 0%Z EmptyString EmptyString EmptyString EmptyString
    EmptyString EmptyString EmptyString 0%N 0%N [].

Definition set_Track_TrackNumber (v : N) (t : Track) : Track :=
  Build_Track v (Track_TrackDataType t) (Track_Flags t) (Track_Isrc t) (Track_Title t)
    (Track_Performer t) (Track_SongWriter t) (Track_Composer t) (Track_Arranger t)
    (Track_Message t) (Track_Pregap t) (Track_Postgap t) (Track_Index t).

Definition set_Track_TrackDataType (v : string) (t : Track) : Track :=
  Build_Track (Track_TrackNumber t) v (Track_Flags t) (Track_Isrc t) (Track_Title t)
    (Track_Performer t) (Track_SongWriter t) (Track_Composer t) (Track_Arranger t)
    (Track_Message t) (Track_Pregap t) (Track_Postgap t) (Track_Index t).

Definition set_Track_Flags (v : Z) (t : Track) : Track :=
  Build_Track (Track_TrackNumber t) (Track_TrackDataType t) v (Track_Isrc t)
    (Track_Title t) (Track_Performer t) (Track_SongWriter t) (Track_Composer t)
    (Track_Arranger t) (Track_Message t) (Track_Pregap t) (Track_Postgap t)
    (Track_Index t).

Definition set_Track_Isrc (v : string) (t : Track) : Track :=
  Build_Track (Track_TrackNumber t) (Track_TrackDataType t) (Track_Flags t) v
    (Track_Title t) (Track_Performer t) (Track_SongWriter t) (Track_Composer t)
    (Track_Arranger t) (Track_Message t) (Track_Pregap t) (Track_Postgap t)
    (Track_Index t).

Definition set_Track_Title (v : string) (t : Track) : Track :=
  Build_Track (Track_TrackNumber t) (Track_TrackDataType t) (Track_Flags t)
    (Track_Isrc t) v (Track_Performer t) (Track_SongWriter t) (Track_Composer t)
    (Track_Arranger t) (Track_Message t) (Track_Pregap t) (Track_Postgap t)
    (Track_Index t).

Definition set_Track_Performer (v : string) (t : Track) : Track :=
  Build_Track (Track_TrackNumber t) (Track_TrackDataType t) (Track_Flags t)
    (Track_Isrc t) (Track_Title t) v (Track_SongWriter t) (Track_Composer t)
    (Track_Arranger t) (Track_Message t) (Track_Pregap t) (Track_Postgap t)
    (Track_Index t).

Definition set_Track_SongWriter (v : string) (t : Track) : Track :=
  Build_Track (Track_TrackNumber t) (Track_TrackDataType t) (Track_Flags t)
    (Track_Isrc t) (Track_Title t) (Track_Performer t) v (Track_Composer t)
    (Track_Arranger t) (Track_Message t) (Track_Pregap t) (Track_Postgap t)
    (Track_Index t).

Definition set_Track_Composer (v : string) (t : Track) : Track :=
  Build_Track (Track_TrackNumber t) (Track_TrackDataType t) (Track_Flags t)
    (Track_Isrc t) (Track_Title t) (Track_Performer t) (Track_SongWriter t) v
    (Track_Arranger t) (Track_Message t) (Track_Pregap t) (Track_Postgap t)
    (Track_Index t).

Definition set_Track_Arranger (v : string) (t : Track) : Track :=
  Build_Track (Track_TrackNumber t) (Track_TrackDataType t) (Track_Flags t)
    (Track_Isrc t) (Track_Title t) (Track_Performer t) (Track_SongWriter t)
    (Track_Composer t) v (Track_Message t) (Track_Pregap t) (Track_Postgap t)
    (Track_Index t).

Definition set_Track_Message (v : string) (t : Track) : Track :=
  Build_Track (Track_TrackNumber t) (Track_TrackDataType t) (Track_Flags t)
    (Track_Isrc t) (Track_Title t) (Track_Performer t) (Track_SongWriter t)
    (Track_Composer t) (Track_Arranger t) v (Track_Pregap t) (Track_Postgap t)
    (Track_Index t).

Definition set_Track_Pregap (v : N) (t : Track) : Track :=
  Build_Track (Track_TrackNumber t) (Track_TrackDataType t) (Track_Flags t)
    (Track_Isrc t) (Track_Title t) (Track_Performer t) (Track_SongWriter t)
    (Track_Composer t) (Track_Arranger t) (Track_Message t) v (Track_Postgap t)
    (Track_Index t).

Definition set_Track_Postgap (v : N) (t : Track) : Track :=
  Build_Track (Track_TrackNumber t) (Track_TrackDataType t) (Track_Flags t)
    (Track_Isrc t) (Track_Title t) (Track_Performer t) (Track_SongWriter t)
    (Track_Composer t) (Track_Arranger t) (Track_Message t) (Track_Pregap t) v
    (Track_Index t).

Definition set_Track_Index (v : list TrackIndex) (t : Track) : Track :=
  Build_Track (Track_TrackNumber t) (Track_TrackDataType t) (Track_Flags t)
    (Track_Isrc t) (Track_Title t) (Track_Performer t) (Track_SongWriter t)
    (Track_Composer t) (Track_Arranger t) (Track_Message t) (Track_Pregap t)
    (Track_Postgap t) v.

Record File : Type := Build_File {
  File_FileName : string;
  File_FileType : string;
  File_Tracks : list Track
}.

Record Cuesheet : Type := Build_Cuesheet {
  Cuesheet_Rem : list string;
  Cuesheet_Catalog : string;
  Cuesheet_CdTextFile : string;
  Cuesheet_Title : string;
  Cuesheet_Performer : string;
  Cuesheet_SongWriter : string;
  Cuesheet_Composer : string;
  Cuesheet_Arranger : string;
  Cuesheet_Message : string;
  Cuesheet_Genre : string;
  Cuesheet_DiscId : string;
  Cuesheet_UpcEan : string;
  Cuesheet_Pregap : N;
  Cuesheet_Postgap : N;
  Cuesheet_File : list File
}.

(** The zero value [Cuesheet{}]. *)
Definition Cuesheet_zero : Cuesheet :=
  Build_Cuesheet [] EmptyString EmptyString EmptyString EmptyString EmptyString
    EmptyString EmptyString EmptyString EmptyString EmptyString EmptyString 0%N 0%N [].

Definition set_Cuesheet_Rem (v : list string) (c : Cuesheet) : Cuesheet :=
  Build_Cuesheet v (Cuesheet_Catalog c) (Cuesheet_CdTextFile c) (Cuesheet_Title c)
    (Cuesheet_Performer c) (Cuesheet_SongWriter c) (Cuesheet_Composer c)
    (Cuesheet_Arranger c) (Cuesheet_Message c) (Cuesheet_Genre c) (Cuesheet_DiscId c)
    (Cuesheet_UpcEan c) (Cuesheet_Pregap c) (Cuesheet_Postgap c) (Cuesheet_File c).

Definition set_Cuesheet_Catalog (v : string) (c : Cuesheet) : Cuesheet :=
  Build_Cuesheet (Cuesheet_Rem c) v (Cuesheet_CdTextFile c) (Cuesheet_Title c)
    (Cuesheet_Performer c) (Cuesheet_SongWriter c) (Cuesheet_Composer c)
    (Cuesheet_Arranger c) (Cuesheet_Message c) (Cuesheet_Genre c) (Cuesheet_DiscId c)
    (Cuesheet_UpcEan c) (Cuesheet_Pregap c) (Cuesheet_Postgap c) (Cuesheet_File c).

Definition set_Cuesheet_CdTextFile (v : string) (c : Cuesheet) : Cuesheet :=
  Build_Cuesheet (Cuesheet_Rem c) (Cuesheet_Catalog c) v (Cuesheet_Title c)
    (Cuesheet_Performer c) (Cuesheet_SongWriter c) (Cuesheet_Composer c)
    (Cuesheet_Arranger c) (Cuesheet_Message c) (Cuesheet_Genre c) (Cuesheet_DiscId c)
    (Cuesheet_UpcEan c) (Cuesheet_Pregap c) (Cuesheet_Postgap c) (Cuesheet_File c).

Definition set_Cuesheet_Title (v : string) (c : Cuesheet) : Cuesheet :=
  Build_Cuesheet (Cuesheet_Rem c) (Cuesheet_Catalog c) (Cuesheet_CdTextFile c) v
    (Cuesheet_Performer c) (Cuesheet_SongWriter c) (Cuesheet_Composer c)
    (Cuesheet_Arranger c) (Cuesheet_Message c) (Cuesheet_Genre c) (Cuesheet_DiscId c)
    (Cuesheet_UpcEan c) (Cuesheet_Pregap c) (Cuesheet_Postgap c) (Cuesheet_File c).

Definition set_Cuesheet_Performer (v : string) (c : Cuesheet) : Cuesheet :=
  Build_Cuesheet (Cuesheet_Rem c) (Cuesheet_Catalog c) (Cuesheet_CdTextFile c)
    (Cuesheet_Title c) v (Cuesheet_SongWriter c) (Cuesheet_Composer c)
    (Cuesheet_Arranger c) (Cuesheet_Message c) (Cuesheet_Genre c) (Cuesheet_DiscId c)
    (Cuesheet_UpcEan c) (Cuesheet_Pregap c) (Cuesheet_Postgap c) (Cuesheet_File c).

Definition set_Cuesheet_SongWriter (v : string) (c : Cuesheet) : Cuesheet :=
  Build_Cuesheet (Cuesheet_Rem c) (Cuesheet_Catalog c) (Cuesheet_CdTextFile c)
    (Cuesheet_Title c) (Cuesheet_Performer c) v (Cuesheet_Composer c)
    (Cuesheet_Arranger c) (Cuesheet_Message c) (Cuesheet_Genre c) (Cuesheet_DiscId c)
    (Cuesheet_UpcEan c) (Cuesheet_Pregap c) (Cuesheet_Postgap c) (Cuesheet_File c).

Definition set_Cuesheet_Composer (v : string) (c : Cuesheet) : Cuesheet :=
  Build_Cuesheet (Cuesheet_Rem c) (Cuesheet_Catalog c) (Cuesheet_CdTextFile c)
    (Cuesheet_Title c) (Cuesheet_Performer c) (Cuesheet_SongWriter c) v
    (Cuesheet_Arranger c) (Cuesheet_Message c) (Cuesheet_Genre c) (Cuesheet_DiscId c)
    (Cuesheet_UpcEan c) (Cuesheet_Pregap c) (Cuesheet_Postgap c) (Cuesheet_File c).

Definition set_Cuesheet_Arranger (v : string) (c : Cuesheet) : Cuesheet :=
  Build_Cuesheet (Cuesheet_Rem c) (Cuesheet_Catalog c) (Cuesheet_CdTextFile c)
    (Cuesheet_Title c) (Cuesheet_Performer c) (Cuesheet_SongWriter c)
    (Cuesheet_Composer c) v (Cuesheet_Message c) (Cuesheet_Genre c) (Cuesheet_DiscId c)
    (Cuesheet_UpcEan c) (Cuesheet_Pregap c) (Cuesheet_Postgap c) (Cuesheet_File c).

Definition set_Cuesheet_Message (v : string) (c : Cuesheet) : Cuesheet :=
  Build_Cuesheet (Cuesheet_Rem c) (Cuesheet_Catalog c) (Cuesheet_CdTextFile c)
    (Cuesheet_Title c) (Cuesheet_Performer c) (Cuesheet_SongWriter c)
    (Cuesheet_Composer c) (Cuesheet_Arranger c) v (Cuesheet_Genre c) (Cuesheet_DiscId c)
    (Cuesheet_UpcEan c) (Cuesheet_Pregap c) (Cuesheet_Postgap c) (Cuesheet_File c).

Definition set_Cuesheet_Genre (v : string) (c : Cuesheet) : Cuesheet :=
  Build_Cuesheet (Cuesheet_Rem c) (Cuesheet_Catalog c) (Cuesheet_CdTextFile c)
    (Cuesheet_Title c) (Cuesheet_Performer c) (Cuesheet_SongWriter c)
    (Cuesheet_Composer c) (Cuesheet_Arranger c) (Cuesheet_Message c) v
    (Cuesheet_DiscId c) (Cuesheet_UpcEan c) (Cuesheet_Pregap c) (Cuesheet_Postgap c)
    (Cuesheet_File c).

Definition set_Cuesheet_DiscId (v : string) (c : Cuesheet) : Cuesheet :=
  Build_Cuesheet (Cuesheet_Rem c) (Cuesheet_Catalog c) (Cuesheet_CdTextFile c)
    (Cuesheet_Title c) (Cuesheet_Performer c) (Cuesheet_SongWriter c)
    (Cuesheet_Composer c) (Cuesheet_Arranger c) (Cuesheet_Message c) (Cuesheet_Genre c)
    v (Cuesheet_UpcEan c) (Cuesheet_Pregap c) (Cuesheet_Postgap c) (Cuesheet_File c).

Definition set_Cuesheet_UpcEan (v : string) (c : Cuesheet) : Cuesheet :=
  Build_Cuesheet (Cuesheet_Rem c) (Cuesheet_Catalog c) (Cuesheet_CdTextFile c)
    (Cuesheet_Title c) (Cuesheet_Performer c) (Cuesheet_SongWriter c)
    (Cuesheet_Composer c) (Cuesheet_Arranger c) (Cuesheet_Message c) (Cuesheet_Genre c)
    (Cuesheet_DiscId c) v (Cuesheet_Pregap c) (Cuesheet_Postgap c) (Cuesheet_File c).

Definition set_Cuesheet_Pregap (v : N) (c : Cuesheet) : Cuesheet :=
  Build_Cuesheet (Cuesheet_Rem c) (Cuesheet_Catalog c) (Cuesheet_CdTextFile c)
    (Cuesheet_Title c) (Cuesheet_Performer c) (Cuesheet_SongWriter c)
    (Cuesheet_Composer c) (Cuesheet_Arranger c) (Cuesheet_Message c) (Cuesheet_Genre c)
    (Cuesheet_DiscId c) (Cuesheet_UpcEan c) v (Cuesheet_Postgap c) (Cuesheet_File c).

Definition set_Cuesheet_Postgap (v : N) (c : Cuesheet) : Cuesheet :=
  Build_Cuesheet (Cuesheet_Rem c) (Cuesheet_Catalog c) (Cuesheet_CdTextFile c)
    (Cuesheet_Title c) (Cuesheet_Performer c) (Cuesheet_SongWriter c)
    (Cuesheet_Composer c) (Cuesheet_Arranger c) (Cuesheet_Message c) (Cuesheet_Genre c)
    (Cuesheet_DiscId c) (Cuesheet_UpcEan c) (Cuesheet_Pregap c) v (Cuesheet_File c).

Definition set_Cuesheet_File (v : list File) (c : Cuesheet) : Cuesheet :=
  Build_Cuesheet (Cuesheet_Rem c) (Cuesheet_Catalog c) (Cuesheet_CdTextFile c)
    (Cuesheet_Title c) (Cuesheet_Performer c) (Cuesheet_SongWriter c)
    (Cuesheet_Composer c) (Cuesheet_Arranger c) (Cuesheet_Message c) (Cuesheet_Genre c)
    (Cuesheet_DiscId c) (Cuesheet_UpcEan c) (Cuesheet_Pregap c) (Cuesheet_Postgap c) v.

(** ** The parser *)

(** The [bufio.Reader] over an input that its buffer holds whole (at most
    4096 bytes): the bytes that are not read yet.  A copy of the reader (the
    [before] of the loops) is a copy of this value, and assigning it to the
    reader puts the line that was read back.  This is what the copy does as
    long as the reader does not refill its buffer between the copy and the
    assignment.  The reader of every input, with its buffer, its offsets and
    the copy that goes stale after a refill, is [bufio_Reader] below, with
    the loops of the parser on it in [Buffered]; on an input of at most 4096
    bytes both return the same ([ReadFile_buffered]). *)
Definition Reader : Type := string.

(** The bytes of [b] up to and with the first [delim], whether there is
    one, and the bytes after it. *)
Fixpoint read_until (b : string) (delim : ascii) : string * bool * string :=
  match b with
  | EmptyString => (EmptyString, false, EmptyString)
  | String c r =>
      if Ascii.eqb c delim then (String c EmptyString, true, r)
      else let '(l, found, r') := read_until r delim in (String c l, found, r')
  end.

(** [ReadString(delim)] of [bufio.Reader]: the line with its delimiter; at
    the end of the input, the bytes that are left together with [io.EOF]. *)
Definition bufio_ReadString (b : Reader) (delim : ascii) : string * option error * Reader :=
  let '(line, found, b') := read_until b delim in
  (line, if found then None else Some EOF, b').

(** What a [switch] inside a labelled loop does next: go on with the loop,
    or leave it ([break L]). *)
Inductive control (A : Type) : Type :=
| Continue (a : A)
| Break (a : A).

Arguments Continue {A} a.
Arguments Break {A} a.

(** The loop of the [FLAGS] case: [for len(line) > 0]. *)
Fixpoint readTrack_flags (fuel : nat) (line : string) (flags : Z) : outcome Z :=
  match line with
  | EmptyString => Ok flags
  | _ =>
      match fuel with
      | O => OutOfFuel
      | S fuel' =>
          '(v, line') <- ReadString line ;;
          readTrack_flags fuel' line'
            (if v =? "DCP" then Z.lor flags Dcp
             else if v =? "4CH" then Z.lor flags Four_ch
             else if v =? "PRE" then Z.lor flags Pre
             else if v =? "SCMS" then Z.lor flags Scms
             else flags)
      end
  end.

(** The [switch command] of [readTrack]. *)
Definition readTrack_switch (command line : string) (track : Track)
  : outcome (control Track) :=
  if command =? "FLAGS" then
    flags <- readTrack_flags (S (String.length line)) line None_ ;;
    Ok (Continue (set_Track_Flags flags track))
  else if command =? "ISRC" then
    Ok (Continue (set_Track_Isrc line track))
  else if command =? "TITLE" then
    '(v, _) <- ReadString line ;; Ok (Continue (set_Track_Title v track))
  else if command =? "PERFORMER" then
    '(v, _) <- ReadString line ;; Ok (Continue (set_Track_Performer v track))
  else if command =? "SONGWRITER" then
    '(v, _) <- ReadString line ;; Ok (Continue (set_Track_SongWriter v track))
  else if command =? "COMPOSER" then
    '(v, _) <- ReadString line ;; Ok (Continue (set_Track_Composer v track))
  else if command =? "ARRANGER" then
    '(v, _) <- ReadString line ;; Ok (Continue (set_Track_Arranger v track))
  else if command =? "MESSAGE" then
    '(v, _) <- ReadString line ;; Ok (Continue (set_Track_Message v track))
  else if command =? "PREGAP" then
    '(frame, _) <- ReadFrame line ;; Ok (Continue (set_Track_Pregap frame track))
  else if command =? "POSTGAP" then
    '(frame, _) <- ReadFrame line ;; Ok (Continue (set_Track_Postgap frame track))
  else if command =? "INDEX" then
    '(num, line) <- ReadUint line ;;
    '(frame, _) <- ReadFrame line ;;
    Ok (Continue (set_Track_Index (Track_Index track ++ [Build_TrackIndex num frame])%list track))
  else if command =? "REM" then
    Ok (Continue track)
  else
    Ok (Break track).

(** [readTrack(b, track)]: the reader and the track when the loop ends.
    [*b = before] puts back the line that was read, as the code does when
    the buffer was not refilled since the copy; [Buffered.readTrack] has the
    assignment as it is for every input. *)
Fixpoint readTrack (fuel : nat) (b : Reader) (track : Track) : outcome (Reader * Track) :=
  match fuel with
  | O => OutOfFuel
  | S fuel' =>
      let before := b in
      let '(line, err, b) := bufio_ReadString b LF in
      match err with
      | Some EOF => Ok (b, track)
      | Some e => Fail e
      | None =>
          if negb (HasPrefix line "    ") then Ok (before, track)
          else
            let line := Trim line delims in
            '(command, line) <- ReadString line ;;
            r <- readTrack_switch command line track ;;
            match r with
            | Continue track => readTrack fuel' b track
            | Break track => Ok (b, track)
            end
      end
  end.

(** The loop of [readTracks]; [*b = before] as in [readTrack], and
    [Buffered.readTracks_loop] for every input. *)
Fixpoint readTracks_loop (fuel : nat) (b : Reader) (tracks : list Track)
  : outcome (Reader * list Track) :=
  match fuel with
  | O => OutOfFuel
  | S fuel' =>
      let before := b in
      let '(line, err, b) := bufio_ReadString b LF in
      match err with
      | Some EOF => Ok (b, tracks)
      | Some e => Fail e
      | None =>
          if negb (HasPrefix line "  ") then Ok (before, tracks)
          else
            let line := Trim line delims in
            '(command, line) <- ReadString line ;;
            if command =? "TRACK" then
              let track := Track_zero in
              '(num, line) <- ReadUint line ;;
              let track := set_Track_TrackNumber num track in
              '(v, _) <- ReadString line ;;
              let track := set_Track_TrackDataType v track in
              '(b, track) <- readTrack fuel' b track ;;
              readTracks_loop fuel' b (tracks ++ [track])%list
            else Ok (b, tracks)
      end
  end.

(** [readTracks(b)]. *)
Definition readTracks (fuel : nat) (b : Reader) : outcome (Reader * list Track) :=
  readTracks_loop fuel b [].

(** The [switch command] of [ReadFile]. *)
Definition ReadFile_switch (fuel : nat) (command line : string) (b : Reader)
    (cuesheet : Cuesheet) : outcome (Reader * Cuesheet) :=
  if command =? "REM" then
    Ok (b, set_Cuesheet_Rem (Cuesheet_Rem cuesheet ++ [line])%list cuesheet)
  else if command =? "CATALOG" then
    Ok (b, set_Cuesheet_Catalog line cuesheet)
  else if command =? "CDTEXTFILE" then
    '(v, _) <- ReadString line ;; Ok (b, set_Cuesheet_CdTextFile v cuesheet)
  else if command =? "TITLE" then
    '(v, _) <- ReadString line ;; Ok (b, set_Cuesheet_Title v cuesheet)
  else if command =? "PERFORMER" then
    '(v, _) <- ReadString line ;; Ok (b, set_Cuesheet_Performer v cuesheet)
  else if command =? "SONGWRITER" then
    '(v, _) <- ReadString line ;; Ok (b, set_Cuesheet_SongWriter v cuesheet)
  else if command =? "COMPOSER" then
    '(v, _) <- ReadString line ;; Ok (b, set_Cuesheet_Composer v cuesheet)
  else if command =? "ARRANGER" then
    '(v, _) <- ReadString line ;; Ok (b, set_Cuesheet_Arranger v cuesheet)
  else if command =? "MESSAGE" then
    '(v, _) <- ReadString line ;; Ok (b, set_Cuesheet_Message v cuesheet)
  else if command =? "GENRE" then
    '(v, _) <- ReadString line ;; Ok (b, set_Cuesheet_Genre v cuesheet)
  else if command =? "DISC_ID" then
    '(v, _) <- ReadString line ;; Ok (b, set_Cuesheet_DiscId v cuesheet)
  else if command =? "UPC_EAN" then
    '(v, _) <- ReadString line ;; Ok (b, set_Cuesheet_UpcEan v cuesheet)
  else if command =? "PREGAP" then
    '(frame, _) <- ReadFrame line ;; Ok (b, set_Cuesheet_Pregap frame cuesheet)
  else if command =? "POSTGAP" then
    '(frame, _) <- ReadFrame line ;; Ok (b, set_Cuesheet_Postgap frame cuesheet)
  else if command =? "FILE" then
    '(fname, line) <- ReadString line ;;
    '(ftype, _) <- ReadString line ;;
    '(b, tracks) <- readTracks fuel b ;;
    Ok (b, set_Cuesheet_File (Cuesheet_File cuesheet ++ [Build_File fname ftype tracks])%list
             cuesheet)
  else
    Ok (b, cuesheet).

(** The loop of [ReadFile]. *)
Fixpoint ReadFile_loop (fuel : nat) (b : Reader) (cuesheet : Cuesheet) : outcome Cuesheet :=
  match fuel with
  | O => OutOfFuel
  | S fuel' =>
      let '(line, err, b) := bufio_ReadString b LF in
      match err with
      | Some EOF => Ok cuesheet
      | Some e => Fail e
      | None =>
          let line := Trim line delims in
          '(command, line) <- ReadString line ;;
          '(b, cuesheet) <- ReadFile_switch fuel' command line b cuesheet ;;
          ReadFile_loop fuel' b cuesheet
      end
  end.

(** [ReadFile(r)] on the bytes of [r].  Each turn of a loop reads a line
    of at least one byte, so one more turn than the input has bytes is
    enough for every loop. *)
Definition ReadFile (r : string) : outcome Cuesheet :=
  ReadFile_loop (S (String.length r)) r Cuesheet_zero.

(** ** The reader with its buffer

    The reader of the section above is the bytes that are left to read.  The
    [bufio.Reader] of the code reads its input through a buffer of 4096
    bytes, and the loops copy the reader ([before := *b]) and assign the copy
    back ([*b = before]): the copy has the offsets [r] and [w] and the
    pending error of its time, but it shares the array of the buffer and the
    reader [rd] below with the reader itself.  This section has the reader
    with these fields, and the loops of the parser on it.

    The input [rd] is a reader that holds its bytes in memory (a
    [strings.Reader], a [bytes.Reader] or a [bytes.Buffer]): its [Read] copies
    as many bytes as the slice takes, and returns [io.EOF] with no byte once
    every byte was delivered. *)

Definition defaultBufSize : nat := 4096.

(** [bytes.IndexByte]. *)
Fixpoint IndexByte (s : string) (c : ascii) : option nat :=
  match s with
  | EmptyString => None
  | String a r => if Ascii.eqb a c then Some 0 else option_map S (IndexByte r c)
  end.

(** The fields of [bufio.Reader] that [ReadString] uses: [buf] is the
    content of the array behind the slice, [rd] the bytes that the input has
    not delivered. *)
Record bufio_Reader : Type := Build_bufio_Reader {
  Reader_buf : string;
  Reader_rd : string;
  Reader_r : nat;
  Reader_w : nat;
  Reader_err : option error
}.

(** [bufio.NewReader(rd)], for an input [rd] that is no [bufio.Reader]
    itself: a buffer of [defaultBufSize] zero bytes. *)
Definition NewReader (rd : string) : bufio_Reader :=
  Build_bufio_Reader (Repeat (String zero EmptyString) defaultBufSize) rd 0 0 None.

(** [*b = before]: the offsets and the error are those of the copy; the
    array of the buffer and the input are shared, so that their content is
    that of now. *)
Definition Reader_assign (before b : bufio_Reader) : bufio_Reader :=
  Build_bufio_Reader (Reader_buf b) (Reader_rd b)
    (Reader_r before) (Reader_w before) (Reader_err before).

(** [rd.Read(p)] for a slice [p] of [n] bytes: the bytes that are copied,
    the error, and what is left of the input. *)
Definition Read (rd : string) (n : nat) : string * option error * string :=
  match rd with
  | EmptyString => (EmptyString, Some EOF, rd)
  | _ =>
      let k := Nat.min n (String.length rd) in
      (substring 0 k rd, None, substring k (String.length rd - k) rd)
  end.

(** [b.fill()]: the bytes that are not read slide to the start of the
    buffer, and one [Read] fills the space after them.  The space is not
    empty, so that the first [Read] of the loop of [fill] returns a byte or an
    error, and the loop ends with it. *)
Definition Reader_fill (b : bufio_Reader) : outcome bufio_Reader :=
  let b :=
    if (0 <? Reader_r b)%nat then
      let n := Reader_w b - Reader_r b in
      Build_bufio_Reader
        (substring (Reader_r b) n (Reader_buf b) ++
         substring n (String.length (Reader_buf b) - n) (Reader_buf b))
        (Reader_rd b) 0 n (Reader_err b)
    else b in
  if (String.length (Reader_buf b) <=? Reader_w b)%nat then Panic
  else
    let '(data, err, rd) :=
      Read (Reader_rd b) (String.length (Reader_buf b) - Reader_w b) in
    let w := Reader_w b + String.length data in
    Ok (Build_bufio_Reader
          (substring 0 (Reader_w b) (Reader_buf b) ++ data ++
           substring w (String.length (Reader_buf b) - w) (Reader_buf b))
          rd (Reader_r b) w
          (match err with Some e => Some e | None => Reader_err b end)).

(** The errors of [ReadSlice]: [ErrBufferFull], which does not leave
    [bufio], or the pending error of the reader. *)
Inductive slice_error : Type :=
| ErrBufferFull
| pending (e : error).

(** [b.ReadSlice(delim)]: the loop, with the start [s] of the search.  A
    turn ends the loop or fills the buffer, and a [fill] delivers a byte of
    the input or sets the error that ends the next turn. *)
Fixpoint Reader_ReadSlice (fuel : nat) (b : bufio_Reader) (delim : ascii) (s : nat)
  : outcome (string * option slice_error * bufio_Reader) :=
  match fuel with
  | O => OutOfFuel
  | S fuel' =>
      let buf := Reader_buf b in
      let r := Reader_r b in
      let w := Reader_w b in
      match IndexByte (substring (r + s) (w - (r + s)) buf) delim with
      | Some i =>
          let i := i + s in
          Ok (substring r (i + 1) buf, None,
              Build_bufio_Reader buf (Reader_rd b) (r + (i + 1)) w (Reader_err b))
      | None =>
          match Reader_err b with
          | Some e =>
              Ok (substring r (w - r) buf, Some (pending e),
                  Build_bufio_Reader buf (Reader_rd b) w w None)
          | None =>
              if (String.length buf <=? w - r)%nat then
                Ok (buf, Some ErrBufferFull,
                    Build_bufio_Reader buf (Reader_rd b) w w None)
              else
                b' <- Reader_fill b ;;
                Reader_ReadSlice fuel' b' delim (w - r)
          end
      end
  end.

(** The loop of [collectFragments], on which [ReadString] rests: the full
    buffers are collected in front of the last fragment. *)
Fixpoint Reader_ReadString_loop (fuel : nat) (b : bufio_Reader) (delim : ascii)
    (full : string) : outcome (string * option error * bufio_Reader) :=
  match fuel with
  | O => OutOfFuel
  | S fuel' =>
      '(frag, e, b) <- Reader_ReadSlice (String.length (Reader_rd b) + 2) b delim 0 ;;
      match e with
      | None => Ok (full ++ frag, None, b)
      | Some (pending e) => Ok (full ++ frag, Some e, b)
      | Some ErrBufferFull => Reader_ReadString_loop fuel' b delim (full ++ frag)
      end
  end.

(** [b.ReadString(delim)]. *)
Definition Reader_ReadString (b : bufio_Reader) (delim : ascii)
  : outcome (string * option error * bufio_Reader) :=
  Reader_ReadString_loop (String.length (Reader_rd b) + 2) b delim EmptyString.

(** The loops of the parser on this reader. *)
Module Buffered.

(** [readTrack(b, track)]: [before := *b] copies the fields of the reader,
    and [*b = before] is [Reader_assign]. *)
Fixpoint readTrack (fuel : nat) (b : bufio_Reader) (track : Track)
  : outcome (bufio_Reader * Track) :=
  match fuel with
  | O => OutOfFuel
  | S fuel' =>
      let before := b in
      '(line, err, b) <- Reader_ReadString b LF ;;
      match err with
      | Some EOF => Ok (b, track)
      | Some e => Fail e
      | None =>
          if negb (HasPrefix line "    ") then Ok (Reader_assign before b, track)
          else
            let line := Trim line delims in
            '(command, line) <- ReadString line ;;
            r <- readTrack_switch command line track ;;
            match r with
            | Continue track => readTrack fuel' b track
            | Break track => Ok (b, track)
            end
      end
  end.

(** The loop of [readTracks], with the same copy and assignment. *)
Fixpoint readTracks_loop (fuel : nat) (b : bufio_Reader) (tracks : list Track)
  : outcome (bufio_Reader * list Track) :=
  match fuel with
  | O => OutOfFuel
  | S fuel' =>
      let before := b in
      '(line, err, b) <- Reader_ReadString b LF ;;
      match err with
      | Some EOF => Ok (b, tracks)
      | Some e => Fail e
      | None =>
          if negb (HasPrefix line "  ") then Ok (Reader_assign before b, tracks)
          else
            let line := Trim line delims in
            '(command, line) <- ReadString line ;;
            if command =? "TRACK" then
              let track := Track_zero in
              '(num, line) <- ReadUint line ;;
              let track := set_Track_TrackNumber num track in
              '(v, _) <- ReadString line ;;
              let track := set_Track_TrackDataType v track in
              '(b, track) <- readTrack fuel' b track ;;
              readTracks_loop fuel' b (tracks ++ [track])%list
            else Ok (b, tracks)
      end
  end.

(** [readTracks(b)]. *)
Definition readTracks (fuel : nat) (b : bufio_Reader)
  : outcome (bufio_Reader * list Track) :=
  readTracks_loop fuel b [].

(** The [switch command] of [ReadFile]. *)
Definition ReadFile_switch (fuel : nat) (command line : string) (b : bufio_Reader)
    (cuesheet : Cuesheet) : outcome (bufio_Reader * Cuesheet) :=
  if command =? "REM" then
    Ok (b, set_Cuesheet_Rem (Cuesheet_Rem cuesheet ++ [line])%list cuesheet)
  else if command =? "CATALOG" then
    Ok (b, set_Cuesheet_Catalog line cuesheet)
  else if command =? "CDTEXTFILE" then
    '(v, _) <- ReadString line ;; Ok (b, set_Cuesheet_CdTextFile v cuesheet)
  else if command =? "TITLE" then
    '(v, _) <- ReadString line ;; Ok (b, set_Cuesheet_Title v cuesheet)
  else if command =? "PERFORMER" then
    '(v, _) <- ReadString line ;; Ok (b, set_Cuesheet_Performer v cuesheet)
  else if command =? "SONGWRITER" then
    '(v, _) <- ReadString line ;; Ok (b, set_Cuesheet_SongWriter v cuesheet)
  else if command =? "COMPOSER" then
    '(v, _) <- ReadString line ;; Ok (b, set_Cuesheet_Composer v cuesheet)
  else if command =? "ARRANGER" then
    '(v, _) <- ReadString line ;; Ok (b, set_Cuesheet_Arranger v cuesheet)
  else if command =? "MESSAGE" then
    '(v, _) <- ReadString line ;; Ok (b, set_Cuesheet_Message v cuesheet)
  else if command =? "GENRE" then
    '(v, _) <- ReadString line ;; Ok (b, set_Cuesheet_Genre v cuesheet)
  else if command =? "DISC_ID" then
    '(v, _) <- ReadString line ;; Ok (b, set_Cuesheet_DiscId v cuesheet)
  else if command =? "UPC_EAN" then
    '(v, _) <- ReadString line ;; Ok (b, set_Cuesheet_UpcEan v cuesheet)
  else if command =? "PREGAP" then
    '(frame, _) <- ReadFrame line ;; Ok (b, set_Cuesheet_Pregap frame cuesheet)
  else if command =? "POSTGAP" then
    '(frame, _) <- ReadFrame line ;; Ok (b, set_Cuesheet_Postgap frame cuesheet)
  else if command =? "FILE" then
    '(fname, line) <- ReadString line ;;
    '(ftype, _) <- ReadString line ;;
    '(b, tracks) <- readTracks fuel b ;;
    Ok (b, set_Cuesheet_File (Cuesheet_File cuesheet ++ [Build_File fname ftype tracks])%list
             cuesheet)
  else
    Ok (b, cuesheet).

(** The loop of [ReadFile]. *)
Fixpoint ReadFile_loop (fuel : nat) (b : bufio_Reader) (cuesheet : Cuesheet)
  : outcome Cuesheet :=
  match fuel with
  | O => OutOfFuel
  | S fuel' =>
      '(line, err, b) <- Reader_ReadString b LF ;;
      match err with
      | Some EOF => Ok cuesheet
      | Some e => Fail e
      | None =>
          let line := Trim line delims in
          '(command, line) <- ReadString line ;;
          '(b, cuesheet) <- ReadFile_switch fuel' command line b cuesheet ;;
          ReadFile_loop fuel' b cuesheet
      end
  end.

(** The loop of [ReadFile] on the input [r], from the sheet [cuesheet].
    A turn of a loop reads a line of at least one byte or meets the end of
    the input, and a copy that is assigned back has no more bytes to read than
    it had when it was taken: one more turn than the input has bytes is what
    the loops are given. *)
Definition ReadFile_all (r : string) (cuesheet : Cuesheet) : outcome Cuesheet :=
  ReadFile_loop (S (String.length r)) (NewReader r) cuesheet.

(** [ReadFile(r)] on the bytes of [r]: [b := bufio.NewReader(r)], then the
    loop from the zero sheet. *)
Definition ReadFile (r : string) : outcome Cuesheet :=
  ReadFile_all r Cuesheet_zero.

End Buffered.

(** ** The serializer *)

(** [ws.WriteString(s)] on the buffer of the writer. *)
Definition WriteString (ws s : string) : string := ws ++ s.

(** A field that is written when it is not empty. *)
Definition write_if (cond : bool) (ws s : string) : string :=
  if cond then WriteString ws s else ws.

Definition nonempty (s : string) : bool := (0 <? String.length s)%nat.

(** The body of the loop over [track.Index]. *)
Definition WriteFile_index (ws : string) (index : TrackIndex) : string :=
  WriteString ws ("    INDEX " ++ FormatTrackNumber (TrackIndex_Number index) ++
                  " " ++ FormatFrame (TrackIndex_Frame index) ++ eol).

(** The [FLAGS] line of a track. *)
Definition WriteFile_flags (ws : string) (flags : Z) : string :=
  if (flags =? None_)%Z then ws
  else
    let ws := WriteString ws "    FLAGS" in
    let ws := write_if (negb (Z.land flags Dcp =? 0)%Z) ws " DCP" in
    let ws := write_if (negb (Z.land flags Four_ch =? 0)%Z) ws " 4CH" in
    let ws := write_if (negb (Z.land flags Pre =? 0)%Z) ws " PRE" in
    let ws := write_if (negb (Z.land flags Scms =? 0)%Z) ws " SCMS" in
    WriteString ws eol.

(** The body of the loop over [file.Tracks]. *)
Definition WriteFile_track (ws : string) (track : Track) : string :=
  let ws := WriteString ws ("  TRACK " ++ FormatTrackNumber (Track_TrackNumber track) ++
                            " " ++ Track_TrackDataType track ++ eol) in
  let ws := WriteFile_flags ws (Track_Flags track) in
  let ws := write_if (nonempty (Track_Isrc track)) ws
              ("    ISRC " ++ Track_Isrc track ++ eol) in
  let ws := write_if (nonempty (Track_Title track)) ws
              ("    TITLE " ++ FormatString (Track_Title track) ++ eol) in
  let ws := write_if (nonempty (Track_Performer track)) ws
              ("    PERFORMER " ++ FormatString (Track_Performer track) ++ eol) in
  let ws := write_if (nonempty (Track_SongWriter track)) ws
              ("    SONGWRITER " ++ FormatString (Track_SongWriter track) ++ eol) in
  let ws := write_if (nonempty (Track_Composer track)) ws
              ("    COMPOSER " ++ FormatString (Track_Composer track) ++ eol) in
  let ws := write_if (nonempty (Track_Arranger track)) ws
              ("    ARRANGER " ++ FormatString (Track_Arranger track) ++ eol) in
  let ws := write_if (nonempty (Track_Message track)) ws
              ("    MESSAGE " ++ FormatString (Track_Message track) ++ eol) in
  let ws := write_if (0 <? Track_Pregap track)%N ws
              ("    PREGAP " ++ FormatFrame (Track_Pregap track) ++ eol) in
  let ws := write_if (0 <? Track_Postgap track)%N ws
              ("    POSTGAP " ++ FormatFrame (Track_Postgap track) ++ eol) in
  fold_left WriteFile_index (Track_Index track) ws.

(** The body of the loop over [cuesheet.File]. *)
Definition WriteFile_file (ws : string) (file : File) : string :=
  let ws := WriteString ws ("FILE " ++ FormatString (File_FileName file) ++
                            " " ++ File_FileType file ++ eol) in
  fold_left WriteFile_track (File_Tracks file) ws.

(** [WriteFile(w, cuesheet)]: the bytes that reach [w] when the writer is
    flushed.  The function returns no error. *)
Definition WriteFile (cuesheet : Cuesheet) : string :=
  let ws := EmptyString in
  let ws := fold_left (fun ws rem => WriteString ws ("REM " ++ rem ++ eol))
              (Cuesheet_Rem cuesheet) ws in
  let ws := write_if (nonempty (Cuesheet_Catalog cuesheet)) ws
              ("CATALOG " ++ Cuesheet_Catalog cuesheet ++ eol) in
  let ws := write_if (nonempty (Cuesheet_CdTextFile cuesheet)) ws
              ("CDTEXTFILE " ++ FormatString (Cuesheet_CdTextFile cuesheet) ++ eol) in
  let ws := write_if (nonempty (Cuesheet_Title cuesheet)) ws
              ("TITLE " ++ FormatString (Cuesheet_Title cuesheet) ++ eol) in
  let ws := write_if (nonempty (Cuesheet_Performer cuesheet)) ws
              ("PERFORMER " ++ FormatString (Cuesheet_Performer cuesheet) ++ eol) in
  let ws := write_if (nonempty (Cuesheet_SongWriter cuesheet)) ws
              ("SONGWRITER " ++ FormatString (Cuesheet_SongWriter cuesheet) ++ eol) in
  let ws := write_if (nonempty (Cuesheet_Composer cuesheet)) ws
              ("COMPOSER " ++ FormatString (Cuesheet_Composer cuesheet) ++ eol) in
  let ws := write_if (nonempty (Cuesheet_Arranger cuesheet)) ws
              ("ARRANGER " ++ FormatString (Cuesheet_Arranger cuesheet) ++ eol) in
  let ws := write_if (nonempty (Cuesheet_Message cuesheet)) ws
              ("MESSAGE " ++ FormatString (Cuesheet_Message cuesheet) ++ eol) in
  let ws := write_if (nonempty (Cuesheet_Genre cuesheet)) ws
              ("GENRE " ++ FormatString (Cuesheet_Genre cuesheet) ++ eol) in
  let ws := write_if (nonempty (Cuesheet_DiscId cuesheet)) ws
              ("DISC_ID " ++ FormatString (Cuesheet_DiscId cuesheet) ++ eol) in
  let ws := write_if (nonempty (Cuesheet_UpcEan cuesheet)) ws
              ("UPC_EAN " ++ FormatString (Cuesheet_UpcEan cuesheet) ++ eol) in
  let ws := write_if (0 <? Cuesheet_Pregap cuesheet)%N ws
              ("PREGAP " ++ FormatFrame (Cuesheet_Pregap cuesheet) ++ eol) in
  let ws := write_if (0 <? Cuesheet_Postgap cuesheet)%N ws
              ("POSTGAP " ++ FormatFrame (Cuesheet_Postgap cuesheet) ++ eol) in
  fold_left WriteFile_file (Cuesheet_File cuesheet) ws.

(** ** The validator *)

Definition isLetter (c : ascii) : bool :=
  let n := N_of_ascii c in
  ((65 <=? n) && (n <=? 90) || (97 <=? n) && (n <=? 122))%N.

Definition isDigit (c : ascii) : bool :=
  let n := N_of_ascii c in ((48 <=? n) && (n <=? 57))%N.

Definition isAlphaNum (c : ascii) : bool := isLetter c || isDigit c.

(** The loop of [ValidateCatalog] over the characters of the string: a
    byte outside ['0'..'9'] is an error (a byte above 127 decodes to a rune
    above ['9']). *)
Fixpoint all_bytes (p : ascii -> bool) (s : string) : bool :=
  match s with
  | EmptyString => true
  | String c r => p c && all_bytes p r
  end.

(** [ValidateCatalog]: [None] is the [nil] error. *)
Definition ValidateCatalog (catalog : string) : option error :=
  if negb (String.length catalog =? 13)%nat then Some ErrSyntax
  else if all_bytes isDigit catalog then None
  else Some ErrSyntax.

(** [isrc[i]] for an index that is in range. *)
Definition byte_at (s : string) (i : nat) : ascii :=
  match String.get i s with
  | Some c => c
  | None => zero
  end.

(** [ValidateISRC]; the length is checked before any byte is read. *)
Definition ValidateISRC (isrc : string) : option error :=
  if negb (String.length isrc =? 12)%nat then Some ErrSyntax
  else if negb (isLetter (byte_at isrc 0)) || negb (isLetter (byte_at isrc 1))
  then Some ErrSyntax
  else if negb (forallb (fun i => isAlphaNum (byte_at isrc i)) (seq 2 3))
  then Some ErrSyntax
  else if negb (forallb (fun i => isDigit (byte_at isrc i)) (seq 5 7))
  then Some ErrSyntax
  else None.

(** The map [ValidFileTypes]; a key that is absent reads as [false]. *)
Definition ValidFileTypes : list (string * bool) :=
  [("BINARY", true); ("MOTOROLA", true); ("AIFF", true); ("WAVE", true); ("MP3", true)].

Fixpoint map_lookup {V : Type} (m : list (string * V)) (k : string) : option V :=
  match m with
  | [] => None
  | (k', v) :: m' => if k' =? k then Some v else map_lookup m' k
  end.

Definition ValidateFileType (fileType : string) : option error :=
  match map_lookup ValidFileTypes fileType with
  | Some true => None
  | _ => Some ErrSyntax
  end.

Record TrackMode : Type := Build_TrackMode {
  TrackMode_Name : string;
  TrackMode_BlockSize : Z
}.

(** The map [ValidTrackModes]. *)
Definition ValidTrackModes : list (string * TrackMode) :=
  [("AUDIO", Build_TrackMode "AUDIO" 2352);
   ("CDG", Build_TrackMode "CDG" 2448);
   ("MODE1/2048", Build_TrackMode "MODE1/2048" 2048);
   ("MODE1/2352", Build_TrackMode "MODE1/2352" 2352);
   ("MODE2/2336", Build_TrackMode "MODE2/2336" 2336);
   ("MODE2/2352", Build_TrackMode "MODE2/2352" 2352);
   ("CDI/2336", Build_TrackMode "CDI/2336" 2336);
   ("CDI/2352", Build_TrackMode "CDI/2352" 2352)].

Definition ValidateTrackDataType (dataType : string) : option error :=
  match map_lookup ValidTrackModes dataType with
  | Some _ => None
  | None => Some ErrSyntax
  end.

(** [errs = append(errs, err)] when [err != nil]. *)
Definition append_err (errs : list error) (err : option error) : list error :=
  match err with
  | Some e => (errs ++ [e])%list
  | None => errs
  end.

(** The loop of [Track.Validate] over the indexes: the state is
    [hasIndex01] and [errs]. *)
Definition Track_Validate_index (st : bool * list error) (idx : TrackIndex)
  : bool * list error :=
  let '(hasIndex01, errs) := st in
  let hasIndex01 := if (TrackIndex_Number idx =? 1)%N then true else hasIndex01 in
  let errs := if (99 <? TrackIndex_Number idx)%N then (errs ++ [ErrRange])%list else errs in
  (hasIndex01, errs).

(** [Validate] of [Track]. *)
Definition Track_Validate (t : Track) : list error :=
  let errs := [] in
  let errs :=
    if (Track_TrackNumber t <? 1)%N || (99 <? Track_TrackNumber t)%N
    then (errs ++ [ErrRange])%list else errs in
  let '(hasIndex01, errs) := fold_left Track_Validate_index (Track_Index t) (false, errs) in
  let errs := if negb hasIndex01 then (errs ++ [ErrSyntax])%list else errs in
  let errs :=
    if nonempty (Track_Isrc t) then append_err errs (ValidateISRC (Track_Isrc t))
    else errs in
  append_err errs (ValidateTrackDataType (Track_TrackDataType t)).

(** The body of the loop of [Cuesheet.Validate] over the files. *)
Definition Cuesheet_Validate_file (errs : list error) (file : File) : list error :=
  let errs := append_err errs (ValidateFileType (File_FileType file)) in
  fold_left (fun errs track => (errs ++ Track_Validate track)%list) (File_Tracks file) errs.

(** [Validate] of [Cuesheet]. *)
Definition Cuesheet_Validate (c : Cuesheet) : list error :=
  let errs := [] in
  let errs :=
    if nonempty (Cuesheet_Catalog c) then append_err errs (ValidateCatalog (Cuesheet_Catalog c))
    else errs in
  let errs := if (List.length (Cuesheet_File c) =? 0)%nat then (errs ++ [ErrSyntax])%list else errs in
  fold_left Cuesheet_Validate_file (Cuesheet_File c) errs.

(** ** The helper methods

    A method that returns a pointer with an error or with a boolean returns
    here the value that the pointer points to, or [None]: each of these
    methods has one error. *)

(** The loop of [GetTrack] over the files. *)
Fixpoint GetTrack_files (files : list File) (number : N) : option Track :=
  match files with
  | [] => None
  | file :: files' =>
      match find (fun t => (Track_TrackNumber t =? number)%N) (File_Tracks file) with
      | Some t => Some t
      | None => GetTrack_files files' number
      end
  end.

(** [GetTrack] of [Cuesheet]; [None] is the error [track not found]. *)
Definition Cuesheet_GetTrack (c : Cuesheet) (number : N) : option Track :=
  GetTrack_files (Cuesheet_File c) number.

(** [TrackCount] of [Cuesheet]. *)
Definition Cuesheet_TrackCount (c : Cuesheet) : Z :=
  fold_left (fun count file => (count + Z.of_nat (List.length (File_Tracks file)))%Z)
    (Cuesheet_File c) 0%Z.

(** [GetIndex] of [Track]; [None] is the error [index not found]. *)
Definition Track_GetIndex (t : Track) (number : N) : option TrackIndex :=
  find (fun idx => (TrackIndex_Number idx =? number)%N) (Track_Index t).

(** [IndexCount]. *)
Definition Track_IndexCount (t : Track) : Z := Z.of_nat (List.length (Track_Index t)).

(** [StartPosition]; [None] is the error [track missing INDEX 01]. *)
Definition Track_StartPosition (t : Track) : option N :=
  match Track_GetIndex t 1 with
  | None => None
  | Some idx => Some (TrackIndex_Frame idx)
  end.

(** [HasPregap]. *)
Definition Track_HasPregap (t : Track) : bool :=
  match Track_GetIndex t 0 with
  | None => false
  | Some _ => true
  end.

(** [GetPregapIndex]; [None] is the result [nil, false]. *)
Definition Track_GetPregapIndex (t : Track) : option TrackIndex :=
  match Track_GetIndex t 0 with
  | None => None
  | Some idx => Some idx
  end.

(** [GetStartIndex]. *)
Definition Track_GetStartIndex (t : Track) : option TrackIndex := Track_GetIndex t 1.

(** [HasFlag] and the methods that call it. *)
Definition Track_HasFlag (t : Track) (flag : Z) : bool :=
  negb (Z.land (Track_Flags t) flag =? 0)%Z.

Definition Track_IsCopyPermitted (t : Track) : bool := Track_HasFlag t Dcp.

Definition Track_IsDataTrack (t : Track) : bool :=
  negb (Track_TrackDataType t =? "AUDIO").

Definition Track_HasPreemphasis (t : Track) : bool := Track_HasFlag t Pre.

Definition Track_IsFourChannel (t : Track) : bool := Track_HasFlag t Four_ch.

Definition Track_HasSCMS (t : Track) : bool := Track_HasFlag t Scms.

(** [GetBlockSize]. *)
Definition Track_GetBlockSize (t : Track) : Z :=
  match map_lookup ValidTrackModes (Track_TrackDataType t) with
  | Some mode => TrackMode_BlockSize mode
  | None => 0%Z
  end.

(** The loops of [TotalDuration]: the state is [lastFrame]. *)
Definition TotalDuration_index (lastFrame : N) (idx : TrackIndex) : N :=
  if (lastFrame <? TrackIndex_Frame idx)%N then TrackIndex_Frame idx else lastFrame.

Definition TotalDuration_track (lastFrame : N) (track : Track) : N :=
  fold_left TotalDuration_index (Track_Index track) lastFrame.

Definition TotalDuration_file (lastFrame : N) (file : File) : N :=
  fold_left TotalDuration_track (File_Tracks file) lastFrame.

(** [TotalDuration].  The method [ToDuration] of [Frame] computes in
    [float64]; it is a parameter here, and [TotalDuration] is modelled up to
    the frame count that it passes to it.  The result is a [time.Duration], a
    number of nanoseconds. *)
Definition Cuesheet_TotalDuration (ToDuration : N -> Z) (c : Cuesheet) : Z :=
  if (List.length (Cuesheet_File c) =? 0)%nat then 0%Z
  else ToDuration (fold_left TotalDuration_file (Cuesheet_File c) 0%N).

(** ** The comments

    [ParseRemComment] calls [strings.SplitN], [strings.ToUpper] and
    [strings.TrimSpace].  On a string of ASCII bytes the last two work byte by
    byte, as they are written here; on other strings Go decodes UTF-8 and
    looks the runes up in the Unicode tables, which is not modelled: the
    properties of the comments are stated for ASCII comments. *)

Inductive RemType : Type :=
| RemUnknown
| RemDate
| RemGenre
| RemDiscNumber
| RemComment
| RemReplayGainAlbumGain
| RemReplayGainAlbumPeak
| RemReplayGainTrackGain
| RemReplayGainTrackPeak.

Definition RemType_eqb (a b : RemType) : bool :=
  match a, b with
  | RemUnknown, RemUnknown | RemDate, RemDate | RemGenre, RemGenre
  | RemDiscNumber, RemDiscNumber | RemComment, RemComment
  | RemReplayGainAlbumGain, RemReplayGainAlbumGain
  | RemReplayGainAlbumPeak, RemReplayGainAlbumPeak
  | RemReplayGainTrackGain, RemReplayGainTrackGain
  | RemReplayGainTrackPeak, RemReplayGainTrackPeak => true
  | _, _ => false
  end.

Record RemField : Type := Build_RemField {
  RemField_Type : RemType;
  RemField_Key : string;
  RemField_Value : string
}.

(** [strings.SplitN(s, " ", 2)]: the text before the first space and the
    text after it, or the string alone when it has no space. *)
Definition SplitN_2 (s : string) : list string :=
  match cut_space s with
  | Some (a, b) => [a; b]
  | None => [s]
  end.

(** [strings.ToUpper] on ASCII bytes. *)
Definition upper_byte (c : ascii) : ascii :=
  let n := N_of_ascii c in
  if ((97 <=? n) && (n <=? 122))%N then ascii_of_N (n - 32) else c.

Fixpoint ToUpper (s : string) : string :=
  match s with
  | EmptyString => EmptyString
  | String c r => String (upper_byte c) (ToUpper r)
  end.

(** The white space of ASCII: tab, newline, vertical tab, form feed,
    carriage return, space. *)
Definition asciiSpace : string :=
  String TAB (String LF (String (ascii_of_N 11) (String (ascii_of_N 12)
    (String CR (String SP EmptyString))))).

(** [strings.TrimSpace] on ASCII bytes. *)
Definition TrimSpace (s : string) : string := Trim s asciiSpace.

(** The [switch key] of [ParseRemComment]. *)
Definition ParseRemComment_type (key : string) : RemType :=
  if key =? "DATE" then RemDate
  else if key =? "GENRE" then RemGenre
  else if key =? "DISCNUMBER" then RemDiscNumber
  else if key =? "COMMENT" then RemComment
  else if key =? "REPLAYGAIN_ALBUM_GAIN" then RemReplayGainAlbumGain
  else if key =? "REPLAYGAIN_ALBUM_PEAK" then RemReplayGainAlbumPeak
  else if key =? "REPLAYGAIN_TRACK_GAIN" then RemReplayGainTrackGain
  else if key =? "REPLAYGAIN_TRACK_PEAK" then RemReplayGainTrackPeak
  else RemUnknown.

(** [ParseRemComment]: [Ok None] is the result [nil, false]; the call of
    [unquote] can panic. *)
Definition ParseRemComment (rem : string) : outcome (option RemField) :=
  if (String.length rem =? 0)%nat then Ok None
  else
    match SplitN_2 rem with
    | [] => Ok None
    | part0 :: parts =>
        let key := ToUpper part0 in
        value <-
          match parts with
          | [part1] =>
              let value := TrimSpace part1 in
              match value with
              | String c _ =>
                  if Ascii.eqb c DQUOTE || Ascii.eqb c SQUOTE then unquote value
                  else Ok value
              | EmptyString => Ok value
              end
          | _ => Ok EmptyString
          end ;;
        Ok (Some (Build_RemField (ParseRemComment_type key) key value))
    end.

(** The loop of [GetRemFields]. *)
Fixpoint GetRemFields_loop (rems : list string) (fields : list RemField)
  : outcome (list RemField) :=
  match rems with
  | [] => Ok fields
  | rem :: rems' =>
      r <- ParseRemComment rem ;;
      match r with
      | Some field => GetRemFields_loop rems' (fields ++ [field])%list
      | None => GetRemFields_loop rems' fields
      end
  end.

Definition Cuesheet_GetRemFields (c : Cuesheet) : outcome (list RemField) :=
  GetRemFields_loop (Cuesheet_Rem c) [].

(** The loop of [GetRemValue]. *)
Fixpoint GetRemValue_loop (rems : list string) (typ : RemType) : outcome (string * bool) :=
  match rems with
  | [] => Ok (EmptyString, false)
  | rem :: rems' =>
      r <- ParseRemComment rem ;;
      match r with
      | Some field =>
          if RemType_eqb (RemField_Type field) typ then Ok (RemField_Value field, true)
          else GetRemValue_loop rems' typ
      | None => GetRemValue_loop rems' typ
      end
  end.

Definition Cuesheet_GetRemValue (c : Cuesheet) (typ : RemType) : outcome (string * bool) :=
  GetRemValue_loop (Cuesheet_Rem c) typ.

(** The loop of [GetRemByKey]. *)
Fixpoint GetRemByKey_loop (rems : list string) (upperKey : string)
  : outcome (string * bool) :=
  match rems with
  | [] => Ok (EmptyString, false)
  | rem :: rems' =>
      r <- ParseRemComment rem ;;
      match r with
      | Some field =>
          if RemField_Key field =? upperKey then Ok (RemField_Value field, true)
          else GetRemByKey_loop rems' upperKey
      | None => GetRemByKey_loop rems' upperKey
      end
  end.

Definition Cuesheet_GetRemByKey (c : Cuesheet) (key : string) : outcome (string * bool) :=
  let upperKey := ToUpper key in
  GetRemByKey_loop (Cuesheet_Rem c) upperKey.

(** ** [ReadInt] *)

Definition fnParseInt : string := "ParseInt".

(** [strconv.ParseInt(s, 10, bitSize)]: a sign, then the digits that
    [ParseUint] reads.  An error of syntax of [ParseUint] is returned for the
    whole string; a value that [ParseUint] finds out of range, or that does not
    fit the signed range, is a range error. *)
Definition ParseInt (s : string) (bitSize : N) : outcome Z :=
  match s with
  | EmptyString => Fail (NumError fnParseInt s ErrSyntax)
  | String c t =>
      let s0 := s in
      let '(neg, s) :=
        if Ascii.eqb c "+" then (false, t)
        else if Ascii.eqb c "-" then (true, t)
        else (false, s) in
      match ParseUint s bitSize with
      | Ok un =>
          let cutoff := (2 ^ (bitSize - 1))%N in
          if negb neg && (cutoff <=? un)%N then Fail (NumError fnParseInt s0 ErrRange)
          else if neg && (cutoff <? un)%N then Fail (NumError fnParseInt s0 ErrRange)
          else Ok (if neg then (- Z.of_N un)%Z else Z.of_N un)
      | Fail (NumError _ _ ErrRange) => Fail (NumError fnParseInt s0 ErrRange)
      | Fail (NumError _ _ err) => Fail (NumError fnParseInt s0 err)
      | Fail e => Fail e
      | Panic => Panic
      | OutOfFuel => OutOfFuel
      end
  end.

(** [ReadInt]. *)
Definition ReadInt (s : string) : outcome (Z * string) :=
  '(v, s') <- ReadString s ;;
  n <- ParseInt v 32 ;;
  Ok (n, s').

(** * The package [encoding]

    The implementation of [CP1251ToByte], [DecodeMojibakeFromCP1251],
    [CountCyrillic] and [DecodeFromCP1251] that the repository holds.  A rune
    is a number of [Z]; the bytes of a string are decoded into runes as the
    [range] loop of Go decodes UTF-8, and a rune is converted to a string as
    the conversion [string(r)] encodes it. *)

(** The value of a byte, and the conversion [byte(r)] of a rune. *)
Definition byte_val (c : ascii) : Z := Z.of_N (N_of_ascii c).

Definition byte (r : Z) : ascii := ascii_of_N (Z.to_N (r mod 256)).

(** [utf8.RuneError]. *)
Definition RuneError : Z := 0xFFFD.

(** The runes of [for _, r := range s]: a byte below 0x80 is a rune; a
    lead byte from 0xC2 to 0xF4 followed by the continuation bytes it asks
    for, the first one in the range that excludes overlong forms, surrogates
    and values above U+10FFFF, is the rune of their payload bits; any other
    byte is [RuneError], and the loop goes on with the byte after it. *)
Fixpoint runes (s : string) : list Z :=
  match s with
  | EmptyString => []
  | String c0 s1 =>
      let b0 := byte_val c0 in
      if (b0 <? 0x80)%Z then b0 :: runes s1
      else if ((b0 <? 0xC2) || (0xF4 <? b0))%Z then RuneError :: runes s1
      else
        let lo := (if b0 =? 0xE0 then 0xA0 else if b0 =? 0xF0 then 0x90 else 0x80)%Z in
        let hi := (if b0 =? 0xED then 0x9F else if b0 =? 0xF4 then 0x8F else 0xBF)%Z in
        match s1 with
        | EmptyString => RuneError :: runes s1
        | String c1 s2 =>
            let b1 := byte_val c1 in
            if ((b1 <? lo) || (hi <? b1))%Z then RuneError :: runes s1
            else if (b0 <? 0xE0)%Z then
              Z.lor (Z.shiftl (Z.land b0 0x1F) 6) (Z.land b1 0x3F) :: runes s2
            else
              match s2 with
              | EmptyString => RuneError :: runes s1
              | String c2 s3 =>
                  let b2 := byte_val c2 in
                  if ((b2 <? 0x80) || (0xBF <? b2))%Z then RuneError :: runes s1
                  else if (b0 <? 0xF0)%Z then
                    Z.lor (Z.shiftl (Z.land b0 0x0F) 12)
                      (Z.lor (Z.shiftl (Z.land b1 0x3F) 6) (Z.land b2 0x3F)) :: runes s3
                  else
                    match s3 with
                    | EmptyString => RuneError :: runes s1
                    | String c3 s4 =>
                        let b3 := byte_val c3 in
                        if ((b3 <? 0x80) || (0xBF <? b3))%Z then RuneError :: runes s1
                        else
                          Z.lor (Z.shiftl (Z.land b0 0x07) 18)
                            (Z.lor (Z.shiftl (Z.land b1 0x3F) 12)
                               (Z.lor (Z.shiftl (Z.land b2 0x3F) 6) (Z.land b3 0x3F)))
                            :: runes s4
                    end
              end
        end
  end.

(** The bytes of [string(r)]: the UTF-8 encoding of the rune, that of
    [RuneError] for a surrogate and for a value outside Unicode. *)
Definition encodeRune (r : Z) : string :=
  if ((0 <=? r) && (r <=? 0x7F))%Z then String (byte r) EmptyString
  else if ((0 <=? r) && (r <=? 0x7FF))%Z then
    String (byte (Z.lor 0xC0 (Z.shiftr r 6)))
      (String (byte (Z.lor 0x80 (Z.land r 0x3F))) EmptyString)
  else
    let r := if ((r <? 0) || (0x10FFFF <? r) || ((0xD800 <=? r) && (r <=? 0xDFFF)))%Z
             then RuneError else r in
    if (r <=? 0xFFFF)%Z then
      String (byte (Z.lor 0xE0 (Z.shiftr r 12)))
        (String (byte (Z.lor 0x80 (Z.land (Z.shiftr r 6) 0x3F)))
           (String (byte (Z.lor 0x80 (Z.land r 0x3F))) EmptyString))
    else
      String (byte (Z.lor 0xF0 (Z.shiftr r 18)))
        (String (byte (Z.lor 0x80 (Z.land (Z.shiftr r 12) 0x3F)))
           (String (byte (Z.lor 0x80 (Z.land (Z.shiftr r 6) 0x3F)))
              (String (byte (Z.lor 0x80 (Z.land r 0x3F))) EmptyString))).

(** The cases [r == rune] of the [switch] of [CP1251ToByte] with the byte
    that each returns, in the order of the source. *)
Definition CP1251ToByte_cases : list (Z * Z) :=
  [(0x0401, 0xA8); (0x0451, 0xB8); (0x0490, 0xA5); (0x0491, 0xB4); (0x0404, 0xAA);
   (0x0454, 0xBA); (0x0406, 0xB2); (0x0456, 0xB3); (0x0407, 0xAF); (0x0457, 0xBF);
   (0x00A0, 0xA0); (0x00A4, 0xA4); (0x00A6, 0xA6); (0x00A7, 0xA7); (0x00A9, 0xA9);
   (0x00AB, 0xAB); (0x00AC, 0xAC); (0x00AD, 0xAD); (0x00AE, 0xAE); (0x00B0, 0xB0);
   (0x00B1, 0xB1); (0x00B5, 0xB5); (0x00B6, 0xB6); (0x00B7, 0xB7); (0x00BB, 0xBB);
   (0x0402, 0x80); (0x0403, 0x81); (0x201A, 0x82); (0x0453, 0x83); (0x201E, 0x84);
   (0x2026, 0x85); (0x2020, 0x86); (0x2021, 0x87); (0x20AC, 0x88); (0x2030, 0x89);
   (0x0409, 0x8A); (0x2039, 0x8B); (0x040A, 0x8C); (0x040C, 0x8D); (0x040B, 0x8E);
   (0x040F, 0x8F); (0x0452, 0x90); (0x2018, 0x91); (0x2019, 0x92); (0x201C, 0x93);
   (0x201D, 0x94); (0x2022, 0x95); (0x2013, 0x96); (0x2014, 0x97); (0x2122, 0x99);
   (0x0459, 0x9A); (0x203A, 0x9B); (0x045A, 0x9C); (0x045C, 0x9D); (0x045B, 0x9E);
   (0x045F, 0x9F)]%Z.

(** The first case of a [switch] that holds. *)
Fixpoint switch_case (cases : list (Z * Z)) (r : Z) : option Z :=
  match cases with
  | [] => None
  | (k, v) :: cases' => if (r =? k)%Z then Some v else switch_case cases' r
  end.

(** [CP1251ToByte]. *)
Definition CP1251ToByte (r : Z) : ascii :=
  if (r <=? 0x7F)%Z then byte r
  else if ((0x0410 <=? r) && (r <=? 0x042F))%Z then byte (0xC0 + (r - 0x0410))
  else if ((0x0430 <=? r) && (r <=? 0x044F))%Z then byte (0xE0 + (r - 0x0430))
  else
    match switch_case CP1251ToByte_cases r with
    | Some v => byte v
    | None => byte 0
    end.

(** [CountCyrillic]. *)
Definition CountCyrillic_step (count : Z) (r : Z) : Z :=
  if ((0x0430 <=? r) && (r <=? 0x044F))%Z then (count + 2)%Z
  else if ((0x0410 <=? r) && (r <=? 0x042F))%Z then (count + 1)%Z
  else count.

Definition CountCyrillic (s : string) : Z := fold_left CountCyrillic_step (runes s) 0%Z.

(** The loop of [DecodeMojibakeFromCP1251]: the state is [utf8Bytes], the
    result also tells [allMapped]. *)
Fixpoint DecodeMojibake_loop (rs : list Z) (utf8Bytes : string) : string * bool :=
  match rs with
  | [] => (utf8Bytes, true)
  | r :: rs' =>
      let byteVal := CP1251ToByte r in
      if negb (Ascii.eqb byteVal zero) || (r =? 0)%Z
      then DecodeMojibake_loop rs' (utf8Bytes ++ String byteVal EmptyString)
      else (utf8Bytes, false)
  end.

(** [DecodeMojibakeFromCP1251]. *)
Definition DecodeMojibakeFromCP1251 (mojibake : string) : string :=
  let '(utf8Bytes, allMapped) := DecodeMojibake_loop (runes mojibake) EmptyString in
  if negb allMapped then mojibake
  else
    let decoded := utf8Bytes in
    let originalCyrillic := CountCyrillic mojibake in
    let decodedCyrillic := CountCyrillic decoded in
    if (originalCyrillic <? decodedCyrillic)%Z then decoded else mojibake.

(** [DecodeFromCP1251]. *)
Definition DecodeFromCP1251_step (utf8Bytes : string) (r : Z) : string :=
  if (r <=? 0xFF)%Z then utf8Bytes ++ String (byte r) EmptyString
  else utf8Bytes ++ encodeRune r.

Definition DecodeFromCP1251 (mojibake : string) : string :=
  fold_left DecodeFromCP1251_step (runes mojibake) EmptyString.

(** * The vocabulary of the properties *)

(** ** Decimal digits *)

(** The value of a string of digits read after the number [n]. *)
Fixpoint decimal_value (n : N) (s : string) : N :=
  match s with
  | EmptyString => n
  | String c r =>
      match digit_val c with
      | Some d => decimal_value (n * 10 + d) r
      | None => n
      end
  end.

(** ** Padding to two digits *)

(** The last two decimal digits of [n]. *)
Definition pad2 (n : N) : string :=
  String (digit_char ((n / 10) mod 10)) (String (digit_char (n mod 10)) EmptyString).

(** ** Fields without quotes *)

(** A field that [ReadString] reads as it stands: not empty, without
    delimiter, not starting with a quote. *)
Definition bare (s : string) : bool :=
  nonempty s && negb (ContainsAny s delims) && negb (isQuoted s).

(** The three fields of a frame, as text. *)
Definition msf (a b c : N) : string := pad2 a ++ ":" ++ pad2 b ++ ":" ++ pad2 c.

(** ** Frames as text (C3, C4, C5) *)

(** Only zeros. *)
Definition is_zero_char (c : ascii) : bool := Ascii.eqb c "0"%char.

(** ** Quoting (C2, C9) *)

(** A byte that [quote] writes as it is. *)
Definition unescaped (q c : ascii) : bool :=
  negb (Ascii.eqb c q) && negb (Ascii.eqb c BACKSLASH).

(** ** The end of the input (C7, C10) *)

(** A string between double quotes, as it stands in a cue sheet. *)
Definition quoted (s : string) : string := String DQUOTE (s ++ String DQUOTE EmptyString).

(** The sheet of one file with one track and one index, as text. *)
Definition minimal_text : string :=
  "FILE " ++ quoted "a.wav" ++ " WAVE" ++ eol ++
  "  TRACK 01 AUDIO" ++ eol ++
  "    INDEX 01 00:00:00" ++ eol.

(** The same sheet, as [ReadFile] returns it. *)
Definition minimal_sheet : Cuesheet :=
  set_Cuesheet_File
    [Build_File "a.wav" "WAVE"
       [set_Track_Index [Build_TrackIndex 1 0]
          (set_Track_TrackDataType "AUDIO" (set_Track_TrackNumber 1 Track_zero))]]
    Cuesheet_zero.

(** What two readers have in common when the second one lacks the last,
    unfinished line [tail] of the first. *)
Definition same_lines (tail : string) (b1 b2 : Reader) : Prop :=
  b1 = b2 ++ tail \/ (b1 = EmptyString /\ b2 = EmptyString).

(** The same outcome, from readers that have the same lines left. *)
Definition same_outcome {A : Type} (tail : string)
    (o1 o2 : outcome (Reader * A)) : Prop :=
  match o1, o2 with
  | Ok (r1, a1), Ok (r2, a2) => same_lines tail r1 r2 /\ a1 = a2
  | Fail e1, Fail e2 => e1 = e2
  | Panic, Panic => True
  | OutOfFuel, OutOfFuel => True
  | _, _ => False
  end.

(** ** A command that [readTrack] does not know (C6) *)


(** ** The text of a sheet (C1) *)

(** The last byte of a string that is not empty is no delimiter. *)
Fixpoint last_solid (s : string) : bool :=
  match s with
  | EmptyString => false
  | String c EmptyString => negb (ContainsByte delims c)
  | String _ r => last_solid r
  end.

(** A text that is read back as the rest of a line: it has no newline and
    no delimiter at its end. *)
Definition raw_ok (s : string) : bool :=
  negb (ContainsByte s LF) && ((s =? EmptyString) || last_solid s).

(** A text that [ReadString] reads back from what [FormatString] writes for
    it: no newline; between quotes, no double quote and no backslash; without
    quotes, no quote as first byte. *)
Definition field_ok (s : string) : bool :=
  negb (ContainsByte s LF) &&
  (if ContainsAny s delims then all_bytes (unescaped DQUOTE) s else negb (isQuoted s)).

(** A frame count whose minutes have two digits. *)
Definition frame_ok (f : N) : bool := (f <? 450000)%N.

(** Flags made of the four bits that have a name. *)
Definition flags_ok (flags : Z) : bool :=
  (Z.land flags (Z.lor Dcp (Z.lor Four_ch (Z.lor Pre Scms))) =? flags)%Z.

(** What C1 asks of an index, a track, a file and a sheet besides what
    [Validate] checks. *)
Definition index_ok (i : TrackIndex) : bool := frame_ok (TrackIndex_Frame i).

Definition track_ok (t : Track) : bool :=
  flags_ok (Track_Flags t) &&
  field_ok (Track_Title t) && field_ok (Track_Performer t) &&
  field_ok (Track_SongWriter t) && field_ok (Track_Composer t) &&
  field_ok (Track_Arranger t) && field_ok (Track_Message t) &&
  frame_ok (Track_Pregap t) && frame_ok (Track_Postgap t) &&
  forallb index_ok (Track_Index t).

Definition file_ok (f : File) : bool :=
  nonempty (File_FileName f) && field_ok (File_FileName f) &&
  forallb track_ok (File_Tracks f).

Definition sheet_ok (c : Cuesheet) : bool :=
  forallb raw_ok (Cuesheet_Rem c) &&
  field_ok (Cuesheet_CdTextFile c) && field_ok (Cuesheet_Title c) &&
  field_ok (Cuesheet_Performer c) && field_ok (Cuesheet_SongWriter c) &&
  field_ok (Cuesheet_Composer c) && field_ok (Cuesheet_Arranger c) &&
  field_ok (Cuesheet_Message c) && field_ok (Cuesheet_Genre c) &&
  field_ok (Cuesheet_DiscId c) && field_ok (Cuesheet_UpcEan c) &&
  frame_ok (Cuesheet_Pregap c) && frame_ok (Cuesheet_Postgap c) &&
  forallb file_ok (Cuesheet_File c).

(** The loops with the iterations that their input needs. *)
Definition readTrack_all (b : Reader) (track : Track) : outcome (Reader * Track) :=
  readTrack (S (String.length b)) b track.

Definition readTracks_all (b : Reader) (tracks : list Track)
  : outcome (Reader * list Track) :=
  readTracks_loop (S (String.length b)) b tracks.

Definition ReadFile_all (b : Reader) (cuesheet : Cuesheet) : outcome Cuesheet :=
  ReadFile_loop (S (String.length b)) b cuesheet.

(** Spaces only. *)
Definition is_space (c : ascii) : bool := Ascii.eqb c SP.

(** A reader at the end of a scope: at the end of the input, or before a
    line that does not start with the indentation [p] of the scope. *)
Definition scope_end (p : string) (rest : Reader) : Prop :=
  rest = EmptyString \/
  exists l more, rest = l ++ eol ++ more /\ ContainsByte l LF = false /\
                 HasPrefix (l ++ eol) p = false.

(** *** Flags *)

(** The FLAGS line of a track, or nothing. *)
Definition flags_text (flags : Z) : string :=
  WriteFile_flags EmptyString flags.

(** *** The text that [WriteFile] writes *)

(** A line: indentation, command, space, the rest, newline. *)
Definition line (indent cmd args : string) : string :=
  indent ++ cmd ++ " " ++ args ++ eol.

(** A line that is written or not. *)
Definition opt (cond : bool) (s : string) : string :=
  if cond then s else EmptyString.

(** The strings of a list, one after the other. *)
Fixpoint flat (l : list string) : string :=
  match l with
  | [] => EmptyString
  | s :: r => s ++ flat r
  end.

(** The INDEX line of an index. *)
Definition index_text (i : TrackIndex) : string :=
  line "    " "INDEX"
    (FormatTrackNumber (TrackIndex_Number i) ++ " " ++ FormatFrame (TrackIndex_Frame i)).

(** The lines of a track after its TRACK line. *)
Definition details_text (t : Track) : string :=
  flags_text (Track_Flags t) ++
  opt (nonempty (Track_Isrc t)) (line "    " "ISRC" (Track_Isrc t)) ++
  opt (nonempty (Track_Title t)) (line "    " "TITLE" (FormatString (Track_Title t))) ++
  opt (nonempty (Track_Performer t))
    (line "    " "PERFORMER" (FormatString (Track_Performer t))) ++
  opt (nonempty (Track_SongWriter t))
    (line "    " "SONGWRITER" (FormatString (Track_SongWriter t))) ++
  opt (nonempty (Track_Composer t))
    (line "    " "COMPOSER" (FormatString (Track_Composer t))) ++
  opt (nonempty (Track_Arranger t))
    (line "    " "ARRANGER" (FormatString (Track_Arranger t))) ++
  opt (nonempty (Track_Message t))
    (line "    " "MESSAGE" (FormatString (Track_Message t))) ++
  opt (0 <? Track_Pregap t)%N (line "    " "PREGAP" (FormatFrame (Track_Pregap t))) ++
  opt (0 <? Track_Postgap t)%N (line "    " "POSTGAP" (FormatFrame (Track_Postgap t))) ++
  flat (map index_text (Track_Index t)).

(** The lines of a track, of a file and of a sheet. *)
Definition track_text (t : Track) : string :=
  line "  " "TRACK"
    (FormatTrackNumber (Track_TrackNumber t) ++ " " ++ Track_TrackDataType t) ++
  details_text t.

Definition file_text (f : File) : string :=
  line EmptyString "FILE" (FormatString (File_FileName f) ++ " " ++ File_FileType f) ++
  flat (map track_text (File_Tracks f)).

Definition sheet_text (c : Cuesheet) : string :=
  flat (map (fun rem => line EmptyString "REM" rem) (Cuesheet_Rem c)) ++
  opt (nonempty (Cuesheet_Catalog c)) (line EmptyString "CATALOG" (Cuesheet_Catalog c)) ++
  opt (nonempty (Cuesheet_CdTextFile c))
    (line EmptyString "CDTEXTFILE" (FormatString (Cuesheet_CdTextFile c))) ++
  opt (nonempty (Cuesheet_Title c))
    (line EmptyString "TITLE" (FormatString (Cuesheet_Title c))) ++
  opt (nonempty (Cuesheet_Performer c))
    (line EmptyString "PERFORMER" (FormatString (Cuesheet_Performer c))) ++
  opt (nonempty (Cuesheet_SongWriter c))
    (line EmptyString "SONGWRITER" (FormatString (Cuesheet_SongWriter c))) ++
  opt (nonempty (Cuesheet_Composer c))
    (line EmptyString "COMPOSER" (FormatString (Cuesheet_Composer c))) ++
  opt (nonempty (Cuesheet_Arranger c))
    (line EmptyString "ARRANGER" (FormatString (Cuesheet_Arranger c))) ++
  opt (nonempty (Cuesheet_Message c))
    (line EmptyString "MESSAGE" (FormatString (Cuesheet_Message c))) ++
  opt (nonempty (Cuesheet_Genre c))
    (line EmptyString "GENRE" (FormatString (Cuesheet_Genre c))) ++
  opt (nonempty (Cuesheet_DiscId c))
    (line EmptyString "DISC_ID" (FormatString (Cuesheet_DiscId c))) ++
  opt (nonempty (Cuesheet_UpcEan c))
    (line EmptyString "UPC_EAN" (FormatString (Cuesheet_UpcEan c))) ++
  opt (0 <? Cuesheet_Pregap c)%N
    (line EmptyString "PREGAP" (FormatFrame (Cuesheet_Pregap c))) ++
  opt (0 <? Cuesheet_Postgap c)%N
    (line EmptyString "POSTGAP" (FormatFrame (Cuesheet_Postgap c))) ++
  flat (map file_text (Cuesheet_File c)).

(** *** Reading the lines of a track *)

(** What [ReadFile] needs of an index, a track, a file and a sheet to read
    them back. *)
Definition index_rt (i : TrackIndex) : bool :=
  (TrackIndex_Number i <? 100)%N && frame_ok (TrackIndex_Frame i).

Definition track_rt (t : Track) : bool :=
  (Track_TrackNumber t <? 100)%N && bare (Track_TrackDataType t) &&
  flags_ok (Track_Flags t) && raw_ok (Track_Isrc t) &&
  field_ok (Track_Title t) && field_ok (Track_Performer t) &&
  field_ok (Track_SongWriter t) && field_ok (Track_Composer t) &&
  field_ok (Track_Arranger t) && field_ok (Track_Message t) &&
  frame_ok (Track_Pregap t) && frame_ok (Track_Postgap t) &&
  forallb index_rt (Track_Index t).

Definition file_rt (f : File) : bool :=
  nonempty (File_FileName f) && field_ok (File_FileName f) && bare (File_FileType f) &&
  forallb track_rt (File_Tracks f).

Definition sheet_rt (c : Cuesheet) : bool :=
  forallb raw_ok (Cuesheet_Rem c) && raw_ok (Cuesheet_Catalog c) &&
  field_ok (Cuesheet_CdTextFile c) && field_ok (Cuesheet_Title c) &&
  field_ok (Cuesheet_Performer c) && field_ok (Cuesheet_SongWriter c) &&
  field_ok (Cuesheet_Composer c) && field_ok (Cuesheet_Arranger c) &&
  field_ok (Cuesheet_Message c) && field_ok (Cuesheet_Genre c) &&
  field_ok (Cuesheet_DiscId c) && field_ok (Cuesheet_UpcEan c) &&
  frame_ok (Cuesheet_Pregap c) && frame_ok (Cuesheet_Postgap c) &&
  forallb file_rt (Cuesheet_File c).

(** The tokens of a FLAGS line. *)
Definition flags_args (flags : Z) : string :=
  substring 10 (String.length (flags_text flags) - 11) (flags_text flags).

(** *** Sheets that [Validate] accepts *)

(** The sheet of the round-trip test of the package. *)
Definition test_track_1 : Track :=
  Build_Track 1 "AUDIO" (Z.lor Dcp Pre) "USXX12345678" "First Track" "Artist One"
    "Writer One" EmptyString EmptyString EmptyString 150 0 [Build_TrackIndex 1 0].

Definition test_track_2 : Track :=
  Build_Track 2 "AUDIO" None_ "USXX87654321" "Second Track" "Artist Two"
    "Writer Two" EmptyString EmptyString EmptyString 0 0
    [Build_TrackIndex 0 15000; Build_TrackIndex 1 15150].

Definition test_sheet : Cuesheet :=
  Build_Cuesheet
    ["GENRE " ++ quoted "Rock"; "DATE " ++ quoted "2024"; "COMMENT " ++ quoted "Test"]
    "1234567890123" "album.cdt" "Complex Album Title" "Various Artists" "Album Composer"
    EmptyString EmptyString EmptyString EmptyString EmptyString EmptyString 0 0
    [Build_File "disc.wav" "WAVE" [test_track_1; test_track_2]].

(** Sheets that [Validate] accepts and that are not read back: the minimal
    sheet with another frame count for its index, with another name for its
    file, with flags for its track; and the minimal sheet with a title that
    has a space and a double quote, with a title that starts with a quote,
    with a comment that ends with a space. *)
Definition minimal_track : Track :=
  set_Track_Index [Build_TrackIndex 1 0]
    (set_Track_TrackDataType "AUDIO" (set_Track_TrackNumber 1 Track_zero)).

Definition with_index_frame (f : N) : Cuesheet :=
  set_Cuesheet_File
    [Build_File "a.wav" "WAVE" [set_Track_Index [Build_TrackIndex 1 f] minimal_track]]
    Cuesheet_zero.

Definition with_file_name (name type : string) : Cuesheet :=
  set_Cuesheet_File [Build_File name type [minimal_track]] Cuesheet_zero.

Definition with_flags (flags : Z) : Cuesheet :=
  set_Cuesheet_File
    [Build_File "a.wav" "WAVE" [set_Track_Flags flags minimal_track]] Cuesheet_zero.

Definition title_space_quote : string :=
  String "a" (String SP (String DQUOTE EmptyString)).

Definition title_leading_quote : string := String SQUOTE "tis".

(** ** Unknown commands at the sheet level *)

(** The commands of the [switch] of [ReadFile]. *)
Definition sheet_commands : list string :=
  ["REM"; "CATALOG"; "CDTEXTFILE"; "TITLE"; "PERFORMER"; "SONGWRITER"; "COMPOSER";
   "ARRANGER"; "MESSAGE"; "GENRE"; "DISC_ID"; "UPC_EAN"; "PREGAP"; "POSTGAP"; "FILE"].

(** The errors of [strconv] that the readers return: [ErrSyntax] for a
    frame that has not three components, and the [NumError] of [ParseUint]. *)
Definition strconv_error (e : error) : Prop :=
  e = ErrSyntax \/
  exists num, e = NumError fnParseUint num ErrSyntax \/ e = NumError fnParseUint num ErrRange.

(** A sheet with one more file. *)
Definition add_file (f : File) (c : Cuesheet) : Cuesheet :=
  set_Cuesheet_File (Cuesheet_File c ++ [f])%list c.

(** ** Flags and the helper methods *)

(** The four bits that have a name. *)
Definition flags_mask : Z := Z.lor Dcp (Z.lor Four_ch (Z.lor Pre Scms)).

(** The tokens of a FLAGS line, one space between two of them. *)
Fixpoint words (ws : list string) : string :=
  match ws with
  | [] => EmptyString
  | [w] => w
  | w :: r => w ++ " " ++ words r
  end.

(** The bit of a token of a FLAGS line. *)
Definition flag_bit (v : string) : Z :=
  if v =? "DCP" then Dcp
  else if v =? "4CH" then Four_ch
  else if v =? "PRE" then Pre
  else if v =? "SCMS" then Scms
  else 0%Z.

(** The tracks of a sheet, file after file. *)
Definition all_tracks (c : Cuesheet) : list Track :=
  flat_map File_Tracks (Cuesheet_File c).

(** The indexes of a sheet. *)
Definition all_indexes (c : Cuesheet) : list TrackIndex :=
  flat_map Track_Index (all_tracks c).

(** One for [true]. *)
Definition count_if (b : bool) : nat := if b then 1 else 0.

(** The rules of [Validate] that a track breaks. *)
Definition track_faults (t : Track) : nat :=
  count_if ((Track_TrackNumber t <? 1)%N || (99 <? Track_TrackNumber t)%N) +
  List.length (filter (fun i => (99 <? TrackIndex_Number i)%N) (Track_Index t)) +
  count_if (negb (existsb (fun i => (TrackIndex_Number i =? 1)%N) (Track_Index t))) +
  count_if (nonempty (Track_Isrc t) &&
            match ValidateISRC (Track_Isrc t) with Some _ => true | None => false end) +
  count_if (match ValidateTrackDataType (Track_TrackDataType t) with
            | Some _ => true | None => false end).

Definition file_faults (f : File) : nat :=
  count_if (match ValidateFileType (File_FileType f) with
            | Some _ => true | None => false end) +
  list_sum (map track_faults (File_Tracks f)).

Definition sheet_faults (c : Cuesheet) : nat :=
  count_if (nonempty (Cuesheet_Catalog c) &&
            match ValidateCatalog (Cuesheet_Catalog c) with
            | Some _ => true | None => false end) +
  count_if (List.length (Cuesheet_File c) =? 0)%nat +
  list_sum (map file_faults (Cuesheet_File c)).

(** The greatest frame of a list of indexes, 0 for the empty list. *)
Definition max_frame (ix : list TrackIndex) : N :=
  fold_right (fun i m => N.max (TrackIndex_Frame i) m) 0%N ix.

(** ** Comments *)

(** A string of ASCII bytes. *)
Definition is_ascii (s : string) : bool :=
  all_bytes (fun c => (N_of_ascii c <? 128)%N) s.

(** The key that [ParseRemComment] gives a type to. *)
Definition RemType_key (typ : RemType) : string :=
  match typ with
  | RemUnknown => EmptyString
  | RemDate => "DATE"
  | RemGenre => "GENRE"
  | RemDiscNumber => "DISCNUMBER"
  | RemComment => "COMMENT"
  | RemReplayGainAlbumGain => "REPLAYGAIN_ALBUM_GAIN"
  | RemReplayGainAlbumPeak => "REPLAYGAIN_ALBUM_PEAK"
  | RemReplayGainTrackGain => "REPLAYGAIN_TRACK_GAIN"
  | RemReplayGainTrackPeak => "REPLAYGAIN_TRACK_PEAK"
  end.

(** ** Line ends *)

(** A text with a carriage return before each newline. *)
Fixpoint crlf (s : string) : string :=
  match s with
  | EmptyString => EmptyString
  | String c r =>
      if Ascii.eqb c LF then String CR (String LF (crlf r)) else String c (crlf r)
  end.

(** The outcome of a loop, with another reader. *)
Definition on_reader {A : Type} (g : Reader -> Reader) (o : outcome (Reader * A))
  : outcome (Reader * A) :=
  match o with
  | Ok (r, a) => Ok (g r, a)
  | Fail e => Fail e
  | Panic => Panic
  | OutOfFuel => OutOfFuel
  end.

(** ** The values of a sheet that was read *)

(** Numbers that fit the types of the fields: [uint] numbers that were
    read on 32 bits, frames of 64 bits, flags made of the named bits. *)
Definition index_in_range (i : TrackIndex) : Prop :=
  (TrackIndex_Number i < 2 ^ 32)%N /\ (TrackIndex_Frame i < 2 ^ 64)%N.

Definition track_in_range (t : Track) : Prop :=
  (Track_TrackNumber t < 2 ^ 32)%N /\ flags_ok (Track_Flags t) = true /\
  (Track_Pregap t < 2 ^ 64)%N /\ (Track_Postgap t < 2 ^ 64)%N /\
  Forall index_in_range (Track_Index t).

Definition sheet_in_range (c : Cuesheet) : Prop :=
  (Cuesheet_Pregap c < 2 ^ 64)%N /\ (Cuesheet_Postgap c < 2 ^ 64)%N /\
  Forall track_in_range (all_tracks c).

(** ** The package [encoding] *)

(** The UTF-8 text of a byte string that was read as Latin-1: each byte is
    taken for the rune of the same value. *)
Fixpoint latin1_utf8 (b : string) : string :=
  match b with
  | EmptyString => EmptyString
  | String c r => encodeRune (byte_val c) ++ latin1_utf8 r
  end.

(** The runes that [CP1251ToByte] maps to a byte other than 0: the ASCII
    runes but 0, the two ranges of Cyrillic letters and the runes of the
    cases. *)
Definition CP1251_runes : list Z :=
  (map Z.of_nat (seq 1 127) ++ map Z.of_nat (seq 1040 64) ++ map fst CP1251ToByte_cases)%list.

(** No value twice in a list of bytes. *)
Fixpoint distinct (l : list ascii) : bool :=
  match l with
  | [] => true
  | a :: r => negb (existsb (Ascii.eqb a) r) && distinct r
  end.

(** The runes of characters of Windows-1251 that are no case of
    [CP1251ToByte]: U+040E, U+045E, U+0408, U+2116, U+0458, U+0405, U+0455. *)
Definition CP1251_missing : list Z :=
  [0x040E; 0x045E; 0x0408; 0x2116; 0x0458; 0x0405; 0x0455]%Z.

(** ** The reader with its buffer, and the bytes to read *)

(** The bytes of the buffer that are not read. *)
Definition unread (b : bufio_Reader) : string :=
  substring (Reader_r b) (Reader_w b - Reader_r b) (Reader_buf b).

(** A reader whose input has delivered every byte, with no pending error:
    what is left to read is in the buffer. *)
Definition settled (b : bufio_Reader) : Prop :=
  Reader_rd b = EmptyString /\ Reader_err b = None /\
  Reader_r b <= Reader_w b /\ Reader_w b <= String.length (Reader_buf b) /\
  0 < String.length (Reader_buf b).

(** A reader that has the bytes [v] to read, in its buffer or, for the new
    reader, in an input that the buffer holds whole. *)
Definition holds (b : bufio_Reader) (v : string) : Prop :=
  (settled b /\ unread b = v) \/
  (b = NewReader v /\ String.length v <= defaultBufSize).

(** The outcome of a loop on the reader with its buffer is that of the loop
    on the bytes to read. *)
Definition buffered_outcome {A : Type} (o : outcome (bufio_Reader * A))
    (o' : outcome (Reader * A)) : Prop :=
  match o, o' with
  | Ok (b, a), Ok (v, a') => settled b /\ unread b = v /\ a = a'
  | Fail e, Fail e' => e = e'
  | Panic, Panic => True
  | OutOfFuel, OutOfFuel => True
  | _, _ => False
  end.

(** What [ReadSlice] returns, on a reader whose input is all in its buffer,
    said on the bytes to read. *)
Definition slice_of (b : bufio_Reader) (frag : string) (e : option slice_error)
    (b' : bufio_Reader) : Prop :=
  match e with
  | None => read_until (unread b) LF = (frag, true, unread b') /\ Reader_assign b b' = b
  | Some (pending e') =>
      e' = EOF /\ read_until (unread b) LF = (frag, false, EmptyString) /\
      unread b' = EmptyString
  | Some ErrBufferFull =>
      read_until (unread b) LF = (frag, false, EmptyString) /\
      unread b' = EmptyString /\ frag <> EmptyString
  end.

(** A sheet of one file with [n] tracks. *)
Definition many_tracks (n : nat) : Cuesheet :=
  set_Cuesheet_File [Build_File "track-audio.wav" "WAVE" (repeat minimal_track n)]
    Cuesheet_zero.

(** * Properties *)

(** ** Strings *)

Lemma append_empty_r (s : string) : s ++ EmptyString = s.
Proof. induction s as [|c s IH]; simpl; [reflexivity | now rewrite IH]. Qed.

Lemma append_assoc (a b c : string) : (a ++ b) ++ c = a ++ (b ++ c).
Proof. induction a as [|x a IH]; simpl; [reflexivity | now rewrite IH]. Qed.

Lemma length_append (a b : string) :
  String.length (a ++ b) = String.length a + String.length b.
Proof. induction a as [|x a IH]; simpl; [reflexivity | now rewrite IH]. Qed.

Lemma substring_all (s : string) : substring 0 (String.length s) s = s.
Proof. induction s as [|c s IH]; simpl; [reflexivity | now rewrite IH]. Qed.

Lemma substring_zero (s : string) : substring 0 0 s = EmptyString.
Proof. destruct s; reflexivity. Qed.

Lemma substring_skip (a b : string) (n : nat) :
  substring (String.length a) n (a ++ b) = substring 0 n b.
Proof. induction a as [|x a IH]; simpl; [reflexivity | exact IH]. Qed.

Lemma substring_take (a b : string) :
  substring 0 (String.length a) (a ++ b) = a.
Proof.
  induction a as [|x a IH]; simpl; [apply substring_zero | now rewrite IH].
Qed.

Lemma all_bytes_append (p : ascii -> bool) (a b : string) :
  all_bytes p (a ++ b) = all_bytes p a && all_bytes p b.
Proof.
  induction a as [|x a IH]; simpl; [reflexivity | now rewrite IH, andb_assoc].
Qed.

Lemma all_bytes_impl (p q : ascii -> bool) (s : string) :
  (forall c, p c = true -> q c = true) -> all_bytes p s = true -> all_bytes q s = true.
Proof.
  intros Hpq. induction s as [|c s IH]; simpl; [reflexivity|].
  intros H. apply andb_true_iff in H as [Hc Hs].
  now rewrite (Hpq _ Hc), (IH Hs).
Qed.

(** A string without byte of [chars], stated on its bytes. *)
Lemma ContainsAny_all_bytes (s chars : string) :
  ContainsAny s chars = negb (all_bytes (fun c => negb (ContainsByte chars c)) s).
Proof.
  induction s as [|c s IH]; simpl; [reflexivity|].
  rewrite IH, negb_andb, negb_involutive. reflexivity.
Qed.

Lemma ContainsByte_all_bytes (s : string) (c : ascii) :
  ContainsByte s c = negb (all_bytes (fun a => negb (Ascii.eqb a c)) s).
Proof.
  induction s as [|a s IH]; simpl; [reflexivity|].
  rewrite IH, negb_andb, negb_involutive. reflexivity.
Qed.

(** ** Decimal digits *)

Ltac small_N d :=
  destruct d as [|d]; [| repeat (destruct d as [d|d|]; try (exfalso; lia)) ].

Lemma digit_val_char (d : N) : (d < 10)%N -> digit_val (digit_char d) = Some d.
Proof. intros H. small_N d; reflexivity. Qed.

Lemma isDigit_char (d : N) : (d < 10)%N -> isDigit (digit_char d) = true.
Proof. intros H. small_N d; reflexivity. Qed.

Lemma isDigit_digit_val (c : ascii) :
  isDigit c = true -> exists d, digit_val c = Some d /\ (d < 10)%N.
Proof.
  unfold isDigit, digit_val. intros H. rewrite H.
  apply andb_true_iff in H as [H1 H2].
  apply N.leb_le in H1, H2. eexists; split; [reflexivity | lia].
Qed.

(** A decimal digit is no delimiter, no quote, no backslash, no colon. *)
Lemma isDigit_plain (c : ascii) :
  isDigit c = true ->
  ContainsByte delims c = false /\ Ascii.eqb c SP = false /\
  Ascii.eqb c DQUOTE = false /\ Ascii.eqb c SQUOTE = false /\
  Ascii.eqb c COLON = false /\ Ascii.eqb c LF = false.
Proof.
  destruct c as [[] [] [] [] [] [] [] []]; intros H;
    solve [ discriminate H | repeat split ].
Qed.

Lemma decimal_value_ge (s : string) (n : N) : (n <= decimal_value n s)%N.
Proof.
  revert n. induction s as [|c s IH]; intros n; simpl; [lia|].
  destruct (digit_val c) as [d|]; [|lia].
  specialize (IH (n * 10 + d)%N). lia.
Qed.

(** [ParseUint] on a string of digits whose value fits: the value. *)
Lemma ParseUint_loop_digits (s0 s : string) (maxVal n : N) :
  all_bytes isDigit s = true ->
  (decimal_value n s <= maxVal)%N -> (maxVal < 2 ^ 32)%N ->
  ParseUint_loop s0 s maxVal n = Ok (decimal_value n s).
Proof.
  revert n. induction s as [|c s IH]; intros n Hd Hv Hm; [reflexivity|].
  cbn [all_bytes] in Hd. apply andb_true_iff in Hd as [Hc Hs].
  destruct (isDigit_digit_val c Hc) as [d [Hdv Hlt]].
  cbn [decimal_value] in Hv |- *. cbn [ParseUint_loop]. rewrite Hdv in *.
  pose proof (decimal_value_ge s (n * 10 + d)) as Hge.
  assert (Hn : (n * 10 + d < 2 ^ 32)%N) by lia.
  assert (H64 : (2 ^ 32 < 2 ^ 64)%N) by (vm_compute; reflexivity).
  assert (Hcut : ((2 ^ 64 - 1) / 10 + 1 <=? n)%N = false).
  { apply N.leb_gt.
    assert (Hc' : (2 ^ 32 <= (2 ^ 64 - 1) / 10 + 1)%N) by (vm_compute; discriminate).
    lia. }
  rewrite Hcut.
  rewrite (N.mod_small (n * 10)) by lia.
  rewrite (N.mod_small (n * 10 + d)) by lia.
  assert (H1 : (n * 10 + d <? n * 10)%N = false) by (apply N.ltb_ge; lia).
  assert (H2 : (maxVal <? n * 10 + d)%N = false) by (apply N.ltb_ge; lia).
  rewrite H1, H2. cbn [orb]. apply IH; assumption.
Qed.

Lemma ParseUint_digits (s : string) :
  s <> EmptyString -> all_bytes isDigit s = true ->
  (decimal_value 0 s < 2 ^ 32)%N ->
  ParseUint s 32 = Ok (decimal_value 0 s).
Proof.
  intros Hne Hd Hv. unfold ParseUint. destruct s as [|c s]; [congruence|].
  apply ParseUint_loop_digits; [assumption | | ].
  - change (2 ^ 32 - 1)%N with 4294967295%N. change (2 ^ 32)%N with 4294967296%N in Hv. lia.
  - vm_compute. reflexivity.
Qed.

(** ** Padding to two digits *)

Lemma formatBits_acc (fuel : nat) (u : N) (acc : string) :
  formatBits fuel u acc = formatBits fuel u EmptyString ++ acc.
Proof.
  revert u acc. induction fuel as [|f IH]; intros u acc; simpl; [reflexivity|].
  destruct (u <? 10)%N; [reflexivity|].
  rewrite (IH _ (String _ acc)), (IH _ (String _ EmptyString)), append_assoc.
  reflexivity.
Qed.

(** [leftPad] with ["0"] and [2] keeps the last two bytes of ["00" + s]. *)
Lemma leftPad_0_2 (s : string) :
  leftPad s "0" 2 = substring (String.length s) 2 ("00" ++ s).
Proof.
  assert (E : Repeat "0" (Z.to_nat (1 + Z.quot (2 - Z.of_nat (String.length "0"))
                                          (Z.of_nat (String.length "0")))) = "00")
    by reflexivity.
  unfold leftPad. rewrite E, length_append. cbn [String.length].
  replace (Z.to_nat (Z.of_nat (2 + String.length s) - 2)) with (String.length s) by lia.
  replace (2 + String.length s - String.length s) with 2 by lia.
  reflexivity.
Qed.

Lemma leftPad_last_two (x : string) (c1 c0 : ascii) :
  leftPad (x ++ String c1 (String c0 EmptyString)) "0" 2 =
  String c1 (String c0 EmptyString).
Proof.
  rewrite leftPad_0_2.
  change ("00" ++ x ++ String c1 (String c0 EmptyString))
    with (String "0" (String "0" (x ++ String c1 (String c0 EmptyString)))).
  rewrite length_append. cbn [String.length].
  replace (String.length x + 2) with (S (S (String.length x))) by lia.
  cbn [substring]. rewrite substring_skip. reflexivity.
Qed.

Lemma formatBits_S (fuel : nat) (u : N) (acc : string) :
  formatBits (S fuel) u acc =
  if (u <? 10)%N then String (digit_char u) acc
  else formatBits fuel (u / 10)%N (String (digit_char (u mod 10)%N) acc).
Proof. reflexivity. Qed.

Lemma leftPad_FormatUint (n : N) : leftPad (FormatUint n) "0" 2 = pad2 n.
Proof.
  unfold FormatUint, pad2.
  rewrite formatBits_S. destruct (n <? 10)%N eqn:H10.
  - apply N.ltb_lt in H10.
    rewrite N.div_small, N.mod_small by lia. rewrite N.mod_small by lia. reflexivity.
  - apply N.ltb_ge in H10. rewrite formatBits_S. destruct (n / 10 <? 10)%N eqn:H100.
    + apply N.ltb_lt in H100. rewrite (N.mod_small (n / 10)) by lia.
      apply (leftPad_last_two EmptyString).
    + rewrite formatBits_acc. apply leftPad_last_two.
Qed.

Lemma pad2_digits (n : N) : all_bytes isDigit (pad2 n) = true.
Proof.
  unfold pad2. cbn [all_bytes].
  rewrite !isDigit_char; [reflexivity | |]; apply N.mod_lt; lia.
Qed.

Lemma pad2_value (n : N) : decimal_value 0 (pad2 n) = (n mod 100)%N.
Proof.
  unfold pad2. cbn [decimal_value].
  rewrite !digit_val_char by (apply N.mod_lt; lia).
  cbn [decimal_value].
  assert (E : (n mod 100 = n mod 10 + 10 * ((n / 10) mod 10))%N)
    by (change 100%N with (10 * 10)%N; apply N.Div0.mod_mul_r).
  rewrite E. lia.
Qed.

Lemma ParseUint_pad2 (n : N) : ParseUint (pad2 n) 32 = Ok (n mod 100)%N.
Proof.
  rewrite <- pad2_value. apply ParseUint_digits.
  - discriminate.
  - apply pad2_digits.
  - rewrite pad2_value.
    assert (n mod 100 < 100)%N by (apply N.mod_lt; lia).
    assert (100 < 2 ^ 32)%N by (vm_compute; reflexivity). lia.
Qed.

Lemma FormatTrackNumber_pad2 (n : N) : FormatTrackNumber n = pad2 n.
Proof. apply leftPad_FormatUint. Qed.

Lemma FormatFrame_pad2 (frame : N) :
  FormatFrame frame =
  pad2 (frame / 75 / 60) ++ ":" ++ pad2 ((frame / 75) mod 60) ++ ":" ++ pad2 (frame mod 75).
Proof. unfold FormatFrame, framesPerSecond. rewrite !leftPad_FormatUint. reflexivity. Qed.

(** ** Fields without quotes *)

Lemma ContainsByte_delims_SP (c : ascii) :
  ContainsByte delims c = false -> Ascii.eqb c SP = false.
Proof.
  destruct c as [[] [] [] [] [] [] [] []]; intros H;
    solve [ discriminate H | reflexivity ].
Qed.

Lemma ContainsByte_delims_LF (c : ascii) :
  ContainsByte delims c = false -> Ascii.eqb c LF = false.
Proof.
  destruct c as [[] [] [] [] [] [] [] []]; intros H;
    solve [ discriminate H | reflexivity ].
Qed.

Lemma cut_space_none (s : string) :
  ContainsAny s delims = false -> cut_space s = None.
Proof.
  induction s as [|c s IH]; simpl; [reflexivity|].
  intros H. apply orb_false_iff in H as [Hc Hs].
  rewrite (ContainsByte_delims_SP c Hc), (IH Hs). reflexivity.
Qed.

Lemma cut_space_append (a r : string) :
  ContainsAny a delims = false -> cut_space (a ++ String SP r) = Some (a, r).
Proof.
  induction a as [|c a IH]; simpl; [reflexivity|].
  intros H. apply orb_false_iff in H as [Hc Hs].
  rewrite (ContainsByte_delims_SP c Hc), (IH Hs). reflexivity.
Qed.

Lemma bare_inv (s : string) :
  bare s = true ->
  exists c r, s = String c r /\ ContainsByte delims c = false /\
              ContainsAny s delims = false /\ isQuoted s = false.
Proof.
  unfold bare. intros H.
  apply andb_true_iff in H as [H Hq]. apply andb_true_iff in H as [Hn Hd].
  apply negb_true_iff in Hq, Hd.
  destruct s as [|c r]; [discriminate Hn|].
  exists c, r. repeat split; try assumption.
  simpl in Hd. now apply orb_false_iff in Hd as [Hc _].
Qed.

Lemma ReadString_bare (s : string) :
  bare s = true -> ReadString s = Ok (s, EmptyString).
Proof.
  intros H. destruct (bare_inv s H) as (c & r & -> & Hc & Hd & Hq).
  unfold ReadString. cbn [TrimLeft]. rewrite Hc, Hq, (cut_space_none _ Hd).
  reflexivity.
Qed.

Lemma ReadString_bare_space (s rest : string) :
  bare s = true -> ReadString (s ++ String SP rest) = Ok (s, rest).
Proof.
  intros H. destruct (bare_inv s H) as (c & r & -> & Hc & Hd & Hq).
  unfold ReadString. cbn [append TrimLeft]. rewrite Hc.
  change (String c (r ++ String SP rest)) with (String c r ++ String SP rest).
  rewrite (cut_space_append (String c r) rest Hd).
  simpl in Hq |- *. rewrite Hq. reflexivity.
Qed.

Lemma Split_none (s : string) (sep : ascii) :
  ContainsByte s sep = false -> Split s sep = [s].
Proof.
  induction s as [|c s IH]; simpl; [reflexivity|].
  intros H. apply orb_false_iff in H as [Hc Hs].
  rewrite Hc, (IH Hs). reflexivity.
Qed.

Lemma Split_append (a r : string) (sep : ascii) :
  ContainsByte a sep = false ->
  Split (a ++ String sep r) sep = a :: Split r sep.
Proof.
  induction a as [|c a IH]; simpl.
  - intros _. rewrite Ascii.eqb_refl. reflexivity.
  - intros H. apply orb_false_iff in H as [Hc Hs].
    rewrite Hc, (IH Hs). reflexivity.
Qed.

Lemma digits_no_colon (s : string) :
  all_bytes isDigit s = true -> ContainsByte s COLON = false.
Proof.
  intros H. rewrite ContainsByte_all_bytes. apply negb_false_iff.
  revert H. apply all_bytes_impl. intros c Hc.
  destruct (isDigit_plain c Hc) as (_ & _ & _ & _ & -> & _). reflexivity.
Qed.

Lemma digits_no_delims (s : string) :
  all_bytes isDigit s = true -> ContainsAny s delims = false.
Proof.
  intros H. rewrite ContainsAny_all_bytes. apply negb_false_iff.
  revert H. apply all_bytes_impl. intros c Hc.
  destruct (isDigit_plain c Hc) as (-> & _). reflexivity.
Qed.

Lemma pad2_bare (n : N) : bare (pad2 n) = true.
Proof.
  unfold bare. rewrite (digits_no_delims _ (pad2_digits n)).
  pose proof (pad2_digits n) as H. unfold pad2 in *. cbn [all_bytes] in H.
  apply andb_true_iff in H as [H _].
  destruct (isDigit_plain _ H) as (_ & _ & Hq & Hs & _).
  cbn [isQuoted nonempty String.length]. rewrite Hq, Hs. reflexivity.
Qed.

Lemma msf_bare (a b c : N) : bare (msf a b c) = true.
Proof.
  pose proof (pad2_bare a) as Ha.
  destruct (bare_inv _ Ha) as (x & r & E & Hx & _ & Hq).
  unfold bare, msf. apply andb_true_iff; split; [apply andb_true_iff; split|].
  - rewrite E. reflexivity.
  - apply negb_true_iff. rewrite ContainsAny_all_bytes. apply negb_false_iff.
    rewrite !all_bytes_append.
    pose proof (fun n => digits_no_delims _ (pad2_digits n)) as Hd.
    setoid_rewrite ContainsAny_all_bytes in Hd.
    rewrite (proj1 (negb_false_iff _) (Hd a)), (proj1 (negb_false_iff _) (Hd b)),
      (proj1 (negb_false_iff _) (Hd c)).
    reflexivity.
  - rewrite E in Hq |- *. exact (proj2 (negb_true_iff _) Hq).
Qed.

Lemma Split_msf (a b c : N) : Split (msf a b c) COLON = [pad2 a; pad2 b; pad2 c].
Proof.
  unfold msf.
  change (pad2 a ++ ":" ++ pad2 b ++ ":" ++ pad2 c)
    with (pad2 a ++ String COLON (pad2 b ++ String COLON (pad2 c))).
  rewrite Split_append by (apply digits_no_colon, pad2_digits).
  rewrite Split_append by (apply digits_no_colon, pad2_digits).
  rewrite Split_none by (apply digits_no_colon, pad2_digits).
  reflexivity.
Qed.

(** [ReadFrame] on the text of three fields: each field counts modulo 100. *)
Lemma ReadFrame_msf (a b c : N) :
  ReadFrame (msf a b c) =
  Ok ((((a mod 100) * 60 + b mod 100) * 75 + c mod 100)%N, EmptyString).
Proof.
  unfold ReadFrame. rewrite (ReadString_bare _ (msf_bare a b c)).
  cbn [bind]. rewrite Split_msf, !ParseUint_pad2. cbn [bind].
  unfold framesPerSecond.
  assert (a mod 100 < 100)%N by (apply N.mod_lt; lia).
  assert (b mod 100 < 100)%N by (apply N.mod_lt; lia).
  assert (c mod 100 < 100)%N by (apply N.mod_lt; lia).
  assert (E : (1000000 < 2 ^ 64)%N) by (vm_compute; reflexivity).
  rewrite N.mod_small by lia. reflexivity.
Qed.

Lemma FormatFrame_msf (frame : N) :
  FormatFrame frame = msf (frame / 75 / 60) ((frame / 75) mod 60) (frame mod 75).
Proof. apply FormatFrame_pad2. Qed.

Lemma frame_mod_450000 (f : N) :
  ((((f / 75 / 60) mod 100) * 60 + ((f / 75) mod 60) mod 100) * 75 + (f mod 75) mod 100
   = f mod 450000)%N.
Proof.
  assert (H1 : ((f / 75) mod 60 < 60)%N) by (apply N.mod_lt; lia).
  assert (H2 : (f mod 75 < 75)%N) by (apply N.mod_lt; lia).
  rewrite (N.mod_small ((f / 75) mod 60)), (N.mod_small (f mod 75)) by lia.
  pose proof (N.Div0.div_mod f 75) as E1.
  pose proof (N.Div0.div_mod (f / 75) 60) as E2.
  pose proof (N.Div0.div_mod (f / 75 / 60) 100) as E3.
  assert (H3 : ((f / 75 / 60) mod 100 < 100)%N) by (apply N.mod_lt; lia).
  apply (N.mod_unique f 450000 (f / 75 / 60 / 100)); lia.
Qed.

(** ** Frames as text (C3, C4, C5) *)

Lemma ReadFrame_FormatFrame_mod (f : N) :
  ReadFrame (FormatFrame f) = Ok ((f mod 450000)%N, EmptyString).
Proof. rewrite FormatFrame_msf, ReadFrame_msf, frame_mod_450000. reflexivity. Qed.

(** C3, as the code has it: reading the text that [FormatFrame] writes for
    the frame count [f] gives [f] modulo 450000, because the minutes are
    written with their last two digits only; it gives [f] again for every
    [f] below 450000 (one hundred minutes). *)
Theorem ReadFrame_FormatFrame (f : N) :
  ReadFrame (FormatFrame f) = Ok ((f mod 450000)%N, EmptyString) /\
  ((f < 450000)%N -> ReadFrame (FormatFrame f) = Ok (f, EmptyString)).
Proof.
  split; [apply ReadFrame_FormatFrame_mod|].
  intros Hf. rewrite ReadFrame_FormatFrame_mod, N.mod_small by exact Hf. reflexivity.
Qed.

Lemma ReadFrame_FormatFrame_witness :
  (4653 < 450000)%N /\ ReadFrame (FormatFrame 4653) = Ok (4653%N, EmptyString).
Proof.
  split; [reflexivity|].
  apply (proj2 (ReadFrame_FormatFrame 4653)). reflexivity.
Defined.

(** C3 as stated fails at one hundred minutes: the frame count 450000 is
    written as 00:00:00 and read back as 0. *)
Lemma ReadFrame_FormatFrame_450000 :
  FormatFrame 450000 = "00:00:00" /\
  ReadFrame (FormatFrame 450000) = Ok (0%N, EmptyString) /\
  ReadFrame (FormatFrame 450000) <> Ok (450000%N, EmptyString).
Proof.
  split; [reflexivity|]. split; [reflexivity|]. discriminate.
Qed.

Lemma FormatUint_small (n : N) :
  (n < 100)%N -> exists pad, all_bytes is_zero_char pad = true /\ pad2 n = pad ++ FormatUint n.
Proof.
  intros Hn. unfold FormatUint, pad2. rewrite formatBits_S.
  destruct (n <? 10)%N eqn:H10.
  - apply N.ltb_lt in H10. exists "0". split; [reflexivity|].
    rewrite N.div_small, N.mod_small by lia. rewrite N.mod_small by lia. reflexivity.
  - apply N.ltb_ge in H10. exists EmptyString. split; [reflexivity|].
    rewrite formatBits_S.
    assert (H : (n / 10 < 10)%N) by (apply N.Div0.div_lt_upper_bound; lia).
    rewrite (proj2 (N.ltb_lt _ _) H), N.mod_small by exact H. reflexivity.
Qed.

(** C4, as the code has it: [FormatTrackNumber] returns two bytes, the
    last two decimal digits of the number, and [FormatFrame] writes the
    minutes, the seconds and the frames in the same way.  A number below 100
    is written in full after zeros; from 100 on its leading digits are cut,
    so [FormatTrackNumber 100] is 00. *)
Theorem FormatTrackNumber_last_two_digits (n : N) :
  FormatTrackNumber n =
    String (digit_char ((n / 10) mod 10)) (String (digit_char (n mod 10)) EmptyString) /\
  String.length (FormatTrackNumber n) = 2 /\
  FormatFrame n =
    FormatTrackNumber (n / 75 / 60) ++ ":" ++ FormatTrackNumber ((n / 75) mod 60) ++ ":" ++
    FormatTrackNumber (n mod 75) /\
  ((n < 100)%N ->
   exists pad, all_bytes is_zero_char pad = true /\
               FormatTrackNumber n = pad ++ FormatUint n) /\
  FormatTrackNumber 100 = "00".
Proof.
  rewrite !FormatTrackNumber_pad2, FormatFrame_pad2.
  repeat split.
  intros Hn. apply FormatUint_small, Hn.
Qed.

Lemma FormatTrackNumber_last_two_digits_witness :
  (7 < 100)%N /\
  exists pad, all_bytes is_zero_char pad = true /\ FormatTrackNumber 7 = pad ++ FormatUint 7.
Proof.
  split; [reflexivity|].
  apply (proj1 (proj2 (proj2 (proj2 (FormatTrackNumber_last_two_digits 7))))).
  reflexivity.
Defined.

(** C4 as stated fails at 100: the three digits of 100 are not in what
    [FormatTrackNumber] returns, and the minutes of [FormatFrame] lose their
    first digit in the same way. *)
Lemma FormatTrackNumber_100_truncated :
  FormatUint 100 = "100" /\ FormatTrackNumber 100 = "00" /\
  FormatFrame 450000 = "00:00:00" /\
  ~ (exists pad, FormatTrackNumber 100 = pad ++ FormatUint 100).
Proof.
  repeat split. intros [pad H].
  apply (f_equal String.length) in H. rewrite length_append in H.
  change (String.length (FormatTrackNumber 100)) with 2 in H.
  change (String.length (FormatUint 100)) with 3 in H. lia.
Qed.

(** [ParseUint] returns a number or an error. *)
Lemma ParseUint_loop_total (s0 s : string) (maxVal n : N) :
  (exists m, ParseUint_loop s0 s maxVal n = Ok m) \/
  (exists e, ParseUint_loop s0 s maxVal n = Fail e).
Proof.
  revert n. induction s as [|c s IH]; intros n; cbn [ParseUint_loop].
  - left. eexists. reflexivity.
  - destruct (digit_val c); [|right; eexists; reflexivity].
    destruct (_ <=? n)%N; [right; eexists; reflexivity|].
    destruct (_ || _); [right; eexists; reflexivity | apply IH].
Qed.

Lemma ParseUint_total (s : string) (bitSize : N) :
  (exists m, ParseUint s bitSize = Ok m) \/ (exists e, ParseUint s bitSize = Fail e).
Proof.
  unfold ParseUint. destruct s; [right; eexists; reflexivity | apply ParseUint_loop_total].
Qed.

Lemma ParseUint_loop_bound (s0 s : string) (maxVal n m : N) :
  ParseUint_loop s0 s maxVal n = Ok m -> (n <= maxVal)%N -> (m <= maxVal)%N.
Proof.
  revert n. induction s as [|c s IH]; intros n; cbn [ParseUint_loop].
  - intros E Hn. injection E as <-. exact Hn.
  - destruct (digit_val c) as [d|]; [|discriminate].
    destruct (_ <=? n)%N; [discriminate|].
    destruct (_ || _) eqn:Hc; [discriminate|].
    intros E _. apply (IH _ E).
    apply orb_false_iff in Hc as [_ Hc]. apply N.ltb_ge in Hc. exact Hc.
Qed.

Lemma ParseUint_bound (s : string) (m : N) :
  ParseUint s 32 = Ok m -> (m < 2 ^ 32)%N.
Proof.
  unfold ParseUint. destruct s as [|c s]; [discriminate|].
  intros E. apply ParseUint_loop_bound in E.
  - change (2 ^ 32 - 1)%N with 4294967295%N in E.
    change (2 ^ 32)%N with 4294967296%N. lia.
  - lia.
Qed.

(** [ParseUint] of 32 bits, by cases on the string: the decimal value of the
    leading digits decides between the range error and the rest. *)
Lemma ParseUint_loop_cases (s0 s : string) (n : N) :
  (n < 2 ^ 32)%N ->
  ParseUint_loop s0 s (2 ^ 32 - 1) n =
  if (2 ^ 32 <=? decimal_value n s)%N then Fail (NumError fnParseUint s0 ErrRange)
  else if all_bytes isDigit s then Ok (decimal_value n s)
  else Fail (NumError fnParseUint s0 ErrSyntax).
Proof.
  change (2 ^ 32 - 1)%N with 4294967295%N. change (2 ^ 32)%N with 4294967296%N.
  revert n. induction s as [|c s IH]; intros n Hn;
    cbn [ParseUint_loop decimal_value all_bytes].
  - destruct (N.leb_spec 4294967296 n) as [H|H]; [lia | reflexivity].
  - assert (Hc : match digit_val c with
                 | Some d => isDigit c = true /\ (d < 10)%N
                 | None => isDigit c = false
                 end).
    { unfold digit_val, isDigit.
      destruct ((48 <=? N_of_ascii c)%N && (N_of_ascii c <=? 57)%N) eqn:Hc;
        [|reflexivity].
      apply andb_true_iff in Hc as [H1 H2]. apply N.leb_le in H1, H2.
      split; [reflexivity | lia]. }
    destruct (digit_val c) as [d|].
    + destruct Hc as [Hc Hd]. rewrite Hc. cbn [andb].
      assert (Hcut : ((2 ^ 64 - 1) / 10 + 1 <=? n)%N = false).
      { apply N.leb_gt.
        assert (Hc' : (4294967296 <= (2 ^ 64 - 1) / 10 + 1)%N) by (vm_compute; discriminate).
        lia. }
      rewrite Hcut.
      assert (H64 : (2 ^ 64 = 18446744073709551616)%N) by reflexivity.
      rewrite (N.mod_small (n * 10)) by lia.
      rewrite (N.mod_small (n * 10 + d)) by lia.
      assert (E1 : (n * 10 + d <? n * 10)%N = false) by (apply N.ltb_ge; lia).
      rewrite E1. cbn [orb].
      pose proof (decimal_value_ge s (n * 10 + d)) as Hge.
      destruct (N.ltb_spec 4294967295 (n * 10 + d)) as [H|H].
      * destruct (N.leb_spec 4294967296 (decimal_value (n * 10 + d) s)) as [H'|H'];
          [reflexivity | lia].
      * apply IH. lia.
    + rewrite Hc. cbn [andb].
      destruct (N.leb_spec 4294967296 n) as [H|H]; [lia | reflexivity].
Qed.

Lemma ParseUint_cases (v : string) :
  ParseUint v 32 =
  if negb (nonempty v) then Fail (NumError fnParseUint v ErrSyntax)
  else if (2 ^ 32 <=? decimal_value 0 v)%N then Fail (NumError fnParseUint v ErrRange)
  else if all_bytes isDigit v then Ok (decimal_value 0 v)
  else Fail (NumError fnParseUint v ErrSyntax).
Proof.
  unfold ParseUint. destruct v as [|c v]; [reflexivity|].
  change (negb (nonempty (String c v))) with false. cbv iota.
  apply ParseUint_loop_cases. reflexivity.
Qed.

(** C5, as the code has it: [ReadFrame] splits the field that
    [ReadString] extracts on the colon.  When the field has not three
    components the error is [ErrSyntax].  When it has three and one of them is
    no unsigned decimal number of 32 bits, the error is the [NumError] of
    [ParseUint] for the first such component: it holds [ErrRange] when the
    component is not empty and the value of its leading digits is above
    [2^32 - 1], and [ErrSyntax] when the component is empty or has a byte that
    is no digit after digits whose value fits.  A component is such a number
    when it is not empty, made of digits, and of a value below [2^32].
    Otherwise [ReadFrame] returns the frame count
    [(minutes*60 + seconds)*75 + frames]; the field 01:02:03 is frame 4653,
    and the field 4294967296:00:00 gives the range error. *)
Theorem ReadFrame_spec (s field rest : string) :
  ReadString s = Ok (field, rest) ->
  (List.length (Split field COLON) <> 3 -> ReadFrame s = Fail ErrSyntax) /\
  (List.length (Split field COLON) = 3 ->
   (exists v, In v (Split field COLON) /\ is_error (ParseUint v 32) = true) ->
   exists pre v post,
     Split field COLON = (pre ++ v :: post)%list /\
     (forall u, In u pre -> is_error (ParseUint u 32) = false) /\
     is_error (ParseUint v 32) = true /\
     ReadFrame s =
     Fail (NumError fnParseUint v
             (if nonempty v && (2 ^ 32 <=? decimal_value 0 v)%N
              then ErrRange else ErrSyntax))) /\
  (forall mm ss ff,
     map (fun v => ParseUint v 32) (Split field COLON) = [Ok mm; Ok ss; Ok ff] ->
     ReadFrame s = Ok (((mm * 60 + ss) * 75 + ff)%N, rest)) /\
  (is_error (ReadFrame s) = true ->
   List.length (Split field COLON) <> 3 \/
   exists v, In v (Split field COLON) /\ is_error (ParseUint v 32) = true) /\
  (forall v,
     is_error (ParseUint v 32) =
     negb (nonempty v && all_bytes isDigit v && (decimal_value 0 v <? 2 ^ 32)%N) /\
     (is_error (ParseUint v 32) = false -> ParseUint v 32 = Ok (decimal_value 0 v))) /\
  ReadFrame "01:02:03" = Ok (4653%N, EmptyString) /\
  ReadFrame "4294967296:00:00" = Fail (NumError fnParseUint "4294967296" ErrRange).
Proof.
  assert (Hfail : forall v, is_error (ParseUint v 32) = true ->
            ParseUint v 32 =
            Fail (NumError fnParseUint v
                    (if nonempty v && (2 ^ 32 <=? decimal_value 0 v)%N
                     then ErrRange else ErrSyntax))).
  { intros v. rewrite ParseUint_cases.
    destruct (nonempty v); cbn [negb andb]; [|reflexivity].
    destruct (2 ^ 32 <=? decimal_value 0 v)%N; [reflexivity|].
    destruct (all_bytes isDigit v); [discriminate | reflexivity]. }
  assert (Hchar : forall v,
     is_error (ParseUint v 32) =
     negb (nonempty v && all_bytes isDigit v && (decimal_value 0 v <? 2 ^ 32)%N) /\
     (is_error (ParseUint v 32) = false -> ParseUint v 32 = Ok (decimal_value 0 v))).
  { intros v. rewrite ParseUint_cases.
    destruct (nonempty v); cbn [negb andb]; [|split; [reflexivity | discriminate]].
    rewrite N.leb_antisym.
    destruct (decimal_value 0 v <? 2 ^ 32)%N; cbn [negb];
      [|rewrite andb_false_r; split; [reflexivity | discriminate]].
    destruct (all_bytes isDigit v); split; try reflexivity; discriminate. }
  intros HR. unfold ReadFrame. rewrite HR. cbn [bind].
  destruct (Split field COLON) as [|v0 [|v1 [|v2 [|v3 l]]]] eqn:ES; cbn [List.length].
  1-3,5: repeat split; try reflexivity; try lia; try discriminate;
         try apply Hchar; intros; left; lia.
  split; [intros H; exfalso; apply H; reflexivity|].
  split; [|split; [|split; [|split; [exact Hchar | split; reflexivity]]]].
  - intros _ [v [Hin Hv]].
    destruct (is_error (ParseUint v0 32)) eqn:B0.
    { exists [], v0, [v1; v2]. split; [reflexivity|].
      split; [intros u []|]. split; [exact B0|].
      rewrite (Hfail v0 B0). reflexivity. }
    destruct (is_error (ParseUint v1 32)) eqn:B1.
    { exists [v0], v1, [v2]. split; [reflexivity|].
      split; [intros u [<-|[]]; exact B0|]. split; [exact B1|].
      rewrite (proj2 (Hchar v0) B0). cbn [bind].
      rewrite (Hfail v1 B1). reflexivity. }
    destruct (is_error (ParseUint v2 32)) eqn:B2.
    { exists [v0; v1], v2, []. split; [reflexivity|].
      split; [intros u [<-|[<-|[]]]; assumption|]. split; [exact B2|].
      rewrite (proj2 (Hchar v0) B0), (proj2 (Hchar v1) B1). cbn [bind].
      rewrite (Hfail v2 B2). reflexivity. }
    exfalso. destruct Hin as [<-|[<-|[<-|[]]]]; congruence.
  - intros mm ss ff E. cbn [map] in E. injection E as E0 E1 E2.
    rewrite E0, E1, E2. cbn [bind].
    apply ParseUint_bound in E0, E1, E2. unfold framesPerSecond.
    change (2 ^ 32)%N with 4294967296%N in *.
    rewrite N.mod_small; [reflexivity|].
    change (2 ^ 64)%N with 18446744073709551616%N. nia.
  - intros Herr. right.
    destruct (ParseUint_total v0 32) as [[m0 E0]|[e0 E0]].
    2:{ exists v0. split; [left; reflexivity | rewrite E0; reflexivity]. }
    destruct (ParseUint_total v1 32) as [[m1 E1]|[e1 E1]].
    2:{ exists v1. split; [right; left; reflexivity | rewrite E1; reflexivity]. }
    destruct (ParseUint_total v2 32) as [[m2 E2]|[e2 E2]].
    2:{ exists v2. split; [right; right; left; reflexivity | rewrite E2; reflexivity]. }
    rewrite E0, E1, E2 in Herr. discriminate Herr.
Qed.

Lemma ReadFrame_spec_witness :
  ReadString "00:02:15" = Ok ("00:02:15", EmptyString) /\
  ReadFrame "00:02:15" = Ok (165%N, EmptyString).
Proof.
  split; [reflexivity|].
  apply (proj1 (proj2 (proj2
           (ReadFrame_spec "00:02:15" "00:02:15" EmptyString eq_refl)))
           0%N 2%N 15%N).
  reflexivity.
Defined.

(** C5 as stated fails on a component whose value leaves 32 bits: each of
    the three components of 4294967296:00:00 is a string of decimal digits,
    and the error that [ReadFrame] returns is the range error of [ParseUint],
    which is no syntax error and wraps none. *)
Lemma ReadFrame_range_error :
  ReadString "4294967296:00:00" = Ok ("4294967296:00:00", EmptyString) /\
  Split "4294967296:00:00" COLON = ["4294967296"; "00"; "00"] /\
  forallb (all_bytes isDigit) ["4294967296"; "00"; "00"] = true /\
  ReadFrame "4294967296:00:00" = Fail (NumError fnParseUint "4294967296" ErrRange) /\
  ReadFrame "4294967296:00:00" <> Fail ErrSyntax /\
  (forall fn num, ReadFrame "4294967296:00:00" <> Fail (NumError fn num ErrSyntax)).
Proof.
  repeat split; try reflexivity; intros; discriminate.
Qed.

(** ** Quoting (C2, C9) *)

Lemma quote_body_clean (s : string) (q : ascii) :
  all_bytes (unescaped q) s = true -> quote_body s q = s.
Proof.
  induction s as [|c s IH]; simpl; [reflexivity|].
  unfold unescaped at 1. intros H.
  apply andb_true_iff in H as [Hc Hs]. apply andb_true_iff in Hc as [H1 H2].
  apply negb_true_iff in H1, H2. rewrite H1, H2, (IH Hs). reflexivity.
Qed.

Lemma quote_body_length (s : string) (q : ascii) :
  String.length s <= String.length (quote_body s q).
Proof.
  induction s as [|c s IH]; simpl; [lia|].
  destruct (_ || _); simpl; lia.
Qed.

Lemma quote_body_fixed (s : string) (q : ascii) :
  quote_body s q = s -> all_bytes (unescaped q) s = true.
Proof.
  induction s as [|c s IH]; simpl; [reflexivity|].
  unfold unescaped at 1.
  destruct (Ascii.eqb c q) eqn:H1; [|destruct (Ascii.eqb c BACKSLASH) eqn:H2]; simpl.
  - intros E. pose proof (quote_body_length s q) as L.
    apply (f_equal String.length) in E. simpl in E. lia.
  - intros E. pose proof (quote_body_length s q) as L.
    apply (f_equal String.length) in E. simpl in E. lia.
  - intros E. injection E as E. exact (IH E).
Qed.

(** The loop of [unquote] walks over what [quote] wrote and stops at the
    closing quote. *)
Lemma unquote_end_quote_body (s rest : string) (q : ascii) (i : nat) :
  Ascii.eqb q BACKSLASH = false ->
  unquote_end q (quote_body s q ++ String q rest) i = i + String.length (quote_body s q).
Proof.
  intros Hq. revert i. induction s as [|c s IH]; intros i.
  - simpl. rewrite Ascii.eqb_refl. lia.
  - cbn [quote_body].
    destruct (Ascii.eqb c q || Ascii.eqb c BACKSLASH) eqn:Hc.
    + cbn [append unquote_end String.length].
      assert (Hb : Ascii.eqb BACKSLASH q = false) by (rewrite Ascii.eqb_sym; exact Hq).
      rewrite Hb, Ascii.eqb_refl, IH. lia.
    + apply orb_false_iff in Hc as [H1 H2].
      cbn [append unquote_end String.length]. rewrite H1, H2, IH. lia.
Qed.

Lemma slice_middle (c : ascii) (body rest : string) :
  slice (String c (body ++ rest)) 1 (1 + String.length body) = Ok body.
Proof.
  unfold slice. cbn [String.length]. rewrite length_append.
  replace ((1 <=? 1 + String.length body)%nat) with true
    by (symmetry; apply Nat.leb_le; lia).
  replace ((1 + String.length body <=? S (String.length body + String.length rest))%nat)
    with true by (symmetry; apply Nat.leb_le; lia).
  cbn [andb]. replace (1 + String.length body - 1) with (String.length body) by lia.
  cbn [substring]. rewrite substring_take. reflexivity.
Qed.

Lemma unquote_quoted (s rest : string) (q : ascii) :
  Ascii.eqb q BACKSLASH = false ->
  unquote (String q (quote_body s q ++ String q rest)) = Ok (quote_body s q).
Proof.
  intros Hq. unfold unquote. rewrite (unquote_end_quote_body s rest q 1 Hq).
  apply slice_middle.
Qed.

Lemma slice_from_skip (a rest : string) :
  slice_from (a ++ rest) (String.length a) = Ok rest.
Proof.
  unfold slice_from, slice. rewrite length_append.
  replace ((String.length a <=? String.length a + String.length rest)%nat) with true
    by (symmetry; apply Nat.leb_le; lia).
  rewrite Nat.leb_refl. cbn [andb].
  replace (String.length a + String.length rest - String.length a)
    with (String.length rest) by lia.
  rewrite substring_skip, substring_all. reflexivity.
Qed.

(** [ReadString] on a quoted field whose text needs no escape. *)
Lemma ReadString_quoted (s rest : string) :
  all_bytes (unescaped DQUOTE) s = true ->
  ReadString (quote s DQUOTE ++ rest) = Ok (s, rest).
Proof.
  intros Hs. unfold ReadString, quote. rewrite (quote_body_clean _ _ Hs).
  cbn [append TrimLeft]. change (ContainsByte delims DQUOTE) with false. cbn iota.
  cbn [isQuoted]. rewrite Ascii.eqb_refl. cbn [orb].
  rewrite append_assoc. cbn [append].
  pose proof (unquote_quoted s rest DQUOTE eq_refl) as U.
  rewrite (quote_body_clean _ _ Hs) in U. rewrite U. cbn [bind].
  replace (String DQUOTE (s ++ String DQUOTE rest))
    with ((String DQUOTE (s ++ String DQUOTE EmptyString)) ++ rest)
    by (cbn [append]; rewrite append_assoc; reflexivity).
  replace (String.length s + 2)
    with (String.length (String DQUOTE (s ++ String DQUOTE EmptyString)))
    by (cbn [String.length]; rewrite length_append; cbn [String.length]; lia).
  rewrite slice_from_skip. reflexivity.
Qed.

(** C2, as the code has it: [unquote] returns the text between the quotes
    with its backslashes, so [unquote (quote s)] is [s] with a backslash before
    each double quote and each backslash; it is [s] exactly when [s] has
    neither, with or without delimiter.  [FormatString] leaves a string
    without delimiter unchanged. *)
Theorem unquote_quote (s : string) :
  unquote (quote s DQUOTE) = Ok (quote_body s DQUOTE) /\
  (unquote (quote s DQUOTE) = Ok s <-> all_bytes (unescaped DQUOTE) s = true) /\
  (ContainsAny s delims = false -> FormatString s = s).
Proof.
  assert (U : unquote (quote s DQUOTE) = Ok (quote_body s DQUOTE))
    by (apply (unquote_quoted s EmptyString DQUOTE); reflexivity).
  split; [exact U|]. split; [split|].
  - rewrite U. intros E. injection E as E. apply quote_body_fixed with (1 := E).
  - intros H. rewrite U, (quote_body_clean _ _ H). reflexivity.
  - intros H. unfold FormatString. rewrite H. reflexivity.
Qed.

Lemma unquote_quote_witness :
  ContainsAny "a.wav" delims = false /\ FormatString "a.wav" = "a.wav" /\
  all_bytes (unescaped DQUOTE) "Track One" = true /\
  unquote (quote "Track One" DQUOTE) = Ok "Track One".
Proof.
  split; [reflexivity|].
  split; [apply (proj2 (proj2 (unquote_quote "a.wav"))); reflexivity|].
  split; [reflexivity|].
  apply (proj2 (proj1 (proj2 (unquote_quote "Track One")))). reflexivity.
Defined.

(** C2 as stated fails on a string with a space and a double quote: the
    backslash that [quote] adds stays in what [unquote] returns. *)
Lemma unquote_quote_keeps_backslash :
  ContainsAny (String "a" (String SP (String DQUOTE EmptyString))) delims = true /\
  unquote (quote (String "a" (String SP (String DQUOTE EmptyString))) DQUOTE) =
    Ok (String "a" (String SP (String BACKSLASH (String DQUOTE EmptyString)))) /\
  unquote (quote (String "a" (String SP (String DQUOTE EmptyString))) DQUOTE) <>
    Ok (String "a" (String SP (String DQUOTE EmptyString))).
Proof.
  split; [reflexivity|]. split; [reflexivity|]. discriminate.
Qed.

Lemma unquote_end_unclosed (q : ascii) (body : string) (i : nat) :
  ContainsByte body q = false -> ContainsByte body BACKSLASH = false ->
  unquote_end q body i = i + String.length body.
Proof.
  revert i. induction body as [|c body IH]; intros i; simpl; [lia|].
  intros H1 H2. apply orb_false_iff in H1 as [H1 H1'], H2 as [H2 H2'].
  rewrite H1, H2, IH by assumption. lia.
Qed.

(** C9: [ReadString] panics on a field that opens with a quote and has no
    closing quote: [unquote] returns the text after the quote, and the slice
    that skips the text and two quotes starts past the end of the string.  So
    [ReadFile] panics on a line such as TITLE followed by a quote and abc. *)
Theorem ReadString_unclosed_quote_panics (q : ascii) (body : string) :
  isQuoted (String q body) = true ->
  ContainsByte body q = false -> ContainsByte body BACKSLASH = false ->
  unquote (String q body) = Ok body /\
  ReadString (String q body) = Panic /\
  ReadFile ("TITLE " ++ String DQUOTE "abc" ++ eol) = Panic.
Proof.
  intros Hq H1 H2.
  assert (U : unquote (String q body) = Ok body).
  { unfold unquote. rewrite (unquote_end_unclosed q body 1 H1 H2).
    rewrite <- (append_empty_r body) at 1. apply slice_middle. }
  split; [exact U|]. split; [|reflexivity].
  unfold ReadString.
  assert (Hd : ContainsByte delims q = false).
  { cbn [isQuoted] in Hq. apply orb_true_iff in Hq as [Hq|Hq];
      apply Ascii.eqb_eq in Hq; subst q; reflexivity. }
  cbn [TrimLeft]. rewrite Hd, Hq, U. cbn [bind].
  unfold slice_from, slice. cbn [String.length].
  replace ((String.length body + 2 <=? S (String.length body))%nat) with false
    by (symmetry; apply Nat.leb_gt; lia).
  reflexivity.
Qed.

Lemma ReadString_unclosed_quote_panics_witness :
  isQuoted (String DQUOTE "abc") = true /\ ReadString (String DQUOTE "abc") = Panic.
Proof.
  split; [reflexivity|].
  apply (proj1 (proj2 (ReadString_unclosed_quote_panics DQUOTE "abc"
                         eq_refl eq_refl eq_refl))).
Defined.

(** ** Lines *)

Lemma read_until_none (b : string) (d : ascii) :
  ContainsByte b d = false -> read_until b d = (b, false, EmptyString).
Proof.
  induction b as [|c b IH]; simpl; [reflexivity|].
  intros H. apply orb_false_iff in H as [Hc Hb]. rewrite Hc, (IH Hb). reflexivity.
Qed.

Lemma read_until_line (l rest : string) (d : ascii) :
  ContainsByte l d = false ->
  read_until (l ++ String d rest) d = (l ++ String d EmptyString, true, rest).
Proof.
  induction l as [|c l IH]; simpl.
  - intros _. rewrite Ascii.eqb_refl. reflexivity.
  - intros H. apply orb_false_iff in H as [Hc Hl]. rewrite Hc, (IH Hl). reflexivity.
Qed.

Lemma read_until_found (b l r : string) (d : ascii) :
  read_until b d = (l, true, r) ->
  exists l', l = l' ++ String d EmptyString /\ b = l' ++ String d r /\
             ContainsByte l' d = false.
Proof.
  revert l. induction b as [|c b IH]; intros l; simpl; [discriminate|].
  destruct (Ascii.eqb c d) eqn:Hc.
  - intros E. injection E as <- <-. apply Ascii.eqb_eq in Hc. subst c.
    exists EmptyString. repeat split.
  - destruct (read_until b d) as [[l0 f0] r0]. intros E. injection E as <- -> ->.
    destruct (IH l0 eq_refl) as (l' & -> & -> & Hl').
    exists (String c l'). simpl. rewrite Hc, Hl'. repeat split.
Qed.

Lemma read_until_not_found (b l r : string) (d : ascii) :
  read_until b d = (l, false, r) -> ContainsByte b d = false /\ r = EmptyString.
Proof.
  revert l. induction b as [|c b IH]; intros l; simpl.
  - intros E. injection E as <- <-. split; reflexivity.
  - destruct (Ascii.eqb c d) eqn:Hc; [discriminate|].
    destruct (read_until b d) as [[l0 f0] r0]. intros E. injection E as <- -> ->.
    destruct (IH l0 eq_refl) as [H ->]. rewrite H. split; reflexivity.
Qed.

Lemma read_until_shorter (b l r : string) (d : ascii) :
  read_until b d = (l, true, r) -> String.length r < String.length b.
Proof.
  intros E. destruct (read_until_found _ _ _ _ E) as (l' & _ & -> & _).
  rewrite length_append. simpl. lia.
Qed.

(** ** Enough iterations

    The result of a loop does not depend on the number of iterations it is
    given, as soon as that number is above the number of bytes to read; and
    no reader returns more bytes than it received. *)

Lemma substring_length (s : string) (n m : nat) :
  n + m <= String.length s -> String.length (substring n m s) = m.
Proof.
  revert n m. induction s as [|c s IH]; intros n m H; simpl in H.
  - destruct n, m; simpl; lia.
  - destruct n as [|n]; [destruct m as [|m]|]; simpl; [reflexivity | | ].
    + rewrite IH by lia. reflexivity.
    + apply IH. lia.
Qed.

Lemma cut_space_shorter (s v r : string) :
  cut_space s = Some (v, r) -> String.length r < String.length s.
Proof.
  revert v. induction s as [|c s IH]; intros v; simpl; [discriminate|].
  destruct (Ascii.eqb c SP).
  - intros E. injection E as <- <-. lia.
  - destruct (cut_space s) as [[v0 r0]|]; [|discriminate].
    intros E. injection E as <- <-. specialize (IH v0 eq_refl). lia.
Qed.

Lemma TrimLeft_length (s cutset : string) :
  String.length (TrimLeft s cutset) <= String.length s.
Proof.
  induction s as [|c s IH]; simpl; [lia|].
  destruct (ContainsByte cutset c); simpl; lia.
Qed.

(** [ReadString] shortens a string that is not empty. *)
Lemma ReadString_shorter (s v r : string) :
  s <> EmptyString -> ReadString s = Ok (v, r) -> String.length r < String.length s.
Proof.
  intros Hne. unfold ReadString.
  pose proof (TrimLeft_length s delims) as HT.
  destruct (isQuoted (TrimLeft s delims)) eqn:Hq.
  - destruct (unquote (TrimLeft s delims)) as [u| | |]; cbn [bind]; try discriminate.
    unfold slice_from, slice.
    destruct (_ && _) eqn:Hb; cbn [bind]; [|discriminate].
    intros E. injection E as <- <-.
    apply andb_true_iff in Hb as [Hb _]. apply Nat.leb_le in Hb.
    rewrite substring_length by lia. lia.
  - destruct (cut_space (TrimLeft s delims)) as [[v0 r0]|] eqn:Hc.
    + intros E. injection E as <- <-. apply cut_space_shorter in Hc. lia.
    + intros E. injection E as <- <-. destruct s; [congruence | simpl; lia].
Qed.

Ltac destruct_read b :=
  unfold bufio_ReadString;
  let l := fresh "l" in let fnd := fresh "found" in let r := fresh "r" in
  let E := fresh "Eread" in
  destruct (read_until b LF) as [[l fnd] r] eqn:E; destruct fnd;
  [ pose proof (read_until_shorter _ _ _ _ E) | ].

Lemma readTrack_fuel (f1 f2 : nat) (b : Reader) (track : Track) :
  String.length b < f1 -> String.length b < f2 ->
  readTrack f1 b track = readTrack f2 b track.
Proof.
  revert f2 b track. induction f1 as [|f1 IH]; intros f2 b track H1 H2; [lia|].
  destruct f2 as [|f2]; [lia|]. cbn [readTrack].
  destruct_read b; [|reflexivity].
  destruct (negb _); [reflexivity|].
  destruct (ReadString _) as [[command line]| | |]; cbn [bind]; try reflexivity.
  destruct (readTrack_switch _ _ _) as [[t'|t']| | |]; cbn [bind]; try reflexivity.
  apply IH; lia.
Qed.

Lemma readTrack_rest (fuel : nat) (b b' : Reader) (track track' : Track) :
  readTrack fuel b track = Ok (b', track') -> String.length b' <= String.length b.
Proof.
  revert b track. induction fuel as [|f IH]; intros b track; [discriminate|].
  cbn [readTrack]. destruct_read b.
  - destruct (negb _); [intros E; injection E as <- <-; lia|].
    destruct (ReadString _) as [[command line]| | |]; cbn [bind]; try discriminate.
    destruct (readTrack_switch _ _ _) as [[t'|t']| | |]; cbn [bind]; try discriminate.
    + intros E. apply IH in E. lia.
    + intros E. injection E as <- <-. lia.
  - intros E. injection E as <- <-.
    apply read_until_not_found in Eread as [_ ->]. simpl. lia.
Qed.

Lemma bind_enough {A B : Type} (m : outcome A) (k : A -> outcome B) :
  m <> OutOfFuel -> (forall a, k a <> OutOfFuel) -> bind m k <> OutOfFuel.
Proof. destruct m; cbn [bind]; intros H1 H2; [apply H2 | discriminate.. | congruence]. Qed.

Lemma ReadString_enough (s : string) : ReadString s <> OutOfFuel.
Proof.
  unfold ReadString. destruct (isQuoted _).
  - unfold unquote, slice_from, slice.
    destruct (TrimLeft s delims); [discriminate|].
    destruct (_ && _); cbn [bind]; [|discriminate].
    destruct (_ && _); cbn [bind]; discriminate.
  - destruct (cut_space _) as [[v r]|]; discriminate.
Qed.

Lemma readTrack_flags_enough (fuel : nat) (line : string) (flags : Z) :
  String.length line < fuel -> readTrack_flags fuel line flags <> OutOfFuel.
Proof.
  revert line flags. induction fuel as [|f IH]; intros line flags H; [lia|].
  destruct line as [|c l]; [discriminate|].
  cbn [readTrack_flags].
  destruct (ReadString (String c l)) as [[v r]| | |] eqn:E; cbn [bind]; try discriminate.
  - apply IH. apply ReadString_shorter in E; [simpl in *; lia | discriminate].
  - exfalso. revert E. apply ReadString_enough.
Qed.

Lemma ParseUint_enough (s : string) (bitSize : N) : ParseUint s bitSize <> OutOfFuel.
Proof.
  destruct (ParseUint_total s bitSize) as [[m E]|[e E]]; rewrite E; discriminate.
Qed.

Lemma ReadUint_enough (s : string) : ReadUint s <> OutOfFuel.
Proof.
  unfold ReadUint. apply bind_enough; [apply ReadString_enough|]. intros [v r].
  apply bind_enough; [apply ParseUint_enough | discriminate].
Qed.

Lemma ReadFrame_enough (s : string) : ReadFrame s <> OutOfFuel.
Proof.
  unfold ReadFrame. apply bind_enough; [apply ReadString_enough|]. intros [v r].
  destruct (Split v COLON) as [|v0 [|v1 [|v2 [|v3 l]]]]; try discriminate.
  repeat (apply bind_enough; [apply ParseUint_enough | intros ?]). discriminate.
Qed.

Ltac enough_step :=
  first
    [ discriminate
    | apply bind_enough;
      [ first [ apply ReadString_enough | apply ReadUint_enough | apply ReadFrame_enough ]
      | intros [? ?] ] ].

Lemma readTrack_switch_enough (command line : string) (track : Track) :
  readTrack_switch command line track <> OutOfFuel.
Proof.
  unfold readTrack_switch.
  destruct (command =? "FLAGS").
  { apply bind_enough; [apply readTrack_flags_enough; lia | discriminate]. }
  repeat match goal with
  | |- (if ?c then _ else _) <> _ => destruct c; [repeat enough_step|]
  end.
  discriminate.
Qed.

Lemma readTrack_enough (fuel : nat) (b : Reader) (track : Track) :
  String.length b < fuel -> readTrack fuel b track <> OutOfFuel.
Proof.
  revert b track. induction fuel as [|f IH]; intros b track H; [lia|].
  cbn [readTrack]. destruct_read b; [|discriminate].
  destruct (negb _); [discriminate|].
  apply bind_enough; [apply ReadString_enough | intros [command line]].
  apply bind_enough; [apply readTrack_switch_enough | intros [t'|t']];
    [apply IH; lia | discriminate].
Qed.

Lemma readTracks_loop_fuel (f1 f2 : nat) (b : Reader) (tracks : list Track) :
  String.length b < f1 -> String.length b < f2 ->
  readTracks_loop f1 b tracks = readTracks_loop f2 b tracks.
Proof.
  revert f2 b tracks. induction f1 as [|f1 IH]; intros f2 b tracks H1 H2; [lia|].
  destruct f2 as [|f2]; [lia|]. cbn [readTracks_loop].
  destruct_read b; [|reflexivity].
  destruct (negb _); [reflexivity|].
  destruct (ReadString _) as [[command line]| | |]; cbn [bind]; try reflexivity.
  destruct (command =? "TRACK"); [|reflexivity].
  destruct (ReadUint _) as [[num line']| | |]; cbn [bind]; try reflexivity.
  destruct (ReadString _) as [[v line'']| | |]; cbn [bind]; try reflexivity.
  rewrite (readTrack_fuel f1 f2) by lia.
  destruct (readTrack f2 r _) as [[b' t']| | |] eqn:E; cbn [bind]; try reflexivity.
  apply readTrack_rest in E. apply IH; lia.
Qed.

Lemma readTracks_loop_rest (fuel : nat) (b b' : Reader) (tracks tracks' : list Track) :
  readTracks_loop fuel b tracks = Ok (b', tracks') -> String.length b' <= String.length b.
Proof.
  revert b tracks. induction fuel as [|f IH]; intros b tracks; [discriminate|].
  cbn [readTracks_loop]. destruct_read b.
  - destruct (negb _); [intros E; injection E as <- <-; lia|].
    destruct (ReadString _) as [[command line]| | |]; cbn [bind]; try discriminate.
    destruct (command =? "TRACK"); [|intros E; injection E as <- <-; lia].
    destruct (ReadUint _) as [[num line']| | |]; cbn [bind]; try discriminate.
    destruct (ReadString _) as [[v line'']| | |]; cbn [bind]; try discriminate.
    destruct (readTrack f r _) as [[b1 t1]| | |] eqn:E1; cbn [bind]; try discriminate.
    apply readTrack_rest in E1. intros E. apply IH in E. lia.
  - intros E. injection E as <- <-.
    apply read_until_not_found in Eread as [_ ->]. simpl. lia.
Qed.

Lemma readTracks_loop_enough (fuel : nat) (b : Reader) (tracks : list Track) :
  String.length b < fuel -> readTracks_loop fuel b tracks <> OutOfFuel.
Proof.
  revert b tracks. induction fuel as [|f IH]; intros b tracks H; [lia|].
  cbn [readTracks_loop]. destruct_read b; [|discriminate].
  destruct (negb _); [discriminate|].
  apply bind_enough; [apply ReadString_enough | intros [command line]].
  destruct (command =? "TRACK"); [|discriminate].
  apply bind_enough; [apply ReadUint_enough | intros [num line']].
  apply bind_enough; [apply ReadString_enough | intros [v line'']].
  destruct (readTrack f r _) as [[b1 t1]| | |] eqn:E1; cbn [bind]; try discriminate.
  - apply readTrack_rest in E1. apply IH. lia.
  - exfalso. revert E1. apply readTrack_enough. lia.
Qed.

Lemma ReadFile_switch_fuel (f1 f2 : nat) (command line : string) (b : Reader)
    (cuesheet : Cuesheet) :
  String.length b < f1 -> String.length b < f2 ->
  ReadFile_switch f1 command line b cuesheet = ReadFile_switch f2 command line b cuesheet.
Proof.
  intros H1 H2. unfold ReadFile_switch, readTracks.
  rewrite (readTracks_loop_fuel f1 f2) by assumption. reflexivity.
Qed.

Lemma ReadFile_switch_rest (fuel : nat) (command line : string) (b b' : Reader)
    (cuesheet cuesheet' : Cuesheet) :
  ReadFile_switch fuel command line b cuesheet = Ok (b', cuesheet') ->
  String.length b' <= String.length b.
Proof.
  unfold ReadFile_switch, readTracks.
  repeat match goal with
  | |- (if ?c then _ else _) = _ -> _ => destruct c
  | |- bind ?m _ = _ -> _ =>
      let E := fresh "E" in destruct m as [[? ?]| | |] eqn:E; cbn [bind]
  end.
  all: try discriminate.
  all: intros E'; injection E' as <- <-; try lia.
  eapply readTracks_loop_rest; eassumption.
Qed.

Lemma ReadFile_switch_enough (fuel : nat) (command line : string) (b : Reader)
    (cuesheet : Cuesheet) :
  String.length b < fuel -> ReadFile_switch fuel command line b cuesheet <> OutOfFuel.
Proof.
  intros H. unfold ReadFile_switch, readTracks.
  repeat match goal with
  | |- (if ?c then _ else _) <> _ => destruct c; [repeat enough_step|]
  end; try discriminate.
  apply bind_enough; [apply readTracks_loop_enough, H | intros [? ?]; discriminate].
Qed.

Lemma ReadFile_loop_fuel (f1 f2 : nat) (b : Reader) (cuesheet : Cuesheet) :
  String.length b < f1 -> String.length b < f2 ->
  ReadFile_loop f1 b cuesheet = ReadFile_loop f2 b cuesheet.
Proof.
  revert f2 b cuesheet. induction f1 as [|f1 IH]; intros f2 b cuesheet H1 H2; [lia|].
  destruct f2 as [|f2]; [lia|]. cbn [ReadFile_loop].
  destruct_read b; [|reflexivity].
  destruct (ReadString _) as [[command line]| | |]; cbn [bind]; try reflexivity.
  rewrite (ReadFile_switch_fuel f1 f2) by lia.
  destruct (ReadFile_switch f2 _ _ _ _) as [[b' c']| | |] eqn:E; cbn [bind]; try reflexivity.
  apply ReadFile_switch_rest in E. apply IH; lia.
Qed.

Lemma ReadFile_loop_enough (fuel : nat) (b : Reader) (cuesheet : Cuesheet) :
  String.length b < fuel -> ReadFile_loop fuel b cuesheet <> OutOfFuel.
Proof.
  revert b cuesheet. induction fuel as [|f IH]; intros b cuesheet H; [lia|].
  cbn [ReadFile_loop]. destruct_read b; [|discriminate].
  apply bind_enough; [apply ReadString_enough | intros [command line]].
  destruct (ReadFile_switch f _ _ _ _) as [[b' c']| | |] eqn:E; cbn [bind];
    try discriminate.
  - apply ReadFile_switch_rest in E. apply IH. lia.
  - exfalso. revert E. apply ReadFile_switch_enough. lia.
Qed.

(** [ReadFile] on any input returns a sheet, returns an error or panics:
    the iterations it is given are enough. *)
Lemma ReadFile_total (r : string) : ReadFile r <> OutOfFuel.
Proof. apply ReadFile_loop_enough. lia. Qed.

(** ** The end of the input (C7, C10) *)

(** C7: the empty input is read without error as the sheet whose fields
    are all empty, with no file and no comment; and at the end of the input
    each of the three loops ends without error, with what it has read so far
    (the minimal sheet ends inside a track, a file and the sheet at once). *)
Theorem ReadFile_empty :
  ReadFile EmptyString = Ok Cuesheet_zero /\
  Cuesheet_File Cuesheet_zero = [] /\ Cuesheet_Rem Cuesheet_zero = [] /\
  (forall fuel track, readTrack (S fuel) EmptyString track = Ok (EmptyString, track)) /\
  (forall fuel tracks,
     readTracks_loop (S fuel) EmptyString tracks = Ok (EmptyString, tracks)) /\
  (forall fuel cuesheet, ReadFile_loop (S fuel) EmptyString cuesheet = Ok cuesheet) /\
  ReadFile minimal_text = Ok minimal_sheet.
Proof. repeat split. Qed.

Lemma ContainsByte_append (a b : string) (c : ascii) :
  ContainsByte (a ++ b) c = ContainsByte a c || ContainsByte b c.
Proof.
  induction a as [|x a IH]; simpl; [reflexivity | now rewrite IH, orb_assoc].
Qed.

Lemma read_until_tail (b tail : string) :
  ContainsByte tail LF = false ->
  read_until (b ++ tail) LF =
  match read_until b LF with
  | (l, true, r) => (l, true, r ++ tail)
  | (l, false, r) => (l ++ tail, false, EmptyString)
  end.
Proof.
  intros Ht. destruct (read_until b LF) as [[l found] r] eqn:E. destruct found.
  - destruct (read_until_found _ _ _ _ E) as (l' & -> & -> & Hl').
    rewrite append_assoc. cbn [append]. apply read_until_line, Hl'.
  - pose proof (read_until_not_found _ _ _ _ E) as [Hb ->].
    rewrite (read_until_none b LF Hb) in E. injection E as <-.
    apply read_until_none. rewrite ContainsByte_append, Hb, Ht. reflexivity.
Qed.

Lemma same_outcome_refl_empty {A : Type} (tail : string) (a : A) :
  same_outcome tail (Ok (EmptyString, a)) (Ok (EmptyString, a)).
Proof. split; [right; split; reflexivity | reflexivity]. Qed.

Lemma readTrack_tail (tail : string) (fuel : nat) (b1 b2 : Reader) (track : Track) :
  ContainsByte tail LF = false -> same_lines tail b1 b2 ->
  same_outcome tail (readTrack fuel b1 track) (readTrack fuel b2 track).
Proof.
  intros Ht. revert b1 b2 track.
  induction fuel as [|f IH]; intros b1 b2 track HR; [exact I|].
  destruct HR as [->|[-> ->]]; [|apply same_outcome_refl_empty].
  cbn [readTrack]. unfold bufio_ReadString. rewrite (read_until_tail b2 tail Ht).
  destruct (read_until b2 LF) as [[l found] r] eqn:E. destruct found.
  - destruct (negb _); [split; [left; reflexivity | reflexivity]|].
    destruct (ReadString _) as [[command line]| | |]; cbn [bind]; try easy.
    destruct (readTrack_switch _ _ _) as [[t'|t']| | |]; cbn [bind]; try easy.
    + apply IH. left. reflexivity.
    + split; [left; reflexivity | reflexivity].
  - apply read_until_not_found in E as [_ ->]. apply same_outcome_refl_empty.
Qed.

Lemma readTracks_loop_tail (tail : string) (fuel : nat) (b1 b2 : Reader)
    (tracks : list Track) :
  ContainsByte tail LF = false -> same_lines tail b1 b2 ->
  same_outcome tail (readTracks_loop fuel b1 tracks) (readTracks_loop fuel b2 tracks).
Proof.
  intros Ht. revert b1 b2 tracks.
  induction fuel as [|f IH]; intros b1 b2 tracks HR; [exact I|].
  destruct HR as [->|[-> ->]]; [|apply same_outcome_refl_empty].
  cbn [readTracks_loop]. unfold bufio_ReadString. rewrite (read_until_tail b2 tail Ht).
  destruct (read_until b2 LF) as [[l found] r] eqn:E. destruct found.
  - destruct (negb _); [split; [left; reflexivity | reflexivity]|].
    destruct (ReadString _) as [[command line]| | |]; cbn [bind]; try easy.
    destruct (command =? "TRACK"); [|split; [left; reflexivity | reflexivity]].
    destruct (ReadUint _) as [[num line']| | |]; cbn [bind]; try easy.
    destruct (ReadString _) as [[v line'']| | |]; cbn [bind]; try easy.
    match goal with
    | |- context [readTrack f (r ++ tail) ?t] =>
        pose proof (readTrack_tail tail f (r ++ tail) r t Ht (or_introl eq_refl)) as HT
    end.
    destruct (readTrack f (r ++ tail) _) as [[b1 t1]| | |];
      destruct (readTrack f r _) as [[b2' t2]| | |]; cbn [bind]; try easy.
    destruct HT as [HR ->]. apply IH, HR.
  - apply read_until_not_found in E as [_ ->]. apply same_outcome_refl_empty.
Qed.

Lemma ReadFile_switch_tail (tail : string) (fuel : nat) (command line : string)
    (b1 b2 : Reader) (cuesheet : Cuesheet) :
  ContainsByte tail LF = false -> same_lines tail b1 b2 ->
  same_outcome tail (ReadFile_switch fuel command line b1 cuesheet)
                    (ReadFile_switch fuel command line b2 cuesheet).
Proof.
  intros Ht HR. unfold ReadFile_switch, readTracks.
  repeat match goal with
  | |- same_outcome _ (if ?c then _ else _) _ => destruct c
  | |- same_outcome _ (bind (ReadString ?s) _) _ =>
      destruct (ReadString s) as [[? ?]| | |]; cbn [bind]
  | |- same_outcome _ (bind (ReadFrame ?s) _) _ =>
      destruct (ReadFrame s) as [[? ?]| | |]; cbn [bind]
  end; try easy.
  pose proof (readTracks_loop_tail tail fuel b1 b2 [] Ht HR) as HT.
  destruct (readTracks_loop fuel b1 []) as [[r1 t1]| | |];
    destruct (readTracks_loop fuel b2 []) as [[r2 t2]| | |]; cbn [bind]; try easy.
  destruct HT as [HR' ->]. split; [exact HR' | reflexivity].
Qed.

Lemma ReadFile_loop_tail (tail : string) (fuel : nat) (b1 b2 : Reader)
    (cuesheet : Cuesheet) :
  ContainsByte tail LF = false -> same_lines tail b1 b2 ->
  ReadFile_loop fuel b1 cuesheet = ReadFile_loop fuel b2 cuesheet.
Proof.
  intros Ht. revert b1 b2 cuesheet.
  induction fuel as [|f IH]; intros b1 b2 cuesheet HR; [reflexivity|].
  destruct HR as [->|[-> ->]]; [|reflexivity].
  cbn [ReadFile_loop]. unfold bufio_ReadString. rewrite (read_until_tail b2 tail Ht).
  destruct (read_until b2 LF) as [[l found] r] eqn:E. destruct found; [|reflexivity].
  destruct (ReadString _) as [[command line]| | |]; cbn [bind]; try reflexivity.
  pose proof (ReadFile_switch_tail tail f command line (r ++ tail) r cuesheet Ht
                (or_introl eq_refl)) as HT.
  destruct (ReadFile_switch f command line (r ++ tail) cuesheet) as [[r1 c1]| | |];
    destruct (ReadFile_switch f command line r cuesheet) as [[r2 c2]| | |];
    cbn [bind]; cbn [same_outcome] in HT; try easy; try congruence.
  destruct HT as [HR ->]. apply IH, HR.
Qed.

(** C10: the bytes after the last newline of the input are read together
    with the end of the input, where each loop stops: they change nothing in
    what [ReadFile] returns, nor in what the loops of [readTracks] and
    [readTrack] return, but for the bytes themselves that are left in the
    reader after a line was put back.  So one FILE line without newline is
    read as the sheet without file, and without error. *)
Theorem ReadFile_drops_unterminated_line (s tail : string) :
  ContainsByte tail LF = false ->
  ReadFile (s ++ tail) = ReadFile s /\
  (forall fuel tracks,
     same_outcome tail (readTracks_loop fuel (s ++ tail) tracks)
                       (readTracks_loop fuel s tracks)) /\
  (forall fuel track,
     same_outcome tail (readTrack fuel (s ++ tail) track) (readTrack fuel s track)) /\
  ReadFile ("FILE " ++ quoted "a.wav" ++ " WAVE") = Ok Cuesheet_zero.
Proof.
  intros Ht.
  split; [|split; [|split; [|reflexivity]]];
    [| intros fuel tracks; apply readTracks_loop_tail; [exact Ht | left; reflexivity]
     | intros fuel track; apply readTrack_tail; [exact Ht | left; reflexivity] ].
  unfold ReadFile.
  rewrite (ReadFile_loop_fuel (S (String.length s)) (S (String.length (s ++ tail))) s)
    by (rewrite ?length_append; lia).
  apply (ReadFile_loop_tail tail); [exact Ht | left; reflexivity].
Qed.

Lemma ReadFile_drops_unterminated_line_witness :
  ContainsByte "  TRACK 02 AUDIO" LF = false /\
  ReadFile (minimal_text ++ "  TRACK 02 AUDIO") = ReadFile minimal_text.
Proof.
  split; [reflexivity|].
  apply (proj1 (ReadFile_drops_unterminated_line minimal_text "  TRACK 02 AUDIO" eq_refl)).
Defined.

(** ** A command that [readTrack] does not know (C6) *)


Lemma prefix_append (p s x : string) :
  String.prefix p s = true -> String.prefix p (s ++ x) = true.
Proof.
  revert s. induction p as [|c p IH]; intros s;
    [destruct s; simpl; [destruct x|]; reflexivity|].
  destruct s as [|a s]; simpl; [discriminate|].
  destruct (ascii_dec c a); [apply IH | discriminate].
Qed.




(** ** The validator (C8) *)

Lemma append_err_app (errs : list error) (err : option error) :
  append_err errs err = (errs ++ append_err [] err)%list.
Proof. destruct err; simpl; [reflexivity | now rewrite app_nil_r]. Qed.

Lemma Track_Validate_fold (tracks : list Track) (errs : list error) :
  fold_left (fun errs track => (errs ++ Track_Validate track)%list) tracks errs =
  (errs ++ flat_map Track_Validate tracks)%list.
Proof.
  revert errs. induction tracks as [|t tracks IH]; intros errs; simpl.
  - now rewrite app_nil_r.
  - now rewrite IH, app_assoc.
Qed.

Lemma Cuesheet_Validate_file_app (errs : list error) (file : File) :
  Cuesheet_Validate_file errs file = (errs ++ Cuesheet_Validate_file [] file)%list.
Proof.
  unfold Cuesheet_Validate_file.
  rewrite !Track_Validate_fold, (append_err_app errs), app_assoc. reflexivity.
Qed.

Lemma Cuesheet_Validate_fold (files : list File) (errs : list error) :
  fold_left Cuesheet_Validate_file files errs =
  (errs ++ flat_map (Cuesheet_Validate_file []) files)%list.
Proof.
  revert errs. induction files as [|f files IH]; intros errs; simpl.
  - now rewrite app_nil_r.
  - now rewrite IH, (Cuesheet_Validate_file_app errs), app_assoc.
Qed.

Lemma flat_map_in {A B : Type} (f : A -> list B) (x : A) (l : list A) :
  In x l -> exists l1 l2, flat_map f l = (l1 ++ f x ++ l2)%list.
Proof.
  intros H. apply in_split in H as (l1 & l2 & ->).
  exists (flat_map f l1), (flat_map f l2). rewrite flat_map_app. reflexivity.
Qed.

(** C8: for a sheet whose catalog has nine bytes and which has a track
    whose only index has the number 0, [ValidateCatalog] returns the syntax
    error, the list that [Validate] returns starts with that error and holds,
    further on, the errors of that track, among them the syntax error for the
    index 01 that is missing (it follows the range error for the track number,
    when there is one): no error stops the checks, and the list has at least
    these two errors. *)
Theorem Validate_accumulates (c : Cuesheet) (file : File) (track : Track) (frame : N) :
  String.length (Cuesheet_Catalog c) = 9 ->
  In file (Cuesheet_File c) -> In track (File_Tracks file) ->
  Track_Index track = [Build_TrackIndex 0 frame] ->
  ValidateCatalog (Cuesheet_Catalog c) = Some ErrSyntax /\
  (exists post,
     Track_Validate track =
     ((if (Track_TrackNumber track <? 1)%N || (99 <? Track_TrackNumber track)%N
       then [ErrRange] else []) ++ ErrSyntax :: post)%list) /\
  (exists before after,
     Cuesheet_Validate c =
     (ErrSyntax :: before ++ Track_Validate track ++ after)%list) /\
  (exists before after,
     Cuesheet_Validate c = (ErrSyntax :: before ++ ErrSyntax :: after)%list).
Proof.
  intros Hcat Hfile Htrack Hidx.
  assert (Ecat : ValidateCatalog (Cuesheet_Catalog c) = Some ErrSyntax).
  { unfold ValidateCatalog. rewrite Hcat. reflexivity. }
  assert (Etrack : exists post,
     Track_Validate track =
     ((if (Track_TrackNumber track <? 1)%N || (99 <? Track_TrackNumber track)%N
       then [ErrRange] else []) ++ ErrSyntax :: post)%list).
  { unfold Track_Validate. rewrite Hidx. cbn [fold_left Track_Validate_index].
    cbn [TrackIndex_Number N.eqb N.ltb N.compare negb].
    exists ((if nonempty (Track_Isrc track)
             then append_err [] (ValidateISRC (Track_Isrc track)) else []) ++
            append_err [] (ValidateTrackDataType (Track_TrackDataType track)))%list.
    rewrite append_err_app.
    destruct (_ || _); cbn [app];
      (destruct (nonempty _); [rewrite (append_err_app (_ :: _))|];
       rewrite <- ?app_assoc; cbn [app]; reflexivity). }
  assert (Esheet : exists before after,
     Cuesheet_Validate c =
     (ErrSyntax :: before ++ Track_Validate track ++ after)%list).
  { unfold Cuesheet_Validate. rewrite Cuesheet_Validate_fold.
    assert (Hne : nonempty (Cuesheet_Catalog c) = true)
      by (unfold nonempty; rewrite Hcat; reflexivity).
    rewrite Hne.
    destruct (flat_map_in (Cuesheet_Validate_file []) file _ Hfile) as (l1 & l2 & ->).
    unfold Cuesheet_Validate_file. rewrite Track_Validate_fold.
    destruct (flat_map_in Track_Validate track _ Htrack) as (m1 & m2 & ->).
    exists ((if (List.length (Cuesheet_File c) =? 0)%nat then [ErrSyntax] else []) ++
            l1 ++ append_err [] (ValidateFileType (File_FileType file)) ++ m1)%list.
    exists (m2 ++ l2)%list.
    rewrite Ecat. cbn [append_err app].
    destruct (List.length (Cuesheet_File c) =? 0)%nat; cbn [app];
      rewrite <- !app_assoc; reflexivity. }
  split; [exact Ecat|]. split; [exact Etrack|]. split; [exact Esheet|].
  destruct Etrack as (post & Et), Esheet as (before & after & Es).
  exists (before ++
          (if (Track_TrackNumber track <? 1)%N || (99 <? Track_TrackNumber track)%N
           then [ErrRange] else []))%list, (post ++ after)%list.
  rewrite Es, Et, <- !app_assoc. reflexivity.
Qed.

Lemma Validate_accumulates_witness :
  String.length "123456789" = 9 /\
  exists before after,
    Cuesheet_Validate
      (set_Cuesheet_Catalog "123456789"
         (set_Cuesheet_File
            [Build_File "a.wav" "WAVE"
               [set_Track_Index [Build_TrackIndex 0 0]
                  (set_Track_TrackDataType "AUDIO" (set_Track_TrackNumber 1 Track_zero))]]
            Cuesheet_zero)) =
    (ErrSyntax :: before ++ ErrSyntax :: after)%list.
Proof.
  split; [reflexivity|].
  apply (proj2 (proj2 (proj2 (Validate_accumulates
    (set_Cuesheet_Catalog "123456789"
         (set_Cuesheet_File
            [Build_File "a.wav" "WAVE"
               [set_Track_Index [Build_TrackIndex 0 0]
                  (set_Track_TrackDataType "AUDIO" (set_Track_TrackNumber 1 Track_zero))]]
            Cuesheet_zero))
    (Build_File "a.wav" "WAVE"
               [set_Track_Index [Build_TrackIndex 0 0]
                  (set_Track_TrackDataType "AUDIO" (set_Track_TrackNumber 1 Track_zero))])
    (set_Track_Index [Build_TrackIndex 0 0]
                  (set_Track_TrackDataType "AUDIO" (set_Track_TrackNumber 1 Track_zero)))
    0%N eq_refl (or_introl eq_refl) (or_introl eq_refl) eq_refl)))).
Defined.

(** ** The text of a sheet (C1)

    What has to hold of a sheet for [ReadFile] to read it back from the text
    that [WriteFile] writes. *)

Lemma TrimRight_solid (s : string) : last_solid s = true -> TrimRight s delims = s.
Proof.
  induction s as [|c s IH]; [discriminate|].
  destruct s as [|c' s'].
  - cbn [last_solid TrimRight]. intros H. apply negb_true_iff in H. rewrite H. reflexivity.
  - intros H. change (last_solid (String c (String c' s'))) with (last_solid (String c' s')) in H.
    specialize (IH H). cbn [TrimRight] in IH |- *. rewrite IH. reflexivity.
Qed.

Lemma last_solid_append (a b : string) :
  last_solid b = true -> last_solid (a ++ b) = true.
Proof.
  intros H. induction a as [|c a IH]; [exact H|].
  cbn [append]. destruct (a ++ b) eqn:E; [discriminate IH | exact IH].
Qed.

Lemma last_solid_nodelim (s : string) :
  nonempty s = true -> ContainsAny s delims = false -> last_solid s = true.
Proof.
  induction s as [|c s IH]; [discriminate|].
  intros _ H. cbn [ContainsAny] in H. apply orb_false_iff in H as [Hc Hs].
  destruct s as [|c' s']; [cbn [last_solid]; rewrite Hc; reflexivity|].
  apply IH; [reflexivity | exact Hs].
Qed.

Lemma TrimRight_eol (s : string) :
  last_solid s = true -> TrimRight (s ++ eol) delims = s.
Proof.
  induction s as [|c s IH]; [discriminate|].
  destruct s as [|c' s'].
  - cbn [last_solid]. intros H. apply negb_true_iff in H.
    cbn [append TrimRight]. change (ContainsByte delims LF) with true.
    cbn iota. rewrite H. reflexivity.
  - intros H. change (last_solid (String c (String c' s'))) with (last_solid (String c' s')) in H.
    specialize (IH H). cbn [append TrimRight] in IH |- *. rewrite IH. reflexivity.
Qed.

Lemma TrimLeft_solid (c : ascii) (s : string) :
  ContainsByte delims c = false -> TrimLeft (String c s) delims = String c s.
Proof. intros H. cbn [TrimLeft]. rewrite H. reflexivity. Qed.

Lemma TrimLeft_spaces (indent s : string) :
  all_bytes is_space indent = true ->
  TrimLeft (indent ++ s) delims = TrimLeft s delims.
Proof.
  induction indent as [|c i IH]; [reflexivity|].
  cbn [all_bytes]. intros H. apply andb_true_iff in H as [Hc Hi].
  apply Ascii.eqb_eq in Hc. subst c. cbn [append TrimLeft].
  change (ContainsByte delims SP) with true. cbn iota. apply IH, Hi.
Qed.

(** The line of a command: what [Trim] and [ReadString] make of it. *)
Lemma ReadString_command_line (indent cmd args : string) :
  all_bytes is_space indent = true -> bare cmd = true -> raw_ok args = true ->
  ReadString (Trim (indent ++ cmd ++ " " ++ args ++ eol) delims) = Ok (cmd, args).
Proof.
  intros Hi Hc Ha. unfold raw_ok in Ha.
  apply andb_true_iff in Ha as [_ Ha]. apply orb_true_iff in Ha as [Ha|Ha].
  - apply String.eqb_eq in Ha. subst args. cbn [append].
    destruct (bare_inv cmd Hc) as (c & r & E & Hd & Hn & Hq).
    assert (Hs : last_solid cmd = true)
      by (apply last_solid_nodelim; [rewrite E; reflexivity | exact Hn]).
    unfold Trim.
    replace (indent ++ cmd ++ String " " eol) with ((indent ++ cmd) ++ String " " eol)
      by (rewrite append_assoc; reflexivity).
    assert (HT : TrimRight ((indent ++ cmd) ++ String " " eol) delims = indent ++ cmd).
    { pose proof (last_solid_append indent cmd Hs) as Hs'.
      revert Hs'. generalize (indent ++ cmd). clear.
      induction s as [|c s IH]; [discriminate|].
      destruct s as [|c' s'].
      - cbn [last_solid]. intros H. apply negb_true_iff in H.
        cbn [append TrimRight]. change (ContainsByte delims LF) with true.
        change (ContainsByte delims " ") with true. cbn iota. rewrite H. reflexivity.
      - intros H.
        change (last_solid (String c (String c' s'))) with (last_solid (String c' s')) in H.
        specialize (IH H). cbn [append TrimRight] in IH |- *. rewrite IH. reflexivity. }
    rewrite HT, (TrimLeft_spaces indent cmd Hi).
    rewrite E at 1. rewrite (TrimLeft_solid c r Hd), <- E.
    apply ReadString_bare, Hc.
  - unfold Trim.
    replace (indent ++ cmd ++ " " ++ args ++ eol) with ((indent ++ cmd ++ " " ++ args) ++ eol)
      by (rewrite !append_assoc; reflexivity).
    rewrite TrimRight_eol by (rewrite <- !append_assoc; repeat apply last_solid_append; exact Ha).
    rewrite (TrimLeft_spaces indent _ Hi).
    destruct (bare_inv cmd Hc) as (c & r & E & Hd & Hn & Hq).
    rewrite E at 1. cbn [append]. rewrite (TrimLeft_solid c _ Hd).
    change (String c (r ++ String " " args)) with (String c r ++ String SP args).
    rewrite <- E. apply ReadString_bare_space, Hc.
Qed.

Lemma bufio_ReadString_line (l more : string) :
  ContainsByte l LF = false ->
  bufio_ReadString (l ++ eol ++ more) LF = (l ++ eol, None, more).
Proof.
  intros H. unfold bufio_ReadString, eol. cbn [append].
  rewrite (read_until_line l more LF H). reflexivity.
Qed.

Lemma length_line (l more : string) :
  String.length (l ++ eol ++ more) = S (String.length l + String.length more).
Proof. rewrite !length_append. cbn [eol String.length]. lia. Qed.

Lemma readTrack_S (fuel : nat) (b : Reader) (track : Track) :
  readTrack (S fuel) b track =
  let '(line, err, b') := bufio_ReadString b LF in
  match err with
  | Some EOF => Ok (b', track)
  | Some e => Fail e
  | None =>
      if negb (HasPrefix line "    ") then Ok (b, track)
      else
        '(command, line) <- ReadString (Trim line delims) ;;
        r <- readTrack_switch command line track ;;
        match r with
        | Continue track => readTrack fuel b' track
        | Break track => Ok (b', track)
        end
  end.
Proof. reflexivity. Qed.

Lemma readTracks_loop_S (fuel : nat) (b : Reader) (tracks : list Track) :
  readTracks_loop (S fuel) b tracks =
  let '(line, err, b') := bufio_ReadString b LF in
  match err with
  | Some EOF => Ok (b', tracks)
  | Some e => Fail e
  | None =>
      if negb (HasPrefix line "  ") then Ok (b, tracks)
      else
        '(command, line) <- ReadString (Trim line delims) ;;
        if command =? "TRACK" then
          '(num, line) <- ReadUint line ;;
          '(v, _) <- ReadString line ;;
          '(b', track) <- readTrack fuel b'
                            (set_Track_TrackDataType v
                               (set_Track_TrackNumber num Track_zero)) ;;
          readTracks_loop fuel b' (tracks ++ [track])%list
        else Ok (b', tracks)
  end.
Proof. reflexivity. Qed.

Lemma ReadFile_loop_S (fuel : nat) (b : Reader) (cuesheet : Cuesheet) :
  ReadFile_loop (S fuel) b cuesheet =
  let '(line, err, b') := bufio_ReadString b LF in
  match err with
  | Some EOF => Ok cuesheet
  | Some e => Fail e
  | None =>
      '(command, line) <- ReadString (Trim line delims) ;;
      '(b', cuesheet) <- ReadFile_switch fuel command line b' cuesheet ;;
      ReadFile_loop fuel b' cuesheet
  end.
Proof. reflexivity. Qed.

Lemma readTrack_all_line (l more : string) (track : Track) :
  ContainsByte l LF = false -> HasPrefix (l ++ eol) "    " = true ->
  readTrack_all (l ++ eol ++ more) track =
  '(command, args) <- ReadString (Trim (l ++ eol) delims) ;;
  r <- readTrack_switch command args track ;;
  match r with
  | Continue track' => readTrack_all more track'
  | Break track' => Ok (more, track')
  end.
Proof.
  intros Hl Hp. unfold readTrack_all. rewrite readTrack_S.
  rewrite (bufio_ReadString_line l more Hl), Hp. cbn [negb].
  destruct (ReadString _) as [[command args]| | |]; cbn [bind]; try reflexivity.
  destruct (readTrack_switch _ _ _) as [[t'|t']| | |]; cbn [bind]; try reflexivity.
  apply readTrack_fuel; rewrite ?length_line; lia.
Qed.

Lemma readTrack_all_end (rest : Reader) (track : Track) :
  scope_end "    " rest -> readTrack_all rest track = Ok (rest, track).
Proof.
  intros [->|(l & more & -> & Hl & Hp)]; [reflexivity|].
  unfold readTrack_all. rewrite readTrack_S.
  rewrite (bufio_ReadString_line l more Hl), Hp. reflexivity.
Qed.

Lemma readTracks_all_end (rest : Reader) (tracks : list Track) :
  scope_end "  " rest -> readTracks_all rest tracks = Ok (rest, tracks).
Proof.
  intros [->|(l & more & -> & Hl & Hp)]; [reflexivity|].
  unfold readTracks_all. rewrite readTracks_loop_S.
  rewrite (bufio_ReadString_line l more Hl), Hp. reflexivity.
Qed.

Lemma bare_no_LF (s : string) : bare s = true -> ContainsByte s LF = false.
Proof.
  intros H. destruct (bare_inv s H) as (c & r & _ & _ & Hd & _).
  rewrite ContainsAny_all_bytes in Hd. apply negb_false_iff in Hd.
  rewrite ContainsByte_all_bytes. apply negb_false_iff.
  revert Hd. apply all_bytes_impl. intros a Ha. apply negb_true_iff in Ha.
  apply negb_true_iff, ContainsByte_delims_LF, Ha.
Qed.

Lemma spaces_no_LF (s : string) : all_bytes is_space s = true -> ContainsByte s LF = false.
Proof.
  intros H. rewrite ContainsByte_all_bytes. apply negb_false_iff.
  revert H. apply all_bytes_impl. intros a Ha. apply Ascii.eqb_eq in Ha. subst a.
  reflexivity.
Qed.

Lemma raw_ok_no_LF (s : string) : raw_ok s = true -> ContainsByte s LF = false.
Proof.
  unfold raw_ok. intros H. apply andb_true_iff in H as [H _].
  apply negb_true_iff, H.
Qed.

Lemma command_line_no_LF (indent cmd args : string) :
  all_bytes is_space indent = true -> bare cmd = true -> raw_ok args = true ->
  ContainsByte (indent ++ cmd ++ " " ++ args) LF = false.
Proof.
  intros Hi Hc Ha. rewrite !ContainsByte_append.
  rewrite (spaces_no_LF _ Hi), (bare_no_LF _ Hc), (raw_ok_no_LF _ Ha). reflexivity.
Qed.

(** A line of the track level with the command [cmd] and the rest [args]. *)
Lemma readTrack_all_command (cmd args more : string) (track : Track) :
  bare cmd = true -> raw_ok args = true ->
  readTrack_all ("    " ++ cmd ++ " " ++ args ++ eol ++ more) track =
  r <- readTrack_switch cmd args track ;;
  match r with
  | Continue track' => readTrack_all more track'
  | Break track' => Ok (more, track')
  end.
Proof.
  intros Hc Ha.
  replace ("    " ++ cmd ++ " " ++ args ++ eol ++ more)
    with (("    " ++ cmd ++ " " ++ args) ++ eol ++ more)
    by (rewrite !append_assoc; reflexivity).
  rewrite readTrack_all_line.
  - replace (("    " ++ cmd ++ " " ++ args) ++ eol)
      with ("    " ++ cmd ++ " " ++ args ++ eol) by (rewrite !append_assoc; reflexivity).
    rewrite (ReadString_command_line "    " cmd args eq_refl Hc Ha). reflexivity.
  - apply (command_line_no_LF "    " cmd args eq_refl Hc Ha).
  - destruct (bare_inv cmd Hc) as (c & r & -> & _). reflexivity.
Qed.

(** A TRACK line of the file level. *)
Lemma readTracks_all_track (args more : string) (tracks : list Track) :
  raw_ok args = true ->
  readTracks_all ("  TRACK " ++ args ++ eol ++ more) tracks =
  '(num, line) <- ReadUint args ;;
  '(v, _) <- ReadString line ;;
  '(b, track) <- readTrack_all more
                   (set_Track_TrackDataType v (set_Track_TrackNumber num Track_zero)) ;;
  readTracks_all b (tracks ++ [track])%list.
Proof.
  intros Ha.
  replace ("  TRACK " ++ args ++ eol ++ more) with (("  TRACK " ++ args) ++ eol ++ more)
    by (rewrite !append_assoc; reflexivity).
  unfold readTracks_all. rewrite readTracks_loop_S.
  rewrite bufio_ReadString_line
    by (apply (command_line_no_LF "  " "TRACK" args eq_refl eq_refl Ha)).
  replace (HasPrefix (("  TRACK " ++ args) ++ eol) "  ") with true by reflexivity.
  cbn [negb].
  replace (("  TRACK " ++ args) ++ eol) with ("  " ++ "TRACK" ++ " " ++ args ++ eol)
    by (rewrite !append_assoc; reflexivity).
  rewrite (ReadString_command_line "  " "TRACK" args eq_refl eq_refl Ha). cbn [bind].
  rewrite String.eqb_refl.
  destruct (ReadUint args) as [[num line]| | |]; cbn [bind]; try reflexivity.
  destruct (ReadString line) as [[v line']| | |]; cbn [bind]; try reflexivity.
  rewrite (readTrack_fuel _ (S (String.length more)))
    by (rewrite ?length_line; lia).
  fold (readTrack_all more (set_Track_TrackDataType v (set_Track_TrackNumber num Track_zero))).
  destruct (readTrack_all more _) as [[b t]| | |] eqn:E; cbn [bind]; try reflexivity.
  apply readTrack_rest in E.
  apply readTracks_loop_fuel; rewrite ?length_line; lia.
Qed.

(** A line of the sheet level with the command [cmd] and the rest [args]. *)
Lemma ReadFile_all_command (cmd args more : string) (cuesheet : Cuesheet) :
  bare cmd = true -> raw_ok args = true ->
  ReadFile_all (cmd ++ " " ++ args ++ eol ++ more) cuesheet =
  '(b, cuesheet') <- ReadFile_switch (S (String.length more)) cmd args more cuesheet ;;
  ReadFile_all b cuesheet'.
Proof.
  intros Hc Ha.
  replace (cmd ++ " " ++ args ++ eol ++ more) with ((cmd ++ " " ++ args) ++ eol ++ more)
    by (rewrite !append_assoc; reflexivity).
  unfold ReadFile_all. rewrite ReadFile_loop_S.
  rewrite bufio_ReadString_line
    by (apply (command_line_no_LF EmptyString cmd args eq_refl Hc Ha)).
  replace ((cmd ++ " " ++ args) ++ eol) with (EmptyString ++ cmd ++ " " ++ args ++ eol)
    by (rewrite !append_assoc; reflexivity).
  rewrite (ReadString_command_line EmptyString cmd args eq_refl Hc Ha). cbn [bind].
  rewrite (ReadFile_switch_fuel _ (S (String.length more)))
    by (rewrite ?length_line; lia).
  destruct (ReadFile_switch _ _ _ _ _) as [[b c']| | |] eqn:E; cbn [bind]; try reflexivity.
  apply ReadFile_switch_rest in E.
  apply ReadFile_loop_fuel; rewrite ?length_line; lia.
Qed.

Lemma ReadFile_all_end (cuesheet : Cuesheet) : ReadFile_all EmptyString cuesheet = Ok cuesheet.
Proof. reflexivity. Qed.

(** *** What is written for a field, and how it is read *)

Lemma raw_ok_solid (s : string) :
  ContainsByte s LF = false -> last_solid s = true -> raw_ok s = true.
Proof. intros H1 H2. unfold raw_ok. rewrite H1, H2, orb_true_r. reflexivity. Qed.

Lemma bare_raw_ok (s : string) : bare s = true -> raw_ok s = true.
Proof.
  intros H. apply raw_ok_solid; [apply bare_no_LF, H|].
  destruct (bare_inv s H) as (c & r & E & _ & Hd & _).
  apply last_solid_nodelim; [rewrite E; reflexivity | exact Hd].
Qed.

Lemma raw_ok_append (a b : string) :
  ContainsByte a LF = false -> raw_ok b = true -> b <> EmptyString ->
  raw_ok (a ++ b) = true.
Proof.
  intros Ha Hb Hne. unfold raw_ok in Hb. apply andb_true_iff in Hb as [H1 H2].
  apply negb_true_iff in H1. apply orb_true_iff in H2 as [H2|H2].
  - apply String.eqb_eq in H2. contradiction.
  - apply raw_ok_solid; [rewrite ContainsByte_append, Ha, H1; reflexivity|].
    apply last_solid_append, H2.
Qed.

Lemma field_ok_inv (v : string) :
  field_ok v = true -> nonempty v = true ->
  ContainsByte v LF = false /\
  ((FormatString v = quote v DQUOTE /\ all_bytes (unescaped DQUOTE) v = true) \/
   (FormatString v = v /\ bare v = true)).
Proof.
  unfold field_ok, FormatString, bare. intros H Hn.
  apply andb_true_iff in H as [H1 H2]. apply negb_true_iff in H1.
  split; [exact H1|].
  destruct (ContainsAny v delims).
  - left. split; [reflexivity | exact H2].
  - right. split; [reflexivity|]. rewrite Hn, H2. reflexivity.
Qed.

Lemma quote_clean (v : string) :
  all_bytes (unescaped DQUOTE) v = true -> quote v DQUOTE = quoted v.
Proof. intros H. unfold quote, quoted. rewrite (quote_body_clean _ _ H). reflexivity. Qed.

Lemma quoted_raw_ok (v : string) : ContainsByte v LF = false -> raw_ok (quoted v) = true.
Proof.
  intros H. unfold quoted. apply raw_ok_solid.
  - cbn [ContainsByte]. rewrite ContainsByte_append, H. reflexivity.
  - apply (last_solid_append (String DQUOTE v) (String DQUOTE EmptyString)). reflexivity.
Qed.

Lemma FormatString_raw_ok (v : string) :
  field_ok v = true -> nonempty v = true -> raw_ok (FormatString v) = true.
Proof.
  intros H Hn. destruct (field_ok_inv v H Hn) as [HL [[-> Hc]|[-> Hb]]].
  - rewrite (quote_clean v Hc). apply quoted_raw_ok, HL.
  - apply bare_raw_ok, Hb.
Qed.

Lemma FormatString_not_empty (v : string) :
  nonempty v = true -> FormatString v <> EmptyString.
Proof.
  unfold FormatString. destruct (ContainsAny v delims); [discriminate|].
  destruct v; [discriminate | discriminate].
Qed.

Lemma ReadString_FormatString (v : string) :
  field_ok v = true -> nonempty v = true ->
  ReadString (FormatString v) = Ok (v, EmptyString).
Proof.
  intros H Hn. destruct (field_ok_inv v H Hn) as [HL [[-> Hc]|[-> Hb]]].
  - rewrite <- (append_empty_r (quote v DQUOTE)). apply ReadString_quoted, Hc.
  - apply ReadString_bare, Hb.
Qed.

Lemma ReadString_skip_space (s : string) : ReadString (String SP s) = ReadString s.
Proof. reflexivity. Qed.

(** The two fields of a FILE line. *)
Lemma ReadString_file_args (name type : string) :
  field_ok name = true -> nonempty name = true -> bare type = true ->
  exists line,
    ReadString (FormatString name ++ " " ++ type) = Ok (name, line) /\
    ReadString line = Ok (type, EmptyString).
Proof.
  intros H Hn Ht. destruct (field_ok_inv name H Hn) as [HL [[-> Hc]|[-> Hb]]].
  - exists (String SP type). split; [apply ReadString_quoted, Hc|].
    rewrite ReadString_skip_space. apply ReadString_bare, Ht.
  - exists type. split; [apply (ReadString_bare_space name type Hb)|].
    apply ReadString_bare, Ht.
Qed.

Lemma file_args_raw_ok (name type : string) :
  field_ok name = true -> nonempty name = true -> bare type = true ->
  raw_ok (FormatString name ++ " " ++ type) = true.
Proof.
  intros H Hn Ht.
  pose proof (raw_ok_no_LF _ (FormatString_raw_ok name H Hn)) as HL.
  apply raw_ok_append; [exact HL|apply raw_ok_append; [reflexivity|apply bare_raw_ok, Ht|]|].
  - destruct (bare_inv type Ht) as (c & r & -> & _). discriminate.
  - discriminate.
Qed.

Lemma FormatFrame_raw_ok (f : N) : raw_ok (FormatFrame f) = true.
Proof. rewrite FormatFrame_msf. apply bare_raw_ok, msf_bare. Qed.

Lemma ReadFrame_FormatFrame_ok (f : N) :
  frame_ok f = true -> ReadFrame (FormatFrame f) = Ok (f, EmptyString).
Proof.
  intros H. apply N.ltb_lt in H.
  rewrite ReadFrame_FormatFrame_mod, N.mod_small by exact H. reflexivity.
Qed.

Lemma ReadUint_FormatTrackNumber (n : N) (rest : string) :
  (n < 100)%N -> ReadUint (FormatTrackNumber n ++ " " ++ rest) = Ok (n, rest).
Proof.
  intros H. unfold ReadUint. rewrite FormatTrackNumber_pad2.
  change (" " ++ rest) with (String SP rest).
  rewrite (ReadString_bare_space (pad2 n) rest (pad2_bare n)). cbn [bind].
  rewrite ParseUint_pad2, N.mod_small by exact H. reflexivity.
Qed.

Lemma number_args_raw_ok (n : N) (rest : string) :
  raw_ok rest = true -> rest <> EmptyString ->
  raw_ok (FormatTrackNumber n ++ " " ++ rest) = true.
Proof.
  intros H Hne. rewrite FormatTrackNumber_pad2.
  apply raw_ok_append; [apply bare_no_LF, pad2_bare|
                        apply raw_ok_append; [reflexivity | exact H | exact Hne] |].
  discriminate.
Qed.

(** *** Flags *)

Lemma flags_ok_cases (flags : Z) :
  flags_ok flags = true ->
  In flags [0; 2; 4; 6; 8; 10; 12; 14; 16; 18; 20; 22; 24; 26; 28; 30]%Z.
Proof.
  unfold flags_ok. intros H. apply Z.eqb_eq in H.
  change (Z.lor Dcp (Z.lor Four_ch (Z.lor Pre Scms))) with 30%Z in H.
  assert (H0 : (0 <= flags)%Z).
  { rewrite <- H. apply Z.land_nonneg. right. lia. }
  assert (H1 : (flags < 32)%Z).
  { destruct (Z.eq_dec flags 0) as [->|Hz]; [lia|].
    apply (Z.log2_lt_pow2 flags 5); [lia|].
    rewrite <- H.
    pose proof (Z.log2_land flags 30 H0 ltac:(lia)) as HL.
    change (Z.log2 30) with 4%Z in HL. lia. }
  destruct flags as [|p|p]; [simpl; tauto | | lia].
  repeat (match goal with q : positive |- _ => destruct q as [q|q|]; try lia end);
    try discriminate H; simpl; tauto.
Qed.

(** *** The text that [WriteFile] writes *)

Lemma write_if_opt (cond : bool) (ws s : string) : write_if cond ws s = ws ++ opt cond s.
Proof. destruct cond; cbn [write_if opt]; [reflexivity | now rewrite append_empty_r]. Qed.

Lemma fold_left_write {A : Type} (w : string -> A -> string) (text : A -> string)
    (l : list A) (ws : string) :
  (forall ws a, w ws a = ws ++ text a) ->
  fold_left w l ws = ws ++ flat (map text l).
Proof.
  intros H. revert ws. induction l as [|a l IH]; intros ws; cbn [fold_left map flat].
  - now rewrite append_empty_r.
  - rewrite IH, H, append_assoc. reflexivity.
Qed.

Lemma WriteFile_flags_text (ws : string) (flags : Z) :
  WriteFile_flags ws flags = ws ++ flags_text flags.
Proof.
  unfold flags_text, WriteFile_flags. destruct (flags =? None_)%Z.
  - now rewrite append_empty_r.
  - rewrite !write_if_opt. unfold WriteString. cbn [append].
    rewrite !append_assoc. reflexivity.
Qed.

Lemma WriteFile_index_text (ws : string) (i : TrackIndex) :
  WriteFile_index ws i = ws ++ index_text i.
Proof.
  unfold WriteFile_index, index_text, line, WriteString.
  rewrite !append_assoc. reflexivity.
Qed.

Lemma WriteFile_track_text (ws : string) (t : Track) :
  WriteFile_track ws t = ws ++ track_text t.
Proof.
  unfold WriteFile_track.
  rewrite (fold_left_write WriteFile_index index_text _ _ WriteFile_index_text).
  rewrite !write_if_opt, WriteFile_flags_text. unfold WriteString.
  unfold track_text, details_text, line.
  rewrite !append_assoc. reflexivity.
Qed.

Lemma WriteFile_file_text (ws : string) (f : File) :
  WriteFile_file ws f = ws ++ file_text f.
Proof.
  unfold WriteFile_file.
  rewrite (fold_left_write WriteFile_track track_text _ _ WriteFile_track_text).
  unfold WriteString, file_text, line. rewrite !append_assoc. reflexivity.
Qed.

Lemma WriteFile_text (c : Cuesheet) : WriteFile c = sheet_text c.
Proof.
  unfold WriteFile.
  rewrite (fold_left_write WriteFile_file file_text _ _ WriteFile_file_text).
  rewrite !write_if_opt.
  rewrite (fold_left_write (fun ws rem => WriteString ws ("REM " ++ rem ++ eol))
             (fun rem => line EmptyString "REM" rem))
    by (intros ws a; reflexivity).
  unfold sheet_text. cbn [append]. rewrite !append_assoc. reflexivity.
Qed.

(** *** Reading the lines of a track *)

Lemma readTrack_all_cmd (cmd args more : string) (track : Track) :
  bare cmd = true -> raw_ok args = true ->
  readTrack_all (line "    " cmd args ++ more) track =
  r <- readTrack_switch cmd args track ;;
  match r with
  | Continue track' => readTrack_all more track'
  | Break track' => Ok (more, track')
  end.
Proof.
  intros Hc Ha. unfold line. rewrite !append_assoc.
  apply readTrack_all_command; assumption.
Qed.

Lemma nonempty_false (v : string) : nonempty v = false -> v = EmptyString.
Proof. destruct v; [reflexivity | discriminate]. Qed.

Lemma track_step_string (cmd v more : string) (set : string -> Track -> Track)
    (a : Track) :
  bare cmd = true ->
  (forall args, readTrack_switch cmd args a =
                '(x, _) <- ReadString args ;; Ok (Continue (set x a))) ->
  set EmptyString a = a ->
  field_ok v = true ->
  readTrack_all (opt (nonempty v) (line "    " cmd (FormatString v)) ++ more) a =
  readTrack_all more (set v a).
Proof.
  intros Hc Hsw Hset Hv. destruct (nonempty v) eqn:Hn; cbn [opt].
  - rewrite readTrack_all_cmd by (try apply FormatString_raw_ok; assumption).
    rewrite Hsw, (ReadString_FormatString v Hv Hn). reflexivity.
  - apply nonempty_false in Hn. subst v. rewrite Hset. reflexivity.
Qed.

Lemma track_step_frame (cmd : string) (f : N) (more : string)
    (set : N -> Track -> Track) (a : Track) :
  bare cmd = true ->
  (forall args, readTrack_switch cmd args a =
                '(x, _) <- ReadFrame args ;; Ok (Continue (set x a))) ->
  set 0%N a = a ->
  frame_ok f = true ->
  readTrack_all (opt (0 <? f)%N (line "    " cmd (FormatFrame f)) ++ more) a =
  readTrack_all more (set f a).
Proof.
  intros Hc Hsw Hset Hf. destruct (0 <? f)%N eqn:Hn; cbn [opt].
  - rewrite readTrack_all_cmd by (try apply FormatFrame_raw_ok; assumption).
    rewrite Hsw, (ReadFrame_FormatFrame_ok f Hf). reflexivity.
  - apply N.ltb_ge in Hn. assert (f = 0%N) by lia. subst f. rewrite Hset. reflexivity.
Qed.

Lemma track_step_isrc (v more : string) (a : Track) :
  set_Track_Isrc EmptyString a = a ->
  raw_ok v = true ->
  readTrack_all (opt (nonempty v) (line "    " "ISRC" v) ++ more) a =
  readTrack_all more (set_Track_Isrc v a).
Proof.
  intros Hset Hv. destruct (nonempty v) eqn:Hn; cbn [opt].
  - rewrite readTrack_all_cmd by (try reflexivity; assumption). reflexivity.
  - apply nonempty_false in Hn. subst v. rewrite Hset. reflexivity.
Qed.

Lemma track_step_flags (flags : Z) (more : string) (a : Track) :
  set_Track_Flags 0%Z a = a ->
  flags_ok flags = true ->
  readTrack_all (flags_text flags ++ more) a =
  readTrack_all more (set_Track_Flags flags a).
Proof.
  intros Hset Hf. apply flags_ok_cases in Hf. cbn [In] in Hf.
  destruct Hf as [<-|Hf]; [rewrite Hset; reflexivity|].
  assert (H : flags_text flags = line "    " "FLAGS" (flags_args flags) /\
              raw_ok (flags_args flags) = true /\
              readTrack_flags (S (String.length (flags_args flags))) (flags_args flags)
                None_ = Ok flags).
  { repeat (destruct Hf as [<-|Hf]; [repeat split|]). contradiction. }
  destruct H as (-> & Hr & Hfl).
  rewrite readTrack_all_cmd by (try reflexivity; assumption).
  change (readTrack_switch "FLAGS" (flags_args flags) a)
    with (fl <- readTrack_flags (S (String.length (flags_args flags))) (flags_args flags)
                  None_ ;;
          Ok (Continue (set_Track_Flags fl a))).
  rewrite Hfl. reflexivity.
Qed.

Lemma set_Track_Index_twice (x y : list TrackIndex) (a : Track) :
  set_Track_Index x (set_Track_Index y a) = set_Track_Index x a.
Proof. reflexivity. Qed.

Lemma set_Track_Index_same (a : Track) : set_Track_Index (Track_Index a) a = a.
Proof. destruct a; reflexivity. Qed.

Lemma readTrack_switch_INDEX (args : string) (a : Track) :
  readTrack_switch "INDEX" args a =
  '(num, l) <- ReadUint args ;;
  '(frame, _) <- ReadFrame l ;;
  Ok (Continue (set_Track_Index (Track_Index a ++ [Build_TrackIndex num frame]) a)).
Proof. reflexivity. Qed.

Lemma track_step_indexes (ix : list TrackIndex) (more : string) (a : Track) :
  forallb index_rt ix = true ->
  readTrack_all (flat (map index_text ix) ++ more) a =
  readTrack_all more (set_Track_Index (Track_Index a ++ ix) a).
Proof.
  revert a. induction ix as [|i ix IH]; intros a H; cbn [map flat].
  - rewrite app_nil_r, set_Track_Index_same. reflexivity.
  - cbn [forallb] in H. apply andb_true_iff in H as [Hi Hix].
    unfold index_rt in Hi. apply andb_true_iff in Hi as [Hn Hf]. apply N.ltb_lt in Hn.
    rewrite append_assoc. unfold index_text at 1.
    rewrite readTrack_all_cmd;
      [| reflexivity
       | apply number_args_raw_ok; [apply FormatFrame_raw_ok|];
         rewrite FormatFrame_msf; unfold msf, pad2; discriminate ].
    rewrite readTrack_switch_INDEX.
    rewrite (ReadUint_FormatTrackNumber _ _ Hn). cbn [bind].
    rewrite (ReadFrame_FormatFrame_ok _ Hf). cbn [bind].
    rewrite (IH _ Hix). destruct i as [n f]. destruct a. cbn.
    rewrite <- app_assoc. reflexivity.
Qed.

Ltac split_andb H :=
  repeat match type of H with
  | (_ && _) = true =>
      let H' := fresh "H" in apply andb_true_iff in H as [H H']
  end.

Ltac norm_track :=
  cbv beta iota delta
      [set_Track_TrackNumber set_Track_TrackDataType set_Track_Flags set_Track_Isrc
       set_Track_Title set_Track_Performer set_Track_SongWriter set_Track_Composer
       set_Track_Arranger set_Track_Message set_Track_Pregap set_Track_Postgap
       set_Track_Index
       Track_TrackNumber Track_TrackDataType Track_Flags Track_Isrc Track_Title
       Track_Performer Track_SongWriter Track_Composer Track_Arranger Track_Message
       Track_Pregap Track_Postgap Track_Index].

Ltac switch_eq :=
  intros; unfold readTrack_switch, ReadFile_switch;
  cbn [String.eqb Ascii.eqb Bool.eqb]; reflexivity.

(** The lines of a track, read after its TRACK line. *)
Lemma readTrack_details (t : Track) (rest : string) :
  track_rt t = true -> scope_end "    " rest ->
  readTrack_all (details_text t ++ rest)
    (set_Track_TrackDataType (Track_TrackDataType t)
       (set_Track_TrackNumber (Track_TrackNumber t) Track_zero)) = Ok (rest, t).
Proof.
  intros H Hrest. unfold track_rt in H. split_andb H.
  destruct t as [n ty fl isrc ti pe so co ar me pg po ix].
  cbn [Track_TrackNumber Track_TrackDataType Track_Flags Track_Isrc Track_Title
       Track_Performer Track_SongWriter Track_Composer Track_Arranger Track_Message
       Track_Pregap Track_Postgap Track_Index] in *.
  unfold details_text.
  cbn [Track_TrackNumber Track_TrackDataType Track_Flags Track_Isrc Track_Title
       Track_Performer Track_SongWriter Track_Composer Track_Arranger Track_Message
       Track_Pregap Track_Postgap Track_Index].
  unfold Track_zero. norm_track. rewrite !append_assoc.
  rewrite track_step_flags by (try reflexivity; assumption).
  norm_track.
  rewrite track_step_isrc by (try reflexivity; assumption).
  norm_track.
  rewrite (track_step_string "TITLE" ti _ set_Track_Title)
    by (first [assumption | switch_eq]).
  norm_track.
  rewrite (track_step_string "PERFORMER" pe _ set_Track_Performer)
    by (first [assumption | switch_eq]).
  norm_track.
  rewrite (track_step_string "SONGWRITER" so _ set_Track_SongWriter)
    by (first [assumption | switch_eq]).
  norm_track.
  rewrite (track_step_string "COMPOSER" co _ set_Track_Composer)
    by (first [assumption | switch_eq]).
  norm_track.
  rewrite (track_step_string "ARRANGER" ar _ set_Track_Arranger)
    by (first [assumption | switch_eq]).
  norm_track.
  rewrite (track_step_string "MESSAGE" me _ set_Track_Message)
    by (first [assumption | switch_eq]).
  norm_track.
  rewrite (track_step_frame "PREGAP" pg _ set_Track_Pregap)
    by (first [assumption | switch_eq]).
  norm_track.
  rewrite (track_step_frame "POSTGAP" po _ set_Track_Postgap)
    by (first [assumption | switch_eq]).
  norm_track.
  rewrite track_step_indexes by assumption.
  norm_track.
  rewrite (readTrack_all_end rest _ Hrest). reflexivity.
Qed.

(** A TRACK line and a FILE line end the scope of a track; a FILE line ends
    the scope of a file. *)
Lemma scope_end_track_line (args more : string) :
  raw_ok args = true -> scope_end "    " (line "  " "TRACK" args ++ more).
Proof.
  intros Ha. right. exists ("  TRACK " ++ args), more.
  split; [unfold line; rewrite !append_assoc; reflexivity|].
  split; [apply (command_line_no_LF "  " "TRACK" args eq_refl eq_refl Ha) | reflexivity].
Qed.

Lemma scope_end_file_line (p args more : string) :
  raw_ok args = true -> p = "  " \/ p = "    " ->
  scope_end p (line EmptyString "FILE" args ++ more).
Proof.
  intros Ha Hp. right. exists ("FILE " ++ args), more.
  split; [unfold line; rewrite !append_assoc; reflexivity|].
  split; [apply (command_line_no_LF EmptyString "FILE" args eq_refl eq_refl Ha)|].
  destruct Hp as [->| ->]; reflexivity.
Qed.

Lemma track_args_raw_ok (t : Track) :
  track_rt t = true ->
  raw_ok (FormatTrackNumber (Track_TrackNumber t) ++ " " ++ Track_TrackDataType t) = true.
Proof.
  intros H. unfold track_rt in H. split_andb H.
  apply number_args_raw_ok; [apply bare_raw_ok; assumption|].
  match goal with Hb : bare _ = true |- _ =>
    destruct (bare_inv _ Hb) as (c & r & -> & _) end.
  discriminate.
Qed.

Lemma file_rt_args_raw_ok (f : File) :
  file_rt f = true ->
  raw_ok (FormatString (File_FileName f) ++ " " ++ File_FileType f) = true.
Proof.
  intros H. unfold file_rt in H. split_andb H. apply file_args_raw_ok; assumption.
Qed.

Lemma scope_end_tracks (ts : list Track) (rest : string) :
  forallb track_rt ts = true -> scope_end "    " rest ->
  scope_end "    " (flat (map track_text ts) ++ rest).
Proof.
  destruct ts as [|t ts]; intros H Hrest; [exact Hrest|].
  cbn [forallb] in H. apply andb_true_iff in H as [Ht _].
  cbn [map flat]. rewrite (append_assoc (track_text t)). unfold track_text at 1.
  rewrite (append_assoc (line _ _ _)).
  apply scope_end_track_line, track_args_raw_ok, Ht.
Qed.

Lemma scope_end_files (p : string) (fs : list File) :
  forallb file_rt fs = true -> p = "  " \/ p = "    " ->
  scope_end p (flat (map file_text fs)).
Proof.
  destruct fs as [|f fs]; intros H Hp; [left; reflexivity|].
  cbn [forallb] in H. apply andb_true_iff in H as [Hf _].
  cbn [map flat]. unfold file_text at 1. rewrite (append_assoc (line _ _ _)).
  apply scope_end_file_line; [apply file_rt_args_raw_ok, Hf | exact Hp].
Qed.

Lemma readTracks_all_cmd (args more : string) (tracks : list Track) :
  raw_ok args = true ->
  readTracks_all (line "  " "TRACK" args ++ more) tracks =
  '(num, l) <- ReadUint args ;;
  '(v, _) <- ReadString l ;;
  '(b, track) <- readTrack_all more
                   (set_Track_TrackDataType v (set_Track_TrackNumber num Track_zero)) ;;
  readTracks_all b (tracks ++ [track])%list.
Proof.
  intros Ha. unfold line. rewrite !append_assoc. apply readTracks_all_track, Ha.
Qed.

(** The tracks of a file, read after its FILE line. *)
Lemma readTracks_all_tracks (ts : list Track) (rest : string) (acc : list Track) :
  forallb track_rt ts = true -> scope_end "  " rest -> scope_end "    " rest ->
  readTracks_all (flat (map track_text ts) ++ rest) acc = Ok (rest, (acc ++ ts)%list).
Proof.
  intros H H2 H4. revert acc H.
  induction ts as [|t ts IH]; intros acc H.
  - cbn [map flat append]. rewrite app_nil_r. apply readTracks_all_end, H2.
  - cbn [forallb] in H. apply andb_true_iff in H as [Ht Hts].
    cbn [map flat]. rewrite (append_assoc (track_text t)). unfold track_text at 1.
    rewrite (append_assoc (line _ _ _)).
    pose proof (track_args_raw_ok t Ht) as Hargs.
    rewrite (readTracks_all_cmd _ _ acc Hargs).
    pose proof Ht as Ht'. unfold track_rt in Ht'. split_andb Ht'.
    rewrite ReadUint_FormatTrackNumber
      by (match goal with Hn : (_ <? 100)%N = true |- _ => apply N.ltb_lt, Hn end).
    cbn [bind].
    rewrite ReadString_bare by assumption. cbn [bind].
    rewrite (readTrack_details t _ Ht (scope_end_tracks ts rest Hts H4)). cbn [bind].
    rewrite (IH _ Hts), <- app_assoc. reflexivity.
Qed.

(** *** Reading the lines of the sheet *)

Ltac norm_sheet :=
  cbv beta iota delta
      [set_Cuesheet_Rem set_Cuesheet_Catalog set_Cuesheet_CdTextFile set_Cuesheet_Title
       set_Cuesheet_Performer set_Cuesheet_SongWriter set_Cuesheet_Composer
       set_Cuesheet_Arranger set_Cuesheet_Message set_Cuesheet_Genre set_Cuesheet_DiscId
       set_Cuesheet_UpcEan set_Cuesheet_Pregap set_Cuesheet_Postgap set_Cuesheet_File
       Cuesheet_Rem Cuesheet_Catalog Cuesheet_CdTextFile Cuesheet_Title
       Cuesheet_Performer Cuesheet_SongWriter Cuesheet_Composer Cuesheet_Arranger
       Cuesheet_Message Cuesheet_Genre Cuesheet_DiscId Cuesheet_UpcEan Cuesheet_Pregap
       Cuesheet_Postgap Cuesheet_File].

Lemma ReadFile_all_cmd (cmd args more : string) (cuesheet : Cuesheet) :
  bare cmd = true -> raw_ok args = true ->
  ReadFile_all (line EmptyString cmd args ++ more) cuesheet =
  '(b, cuesheet') <- ReadFile_switch (S (String.length more)) cmd args more cuesheet ;;
  ReadFile_all b cuesheet'.
Proof.
  intros Hc Ha. unfold line. rewrite !append_assoc.
  apply ReadFile_all_command; assumption.
Qed.

Lemma sheet_step_string (cmd v more : string) (set : string -> Cuesheet -> Cuesheet)
    (c : Cuesheet) :
  bare cmd = true ->
  (forall fuel args b, ReadFile_switch fuel cmd args b c =
                       '(x, _) <- ReadString args ;; Ok (b, set x c)) ->
  set EmptyString c = c ->
  field_ok v = true ->
  ReadFile_all (opt (nonempty v) (line EmptyString cmd (FormatString v)) ++ more) c =
  ReadFile_all more (set v c).
Proof.
  intros Hc Hsw Hset Hv. destruct (nonempty v) eqn:Hn; cbn [opt].
  - rewrite ReadFile_all_cmd by (try apply FormatString_raw_ok; assumption).
    rewrite Hsw, (ReadString_FormatString v Hv Hn). reflexivity.
  - apply nonempty_false in Hn. subst v. rewrite Hset. reflexivity.
Qed.

Lemma sheet_step_frame (cmd : string) (f : N) (more : string)
    (set : N -> Cuesheet -> Cuesheet) (c : Cuesheet) :
  bare cmd = true ->
  (forall fuel args b, ReadFile_switch fuel cmd args b c =
                       '(x, _) <- ReadFrame args ;; Ok (b, set x c)) ->
  set 0%N c = c ->
  frame_ok f = true ->
  ReadFile_all (opt (0 <? f)%N (line EmptyString cmd (FormatFrame f)) ++ more) c =
  ReadFile_all more (set f c).
Proof.
  intros Hc Hsw Hset Hf. destruct (0 <? f)%N eqn:Hn; cbn [opt].
  - rewrite ReadFile_all_cmd by (try apply FormatFrame_raw_ok; assumption).
    rewrite Hsw, (ReadFrame_FormatFrame_ok f Hf). reflexivity.
  - apply N.ltb_ge in Hn. assert (f = 0%N) by lia. subst f. rewrite Hset. reflexivity.
Qed.

Lemma sheet_step_catalog (v more : string) (c : Cuesheet) :
  set_Cuesheet_Catalog EmptyString c = c ->
  raw_ok v = true ->
  ReadFile_all (opt (nonempty v) (line EmptyString "CATALOG" v) ++ more) c =
  ReadFile_all more (set_Cuesheet_Catalog v c).
Proof.
  intros Hset Hv. destruct (nonempty v) eqn:Hn; cbn [opt].
  - rewrite ReadFile_all_cmd by (try reflexivity; assumption). reflexivity.
  - apply nonempty_false in Hn. subst v. rewrite Hset. reflexivity.
Qed.

Lemma set_Cuesheet_Rem_same (c : Cuesheet) : set_Cuesheet_Rem (Cuesheet_Rem c) c = c.
Proof. destruct c; reflexivity. Qed.

Lemma set_Cuesheet_File_same (c : Cuesheet) : set_Cuesheet_File (Cuesheet_File c) c = c.
Proof. destruct c; reflexivity. Qed.

Lemma sheet_step_rems (rems : list string) (more : string) (c : Cuesheet) :
  forallb raw_ok rems = true ->
  ReadFile_all (flat (map (fun rem => line EmptyString "REM" rem) rems) ++ more) c =
  ReadFile_all more (set_Cuesheet_Rem (Cuesheet_Rem c ++ rems) c).
Proof.
  revert c. induction rems as [|r rems IH]; intros c H; cbn [map flat].
  - rewrite app_nil_r, set_Cuesheet_Rem_same. reflexivity.
  - cbn [forallb] in H. apply andb_true_iff in H as [Hr Hrems].
    rewrite append_assoc.
    rewrite ReadFile_all_cmd by (try reflexivity; assumption).
    change (ReadFile_switch (S (String.length (flat (map (fun rem => line EmptyString "REM" rem) rems) ++ more)))
              "REM" r (flat (map (fun rem => line EmptyString "REM" rem) rems) ++ more) c)
      with (Ok (flat (map (fun rem => line EmptyString "REM" rem) rems) ++ more,
                set_Cuesheet_Rem (Cuesheet_Rem c ++ [r]) c)).
    cbn [bind]. rewrite (IH _ Hrems). destruct c. norm_sheet.
    rewrite <- app_assoc. reflexivity.
Qed.

Lemma ReadFile_switch_FILE (fuel : nat) (args b : string) (c : Cuesheet) :
  ReadFile_switch fuel "FILE" args b c =
  '(fname, l) <- ReadString args ;;
  '(ftype, _) <- ReadString l ;;
  '(b', tracks) <- readTracks_loop fuel b [] ;;
  Ok (b', set_Cuesheet_File (Cuesheet_File c ++ [Build_File fname ftype tracks]) c).
Proof. reflexivity. Qed.

(** The files of a sheet, at the end of its text. *)
Lemma ReadFile_all_files (fs : list File) (c : Cuesheet) :
  forallb file_rt fs = true ->
  ReadFile_all (flat (map file_text fs)) c =
  Ok (set_Cuesheet_File (Cuesheet_File c ++ fs) c).
Proof.
  revert c. induction fs as [|f fs IH]; intros c H; cbn [map flat].
  - rewrite app_nil_r, set_Cuesheet_File_same. reflexivity.
  - cbn [forallb] in H. apply andb_true_iff in H as [Hf Hfs].
    unfold file_text at 1. rewrite (append_assoc (line _ _ _)).
    rewrite ReadFile_all_cmd by (try reflexivity; apply file_rt_args_raw_ok, Hf).
    rewrite ReadFile_switch_FILE.
    pose proof Hf as Hf'. unfold file_rt in Hf'. split_andb Hf'.
    destruct (ReadString_file_args (File_FileName f) (File_FileType f))
      as (l & E1 & E2); try assumption.
    rewrite E1. cbn [bind]. rewrite E2. cbn [bind].
    fold (readTracks_all (flat (map track_text (File_Tracks f)) ++ flat (map file_text fs)) []).
    rewrite readTracks_all_tracks;
      [| assumption | apply scope_end_files; [exact Hfs | left; reflexivity]
       | apply scope_end_files; [exact Hfs | right; reflexivity] ].
    cbn [bind app]. rewrite (IH _ Hfs). destruct f, c. norm_sheet.
    rewrite <- app_assoc. reflexivity.
Qed.

(** The text of a sheet, read from the start. *)
Lemma ReadFile_sheet_text (c : Cuesheet) :
  sheet_rt c = true -> ReadFile_all (sheet_text c) Cuesheet_zero = Ok c.
Proof.
  intros H. unfold sheet_rt in H. split_andb H.
  destruct c as [rem cat cdt ti pe so co ar me ge di up pg po fs].
  norm_sheet. unfold sheet_text. norm_sheet. unfold Cuesheet_zero.
  rewrite sheet_step_rems by assumption. norm_sheet.
  rewrite sheet_step_catalog by (first [assumption | reflexivity]). norm_sheet.
  rewrite (sheet_step_string "CDTEXTFILE" cdt _ set_Cuesheet_CdTextFile)
    by (first [assumption | switch_eq]).
  norm_sheet.
  rewrite (sheet_step_string "TITLE" ti _ set_Cuesheet_Title)
    by (first [assumption | switch_eq]).
  norm_sheet.
  rewrite (sheet_step_string "PERFORMER" pe _ set_Cuesheet_Performer)
    by (first [assumption | switch_eq]).
  norm_sheet.
  rewrite (sheet_step_string "SONGWRITER" so _ set_Cuesheet_SongWriter)
    by (first [assumption | switch_eq]).
  norm_sheet.
  rewrite (sheet_step_string "COMPOSER" co _ set_Cuesheet_Composer)
    by (first [assumption | switch_eq]).
  norm_sheet.
  rewrite (sheet_step_string "ARRANGER" ar _ set_Cuesheet_Arranger)
    by (first [assumption | switch_eq]).
  norm_sheet.
  rewrite (sheet_step_string "MESSAGE" me _ set_Cuesheet_Message)
    by (first [assumption | switch_eq]).
  norm_sheet.
  rewrite (sheet_step_string "GENRE" ge _ set_Cuesheet_Genre)
    by (first [assumption | switch_eq]).
  norm_sheet.
  rewrite (sheet_step_string "DISC_ID" di _ set_Cuesheet_DiscId)
    by (first [assumption | switch_eq]).
  norm_sheet.
  rewrite (sheet_step_string "UPC_EAN" up _ set_Cuesheet_UpcEan)
    by (first [assumption | switch_eq]).
  norm_sheet.
  rewrite (sheet_step_frame "PREGAP" pg _ set_Cuesheet_Pregap)
    by (first [assumption | switch_eq]).
  norm_sheet.
  rewrite (sheet_step_frame "POSTGAP" po _ set_Cuesheet_Postgap)
    by (first [assumption | switch_eq]).
  norm_sheet.
  rewrite ReadFile_all_files by assumption. reflexivity.
Qed.

(** [ReadFile] reads back what [WriteFile] writes for a sheet that meets
    [sheet_rt]. *)
Lemma ReadFile_WriteFile_rt (c : Cuesheet) :
  sheet_rt c = true -> ReadFile (WriteFile c) = Ok c.
Proof.
  intros H. rewrite WriteFile_text. apply (ReadFile_sheet_text c H).
Qed.

(** *** Sheets that [Validate] accepts *)

Lemma Track_Validate_index_fold (ix : list TrackIndex) (h : bool) (errs : list error) :
  fold_left Track_Validate_index ix (h, errs) =
  (h || existsb (fun i => (TrackIndex_Number i =? 1)%N) ix,
   (errs ++ flat_map (fun i => if (99 <? TrackIndex_Number i)%N then [ErrRange] else [])
              ix)%list).
Proof.
  revert h errs. induction ix as [|i ix IH]; intros h errs; cbn [fold_left existsb flat_map].
  - rewrite orb_false_r, app_nil_r. reflexivity.
  - cbn [Track_Validate_index]. rewrite IH. f_equal.
    + destruct (TrackIndex_Number i =? 1)%N, h; reflexivity.
    + destruct (99 <? TrackIndex_Number i)%N; rewrite <- ?app_assoc; reflexivity.
Qed.

Lemma flat_map_nil {A B : Type} (f : A -> list B) (l : list A) :
  flat_map f l = [] -> forall a, In a l -> f a = [].
Proof.
  induction l as [|x l IH]; cbn [flat_map]; intros H a Ha; [destruct Ha|].
  apply app_eq_nil in H as [Hx Hl].
  destruct Ha as [<-|Ha]; [exact Hx | apply IH; assumption].
Qed.

Lemma isDigit_no_delim (c : ascii) : isDigit c = true -> ContainsByte delims c = false.
Proof. intros H. apply (isDigit_plain c H). Qed.

Lemma isAlphaNum_no_delim (c : ascii) :
  isAlphaNum c = true -> ContainsByte delims c = false.
Proof.
  destruct c as [[] [] [] [] [] [] [] []]; intros H;
    solve [ discriminate H | reflexivity ].
Qed.

Lemma all_bytes_raw_ok (p : ascii -> bool) (s : string) :
  (forall c, p c = true -> ContainsByte delims c = false) ->
  all_bytes p s = true -> raw_ok s = true.
Proof.
  intros Hp Hs. destruct s as [|c s]; [reflexivity|].
  assert (Hd : ContainsAny (String c s) delims = false).
  { rewrite ContainsAny_all_bytes. apply negb_false_iff.
    revert Hs. apply all_bytes_impl. intros a Ha. rewrite (Hp a Ha). reflexivity. }
  apply raw_ok_solid.
  - rewrite ContainsByte_all_bytes. apply negb_false_iff.
    revert Hs. apply all_bytes_impl. intros a Ha.
    apply negb_true_iff, ContainsByte_delims_LF, Hp, Ha.
  - apply last_solid_nodelim; [reflexivity | exact Hd].
Qed.

Lemma ValidateCatalog_raw_ok (s : string) : ValidateCatalog s = None -> raw_ok s = true.
Proof.
  unfold ValidateCatalog. destruct (negb _); [discriminate|].
  destruct (all_bytes isDigit s) eqn:H; [|discriminate].
  intros _. apply (all_bytes_raw_ok isDigit s isDigit_no_delim H).
Qed.

Lemma isLetter_isAlphaNum (c : ascii) : isLetter c = true -> isAlphaNum c = true.
Proof. unfold isAlphaNum. intros ->. reflexivity. Qed.

Lemma isDigit_isAlphaNum (c : ascii) : isDigit c = true -> isAlphaNum c = true.
Proof. unfold isAlphaNum. intros ->. apply orb_true_r. Qed.

Lemma ValidateISRC_raw_ok (s : string) : ValidateISRC s = None -> raw_ok s = true.
Proof.
  unfold ValidateISRC.
  destruct (negb (String.length s =? 12)%nat) eqn:HL; [discriminate|].
  apply negb_false_iff, Nat.eqb_eq in HL.
  do 12 (destruct s as [|? s]; [discriminate HL|]).
  destruct s; [|discriminate HL]. clear HL.
  cbn [seq forallb byte_at String.get].
  intros H.
  repeat match type of H with
  | context [isLetter ?c] =>
      destruct (isLetter c) eqn:?; cbn [negb orb andb] in H; [|discriminate H]
  | context [isAlphaNum ?c] =>
      destruct (isAlphaNum c) eqn:?; cbn [negb orb andb] in H; [|discriminate H]
  | context [isDigit ?c] =>
      destruct (isDigit c) eqn:?; cbn [negb orb andb] in H; [|discriminate H]
  end.
  apply (all_bytes_raw_ok isAlphaNum _ isAlphaNum_no_delim).
  cbn [all_bytes].
  repeat match goal with
  | E : isLetter _ = true |- _ => apply isLetter_isAlphaNum in E; rewrite E; clear E
  | E : isDigit _ = true |- _ => apply isDigit_isAlphaNum in E; rewrite E; clear E
  | E : isAlphaNum _ = true |- _ => rewrite E; clear E
  end.
  reflexivity.
Qed.

Lemma ValidateFileType_bare (s : string) : ValidateFileType s = None -> bare s = true.
Proof.
  unfold ValidateFileType, ValidFileTypes. cbn [map_lookup].
  repeat match goal with
  | |- context [if (?k =? s) then _ else _] =>
      destruct (String.eqb_spec k s) as [<-|_]; [intros _; reflexivity|]
  end.
  discriminate.
Qed.

Lemma ValidateTrackDataType_bare (s : string) :
  ValidateTrackDataType s = None -> bare s = true.
Proof.
  unfold ValidateTrackDataType, ValidTrackModes. cbn [map_lookup].
  repeat match goal with
  | |- context [if (?k =? s) then _ else _] =>
      destruct (String.eqb_spec k s) as [<-|_]; [intros _; reflexivity|]
  end.
  discriminate.
Qed.

Lemma append_err_nil (errs : list error) (err : option error) :
  append_err errs err = [] -> errs = [] /\ err = None.
Proof.
  destruct err; cbn [append_err]; intros H; [|split; [exact H | reflexivity]].
  apply app_eq_nil in H as [_ H]. discriminate H.
Qed.

(** A track without error is read back as soon as it meets [track_ok]. *)
Lemma Track_Validate_rt (t : Track) :
  Track_Validate t = [] -> track_ok t = true -> track_rt t = true.
Proof.
  unfold Track_Validate. rewrite Track_Validate_index_fold. cbn [orb app].
  intros HV Hok.
  apply append_err_nil in HV as [HV Hdt].
  assert (Hisrc : raw_ok (Track_Isrc t) = true /\
                  (if negb (existsb (fun i => (TrackIndex_Number i =? 1)%N) (Track_Index t))
                   then ((if (Track_TrackNumber t <? 1)%N || (99 <? Track_TrackNumber t)%N
                          then [ErrRange] else []) ++
                         flat_map (fun i => if (99 <? TrackIndex_Number i)%N
                                            then [ErrRange] else []) (Track_Index t)) ++
                        [ErrSyntax]
                   else (if (Track_TrackNumber t <? 1)%N || (99 <? Track_TrackNumber t)%N
                         then [ErrRange] else []) ++
                        flat_map (fun i => if (99 <? TrackIndex_Number i)%N
                                           then [ErrRange] else []) (Track_Index t))%list
                  = []).
  { destruct (nonempty (Track_Isrc t)) eqn:Hn.
    - apply append_err_nil in HV as [HV Hi]. split; [apply ValidateISRC_raw_ok, Hi | exact HV].
    - apply nonempty_false in Hn. rewrite Hn. split; [reflexivity | exact HV]. }
  destruct Hisrc as [Hisrc HV'].
  destruct (negb _); [apply app_eq_nil in HV' as [_ HV']; discriminate HV'|].
  apply app_eq_nil in HV' as [Hnum Hix].
  assert (Hn : (Track_TrackNumber t <? 100)%N = true).
  { destruct (_ || _) eqn:E; [discriminate Hnum|].
    apply orb_false_iff in E as [_ E]. apply N.ltb_ge in E. apply N.ltb_lt. lia. }
  unfold track_ok in Hok. split_andb Hok.
  unfold track_rt.
  rewrite Hn, (ValidateTrackDataType_bare _ Hdt), Hisrc.
  repeat match goal with H : _ = true |- _ => rewrite H; clear H end.
  cbn [andb].
  match goal with H : forallb index_ok _ = true |- _ => rename H into Hio end.
  apply forallb_forall. intros i Hi. unfold index_rt.
  rewrite forallb_forall in Hio. specialize (Hio i Hi). unfold index_ok in Hio. rewrite Hio.
  pose proof (flat_map_nil _ _ Hix i Hi) as Hi'. cbn beta in Hi'.
  destruct (99 <? TrackIndex_Number i)%N eqn:E; [discriminate Hi'|].
  apply N.ltb_ge in E. rewrite (proj2 (N.ltb_lt _ _)) by lia. reflexivity.
Qed.

Lemma Cuesheet_Validate_file_nil (f : File) :
  Cuesheet_Validate_file [] f = [] ->
  ValidateFileType (File_FileType f) = None /\
  forall t, In t (File_Tracks f) -> Track_Validate t = [].
Proof.
  unfold Cuesheet_Validate_file. rewrite Track_Validate_fold. intros H.
  apply app_eq_nil in H as [H1 H2].
  apply append_err_nil in H1 as [_ H1]. split; [exact H1|].
  apply flat_map_nil, H2.
Qed.

Lemma File_Validate_rt (f : File) :
  Cuesheet_Validate_file [] f = [] -> file_ok f = true -> file_rt f = true.
Proof.
  intros HV Hok. apply Cuesheet_Validate_file_nil in HV as [Hty Htr].
  unfold file_ok in Hok. split_andb Hok. unfold file_rt.
  rewrite (ValidateFileType_bare _ Hty).
  repeat match goal with
  | H : nonempty _ = true |- _ => rewrite H; clear H
  | H : field_ok _ = true |- _ => rewrite H; clear H
  end.
  cbn [andb].
  match goal with H : forallb track_ok _ = true |- _ => rename H into Hto end.
  apply forallb_forall. intros t Ht. rewrite forallb_forall in Hto.
  apply Track_Validate_rt; [apply Htr, Ht | apply Hto, Ht].
Qed.

(** A sheet without error is read back as soon as it meets [sheet_ok]. *)
Lemma Cuesheet_Validate_rt (c : Cuesheet) :
  Cuesheet_Validate c = [] -> sheet_ok c = true -> sheet_rt c = true.
Proof.
  unfold Cuesheet_Validate. rewrite Cuesheet_Validate_fold. cbn [app].
  intros HV Hok. apply app_eq_nil in HV as [H0 Hfs].
  assert (Hcat : raw_ok (Cuesheet_Catalog c) = true).
  { destruct (List.length (Cuesheet_File c) =? 0)%nat;
      [apply app_eq_nil in H0 as [_ H0]; discriminate H0|].
    destruct (nonempty (Cuesheet_Catalog c)) eqn:Hn.
    - apply append_err_nil in H0 as [_ H0]. apply ValidateCatalog_raw_ok, H0.
    - apply nonempty_false in Hn. rewrite Hn. reflexivity. }
  unfold sheet_ok in Hok. split_andb Hok. unfold sheet_rt. rewrite Hcat.
  match goal with H : forallb file_ok _ = true |- _ => rename H into Hfo end.
  repeat match goal with
  | H : forallb raw_ok _ = true |- _ => rewrite H; clear H
  | H : field_ok _ = true |- _ => rewrite H; clear H
  | H : frame_ok _ = true |- _ => rewrite H; clear H
  end.
  cbn [andb].
  apply forallb_forall. intros f Hf. rewrite forallb_forall in Hfo.
  apply File_Validate_rt; [apply (flat_map_nil _ _ Hfs f Hf) | apply Hfo, Hf].
Qed.

(** ** The reader with its buffer

    For an input that the buffer holds whole, the loops on the reader with
    its buffer do what the loops on the bytes to read do: the first [fill]
    loads the input, no later [fill] changes the bytes that are left, and the
    copy that is assigned back differs from the reader in its offset [r]
    only. *)

Lemma substring_none (s : string) (n : nat) : substring n 0 s = EmptyString.
Proof.
  revert n. induction s as [|c s IH]; intros [|n]; simpl; try reflexivity. apply IH.
Qed.

Lemma substring_prefix (s : string) (a k n : nat) :
  a + k <= n -> substring a k (substring 0 n s) = substring a k s.
Proof.
  revert a k n. induction s as [|c s IH]; intros a k n H.
  - destruct n; reflexivity.
  - destruct n as [|n].
    + assert (a = 0) by lia. assert (k = 0) by lia. subst. reflexivity.
    + cbn [substring]. destruct a as [|a].
      * destruct k as [|k]; [reflexivity|]. cbn [substring]. f_equal.
        apply (IH 0). lia.
      * cbn [substring]. apply IH. lia.
Qed.

Lemma substring_substring (s : string) (r n a k : nat) :
  a + k <= n -> substring a k (substring r n s) = substring (r + a) k s.
Proof.
  revert s. induction r as [|r IH]; intros s H.
  - apply substring_prefix, H.
  - destruct s as [|c s]; [destruct n, a, k; reflexivity|].
    cbn [substring Nat.add]. apply IH, H.
Qed.

Lemma substring_split (s : string) (n : nat) :
  n <= String.length s ->
  substring 0 n s ++ substring n (String.length s - n) s = s.
Proof.
  revert n. induction s as [|c s IH]; intros [|n] H; simpl in *; try reflexivity;
    try lia.
  - rewrite substring_all. reflexivity.
  - rewrite IH by lia. reflexivity.
Qed.

Lemma IndexByte_read_until (s : string) (c : ascii) :
  match IndexByte s c with
  | Some i =>
      i < String.length s /\
      read_until s c =
      (substring 0 (i + 1) s, true, substring (i + 1) (String.length s - (i + 1)) s)
  | None => read_until s c = (s, false, EmptyString)
  end.
Proof.
  induction s as [|a s IH]; cbn [IndexByte read_until]; [reflexivity|].
  destruct (Ascii.eqb a c).
  - split; [simpl; lia|]. cbn [Nat.add substring String.length Nat.sub].
    rewrite substring_zero, Nat.sub_0_r, substring_all. reflexivity.
  - destruct (IndexByte s c) as [i|]; cbn [option_map].
    + destruct IH as [Hi ->]. split; [simpl; lia|]. reflexivity.
    + rewrite IH. reflexivity.
Qed.

Lemma Reader_ReadSlice_S (fuel : nat) (b : bufio_Reader) (delim : ascii) (s : nat) :
  Reader_ReadSlice (S fuel) b delim s =
  match IndexByte (substring (Reader_r b + s) (Reader_w b - (Reader_r b + s))
                     (Reader_buf b)) delim with
  | Some i =>
      Ok (substring (Reader_r b) (i + s + 1) (Reader_buf b), None,
          Build_bufio_Reader (Reader_buf b) (Reader_rd b) (Reader_r b + (i + s + 1))
            (Reader_w b) (Reader_err b))
  | None =>
      match Reader_err b with
      | Some e =>
          Ok (substring (Reader_r b) (Reader_w b - Reader_r b) (Reader_buf b),
              Some (pending e),
              Build_bufio_Reader (Reader_buf b) (Reader_rd b) (Reader_w b) (Reader_w b) None)
      | None =>
          if (String.length (Reader_buf b) <=? Reader_w b - Reader_r b)%nat then
            Ok (Reader_buf b, Some ErrBufferFull,
                Build_bufio_Reader (Reader_buf b) (Reader_rd b) (Reader_w b) (Reader_w b) None)
          else
            b' <- Reader_fill b ;;
            Reader_ReadSlice fuel b' delim (Reader_w b - Reader_r b)
      end
  end.
Proof. reflexivity. Qed.

(** [fill] at the end of the input: the bytes that are left are at the
    start of the buffer, and the error is [io.EOF]. *)
Lemma Reader_fill_end (buf : string) (r w : nat) (err : option error) :
  r <= w -> w <= String.length buf -> w - r < String.length buf ->
  exists buf',
    Reader_fill (Build_bufio_Reader buf EmptyString r w err) =
    Ok (Build_bufio_Reader buf' EmptyString 0 (w - r) (Some EOF)) /\
    String.length buf' = String.length buf /\
    substring 0 (w - r) buf' = substring r (w - r) buf.
Proof.
  intros Hrw Hw Hfull. unfold Reader_fill.
  cbn [Reader_r Reader_w Reader_buf Reader_rd Reader_err].
  destruct (Nat.ltb_spec 0 r) as [Hr|Hr];
    cbn [Reader_r Reader_w Reader_buf Reader_rd Reader_err Read String.length].
  - set (n := w - r) in *.
    set (buf1 := substring r n buf ++ substring n (String.length buf - n) buf).
    assert (Hn : String.length (substring r n buf) = n)
      by (apply substring_length; unfold n; lia).
    assert (H1 : String.length buf1 = String.length buf).
    { unfold buf1. rewrite length_append, Hn, substring_length by lia. lia. }
    destruct (Nat.leb_spec (String.length buf1) n) as [H|H]; [lia|].
    rewrite Nat.add_0_r. cbn [append]. rewrite substring_split by lia.
    exists buf1. split; [reflexivity|]. split; [exact H1|].
    unfold buf1. rewrite <- Hn at 1. apply substring_take.
  - assert (r = 0) by lia. subst r. rewrite Nat.sub_0_r in *.
    destruct (Nat.leb_spec (String.length buf) w) as [H|H]; [lia|].
    rewrite Nat.add_0_r. cbn [append]. rewrite substring_split by lia.
    exists buf. repeat split.
Qed.

(** [ReadSlice] at the end of the input, on bytes without delimiter. *)
Lemma Reader_ReadSlice_end (fuel : nat) (buf : string) (r w : nat) :
  r <= w -> w <= String.length buf -> w - r < String.length buf ->
  IndexByte (substring r (w - r) buf) LF = None ->
  exists buf',
    Reader_ReadSlice (S (S fuel)) (Build_bufio_Reader buf EmptyString r w None) LF 0 =
    Ok (substring r (w - r) buf, Some (pending EOF),
        Build_bufio_Reader buf' EmptyString (w - r) (w - r) None) /\
    String.length buf' = String.length buf.
Proof.
  intros Hrw Hw Hfull Hi.
  destruct (Reader_fill_end buf r w None Hrw Hw Hfull) as (buf' & Ef & Hl & Hs).
  rewrite Reader_ReadSlice_S. cbn [Reader_r Reader_w Reader_buf Reader_rd Reader_err].
  rewrite Nat.add_0_r, Hi.
  destruct (Nat.leb_spec (String.length buf) (w - r)) as [H|H]; [lia|].
  rewrite Ef. cbn [bind]. rewrite Reader_ReadSlice_S.
  cbn [Reader_r Reader_w Reader_buf Reader_rd Reader_err Nat.add].
  rewrite Nat.sub_diag, substring_none. cbn [IndexByte].
  rewrite Nat.sub_0_r, Hs. exists buf'. split; [reflexivity | exact Hl].
Qed.

Lemma Reader_ReadSlice_settled (fuel : nat) (b : bufio_Reader) :
  settled b ->
  exists frag e b',
    Reader_ReadSlice (S (S fuel)) b LF 0 = Ok (frag, e, b') /\ settled b' /\
    slice_of b frag e b'.
Proof.
  destruct b as [buf rd r w err]. unfold settled, slice_of, unread.
  cbn [Reader_r Reader_w Reader_buf Reader_rd Reader_err].
  intros (-> & -> & Hrw & Hw & Hlen).
  pose proof (IndexByte_read_until (substring r (w - r) buf) LF) as HI.
  assert (Hc : String.length (substring r (w - r) buf) = w - r)
    by (apply substring_length; lia).
  destruct (IndexByte (substring r (w - r) buf) LF) as [i|] eqn:Ei.
  - destruct HI as [Hi HI]. rewrite Hc in Hi, HI.
    rewrite Reader_ReadSlice_S. cbn [Reader_r Reader_w Reader_buf Reader_rd Reader_err].
    rewrite !Nat.add_0_r, Ei. cbv iota. rewrite !Nat.add_0_r.
    eexists _, None, _. split; [reflexivity|].
    cbn [Reader_r Reader_w Reader_buf Reader_rd Reader_err].
    split; [repeat split; lia|]. split; [|reflexivity].
    rewrite HI. rewrite !substring_substring by lia. rewrite Nat.add_0_r.
    replace (w - (r + (i + 1))) with (w - r - (i + 1)) by lia. reflexivity.
  - destruct (Nat.leb_spec (String.length buf) (w - r)) as [Hfull|Hfull].
    + assert (r = 0) by lia. assert (w = String.length buf) by lia. subst r w.
      rewrite Nat.sub_0_r, substring_all in *.
      rewrite Reader_ReadSlice_S. cbn [Reader_r Reader_w Reader_buf Reader_rd Reader_err].
      rewrite !Nat.add_0_r, Nat.sub_0_r, substring_all, Ei.
      destruct (Nat.leb_spec (String.length buf) (String.length buf)) as [H|H]; [|lia].
      eexists _, (Some ErrBufferFull), _. split; [reflexivity|].
      cbn [Reader_r Reader_w Reader_buf Reader_rd Reader_err].
      split; [repeat split; lia|]. split; [exact HI|].
      split; [rewrite Nat.sub_diag; apply substring_none|].
      intros ->. simpl in Hlen. lia.
    + destruct (Reader_ReadSlice_end fuel buf r w Hrw Hw Hfull Ei) as (buf' & E & Hl).
      rewrite E. eexists _, (Some (pending EOF)), _. split; [reflexivity|].
      cbn [Reader_r Reader_w Reader_buf Reader_rd Reader_err].
      split; [repeat split; lia|]. split; [reflexivity|]. split; [exact HI|].
      rewrite Nat.sub_diag. apply substring_none.
Qed.

Lemma Reader_ReadString_loop_S (fuel : nat) (b : bufio_Reader) (delim : ascii)
    (full : string) :
  Reader_ReadString_loop (S fuel) b delim full =
  ('(frag, e, b) <- Reader_ReadSlice (String.length (Reader_rd b) + 2) b delim 0 ;;
   match e with
   | None => Ok (full ++ frag, None, b)
   | Some (pending e) => Ok (full ++ frag, Some e, b)
   | Some ErrBufferFull => Reader_ReadString_loop fuel b delim (full ++ frag)
   end).
Proof. reflexivity. Qed.

(** The end of the loop of [ReadString]: after a full buffer without
    delimiter, at the end of the input. *)
Lemma Reader_ReadString_loop_end (fuel : nat) (b : bufio_Reader) (full : string) :
  settled b -> unread b = EmptyString ->
  exists b',
    Reader_ReadString_loop (S fuel) b LF full = Ok (full, Some EOF, b') /\
    settled b' /\ unread b' = EmptyString.
Proof.
  intros Hs Hu. rewrite Reader_ReadString_loop_S.
  destruct (Reader_ReadSlice_settled 0 b Hs) as (frag & e & b' & E & Hs' & Hspec).
  assert (Hrd : Reader_rd b = EmptyString) by apply Hs.
  rewrite Hrd. cbn [String.length Nat.add]. rewrite E. cbn [bind].
  unfold slice_of in Hspec. rewrite Hu in Hspec. cbn [read_until] in Hspec.
  destruct e as [[|e]|].
  - destruct Hspec as (Hr & _ & Hne). injection Hr as <-. congruence.
  - destruct Hspec as (-> & Hr & Hu'). injection Hr as <-.
    rewrite append_empty_r. exists b'. split; [reflexivity | split; assumption].
  - destruct Hspec as (Hr & _). discriminate Hr.
Qed.

Lemma Reader_ReadString_loop_settled (fuel : nat) (b : bufio_Reader) (full : string) :
  settled b ->
  exists line e b',
    Reader_ReadString_loop (S (S fuel)) b LF full = Ok (full ++ line, e, b') /\
    settled b' /\ bufio_ReadString (unread b) LF = (line, e, unread b') /\
    (e = None -> Reader_assign b b' = b).
Proof.
  intros Hs. rewrite Reader_ReadString_loop_S.
  destruct (Reader_ReadSlice_settled 0 b Hs) as (frag & e & b' & E & Hs' & Hspec).
  assert (Hrd : Reader_rd b = EmptyString) by apply Hs.
  rewrite Hrd. cbn [String.length Nat.add]. rewrite E. cbn [bind].
  unfold slice_of in Hspec. unfold bufio_ReadString.
  destruct e as [[|e]|].
  - destruct Hspec as (Hr & Hu' & _).
    destruct (Reader_ReadString_loop_end fuel b' (full ++ frag) Hs' Hu')
      as (b'' & E' & Hs'' & Hu'').
    rewrite E'. exists frag, (Some EOF), b''. rewrite Hr, Hu''.
    split; [reflexivity | split; [assumption | split; [reflexivity | discriminate]]].
  - destruct Hspec as (-> & Hr & Hu').
    exists frag, (Some EOF), b'. rewrite Hr, Hu'.
    split; [reflexivity | split; [assumption | split; [reflexivity | discriminate]]].
  - destruct Hspec as (Hr & Ha).
    exists frag, None, b'. rewrite Hr.
    split; [reflexivity | split; [assumption | split; [reflexivity | intros _; exact Ha]]].
Qed.

Lemma NewReader_buf_length (rd : string) :
  String.length (Reader_buf (NewReader rd)) = defaultBufSize.
Proof. vm_compute. reflexivity. Qed.

(** The first [ReadString] of a reader loads an input that the buffer holds
    whole. *)
Lemma Reader_ReadString_holds (b : bufio_Reader) (v : string) :
  holds b v ->
  exists line e b',
    Reader_ReadString b LF = Ok (line, e, b') /\ settled b' /\
    bufio_ReadString v LF = (line, e, unread b') /\
    (settled b -> e = None -> Reader_assign b b' = b).
Proof.
  intros [[Hs <-]|[-> Hv]].
  - unfold Reader_ReadString.
    assert (Hrd : Reader_rd b = EmptyString) by apply Hs.
    rewrite Hrd. cbn [String.length Nat.add].
    destruct (Reader_ReadString_loop_settled 0 b EmptyString Hs)
      as (line & e & b' & E & Hs' & Hr & Ha).
    exists line, e, b'.
    split; [exact E | split; [exact Hs' | split; [exact Hr | intros _; exact Ha]]].
  - pose proof (NewReader_buf_length v) as Hlen.
    destruct v as [|c v].
    + assert (Hs : settled (NewReader EmptyString)).
      { unfold settled. rewrite Hlen. cbn [NewReader Reader_rd Reader_err Reader_r Reader_w].
        unfold defaultBufSize. repeat split; lia. }
      unfold Reader_ReadString. cbn [NewReader Reader_rd String.length Nat.add].
      destruct (Reader_ReadString_loop_settled 0 (NewReader EmptyString) EmptyString Hs)
        as (line & e & b' & E & Hs' & Hr & Ha).
      exists line, e, b'.
      split; [exact E | split; [exact Hs' | split; [|intros _; exact Ha]]].
      rewrite <- Hr. unfold unread.
      cbn [NewReader Reader_r Reader_w Reader_buf Nat.sub]. rewrite substring_zero.
      reflexivity.
    + set (v' := String c v) in *. unfold NewReader in *.
      set (buf := Repeat (String zero EmptyString) defaultBufSize) in *.
      cbn [Reader_buf] in Hlen.
      set (n := String.length v') in *.
      assert (Hn : n = S (String.length v)) by reflexivity.
      set (buf1 := v' ++ substring n (String.length buf - n) buf).
      assert (Hl1 : String.length buf1 = String.length buf).
      { unfold buf1. rewrite length_append, substring_length by lia. fold n. lia. }
      set (b1 := Build_bufio_Reader buf1 EmptyString 0 n None).
      assert (Hs1 : settled b1).
      { unfold settled, b1. cbn [Reader_rd Reader_err Reader_r Reader_w Reader_buf].
        rewrite Hl1, Hlen. unfold defaultBufSize in *. repeat split; lia. }
      assert (Hu1 : unread b1 = v').
      { unfold unread, b1. cbn [Reader_r Reader_w Reader_buf]. rewrite Nat.sub_0_r.
        unfold buf1, n. apply substring_take. }
      assert (Ef : Reader_fill (Build_bufio_Reader buf v' 0 0 None) = Ok b1).
      { unfold Reader_fill. cbn [Reader_r Reader_w Reader_buf Reader_rd Reader_err Nat.ltb Nat.leb].
        destruct (Nat.leb_spec (String.length buf) 0) as [H|H];
          [unfold defaultBufSize in *; lia|].
        unfold Read. fold n. unfold v' at 1. cbv iota.
        rewrite Nat.sub_0_r, (Nat.min_r _ n) by lia.
        unfold b1, buf1, n.
        rewrite ?Nat.sub_diag, ?substring_all, ?substring_none, ?substring_zero.
        cbn [append Nat.add]. reflexivity. }
      unfold Reader_ReadString. cbn [Reader_rd]. fold n.
      replace (n + 2) with (S (S (S (String.length v)))) by lia.
      rewrite Reader_ReadString_loop_S. cbn [Reader_rd]. fold n.
      replace (n + 2) with (S (S (S (String.length v)))) by lia.
      rewrite Reader_ReadSlice_S.
      cbn [Reader_r Reader_w Reader_buf Reader_rd Reader_err Nat.add Nat.sub].
      rewrite substring_zero. cbn [IndexByte].
      destruct (Nat.leb_spec (String.length buf) 0) as [H|H];
        [unfold defaultBufSize in *; lia|].
      rewrite Ef. cbn [bind].
      destruct (Reader_ReadSlice_settled (String.length v) b1 Hs1)
        as (frag & e & b' & E & Hs' & Hspec).
      rewrite E. cbn [bind]. unfold slice_of in Hspec. rewrite Hu1 in Hspec.
      unfold bufio_ReadString. cbn [append].
      destruct e as [[|e]|].
      * destruct Hspec as (Hr & Hu' & _).
        destruct (Reader_ReadString_loop_end (S (String.length v)) b' frag Hs' Hu')
          as (b'' & E' & Hs'' & Hu'').
        rewrite E'. exists frag, (Some EOF), b''. rewrite Hr, Hu''.
        split; [reflexivity | split; [assumption | split; [reflexivity | discriminate]]].
      * destruct Hspec as (-> & Hr & Hu').
        exists frag, (Some EOF), b'. rewrite Hr, Hu'.
        split; [reflexivity | split; [assumption | split; [reflexivity | discriminate]]].
      * destruct Hspec as (Hr & Ha).
        exists frag, None, b'. rewrite Hr.
        split; [reflexivity | split; [assumption | split; [reflexivity|]]].
        intros (Hrd & _). discriminate Hrd.
Qed.

Ltac same_bind H :=
  match type of H with
  | buffered_outcome ?o ?o' =>
      let b := fresh "b" in let a := fresh "a" in
      let v := fresh "v" in let a' := fresh "a" in
      destruct o as [[b a]| | |], o' as [[v a']| | |];
      cbn [buffered_outcome] in H; try contradiction; cbn [bind];
      [destruct H as (? & <- & <-) | subst; reflexivity | exact I | exact I]
  end.

Lemma readTrack_same (fuel : nat) (b : bufio_Reader) (track : Track) :
  settled b ->
  buffered_outcome (Buffered.readTrack fuel b track) (readTrack fuel (unread b) track).
Proof.
  revert b track. induction fuel as [|fuel IH]; intros b track Hs; [exact I|].
  cbn [Buffered.readTrack readTrack].
  destruct (Reader_ReadString_holds b (unread b) (or_introl (conj Hs eq_refl)))
    as (line & e & b' & E & Hs' & Hr & Ha).
  rewrite E, Hr. cbn [bind].
  destruct e as [[]|]; try reflexivity.
  - split; [exact Hs' | split; reflexivity].
  - destruct (negb (HasPrefix line "    ")).
    + rewrite (Ha Hs eq_refl). split; [exact Hs | split; reflexivity].
    + destruct (ReadString (Trim line delims)) as [[command l]| | |]; cbn [bind];
        try reflexivity.
      destruct (readTrack_switch command l track) as [[t|t]| | |]; cbn [bind];
        try reflexivity.
      * apply IH, Hs'.
      * split; [exact Hs' | split; reflexivity].
Qed.

Lemma readTracks_loop_same (fuel : nat) (b : bufio_Reader) (tracks : list Track) :
  settled b ->
  buffered_outcome (Buffered.readTracks_loop fuel b tracks)
    (readTracks_loop fuel (unread b) tracks).
Proof.
  revert b tracks. induction fuel as [|fuel IH]; intros b tracks Hs; [exact I|].
  cbn [Buffered.readTracks_loop readTracks_loop].
  destruct (Reader_ReadString_holds b (unread b) (or_introl (conj Hs eq_refl)))
    as (line & e & b' & E & Hs' & Hr & Ha).
  rewrite E, Hr. cbn [bind].
  destruct e as [[]|]; try reflexivity.
  - split; [exact Hs' | split; reflexivity].
  - destruct (negb (HasPrefix line "  ")).
    + rewrite (Ha Hs eq_refl). split; [exact Hs | split; reflexivity].
    + destruct (ReadString (Trim line delims)) as [[command l]| | |]; cbn [bind];
        try reflexivity.
      destruct (command =? "TRACK");
        [|split; [exact Hs' | split; reflexivity]].
      destruct (ReadUint l) as [[num l']| | |]; cbn [bind]; try reflexivity.
      destruct (ReadString l') as [[v l'']| | |]; cbn [bind]; try reflexivity.
      pose proof (readTrack_same fuel b'
                    (set_Track_TrackDataType v (set_Track_TrackNumber num Track_zero))
                    Hs') as HT.
      same_bind HT. apply IH. assumption.
Qed.

Lemma ReadFile_switch_same (fuel : nat) (command line : string) (b : bufio_Reader)
    (c : Cuesheet) :
  settled b ->
  buffered_outcome (Buffered.ReadFile_switch fuel command line b c)
    (ReadFile_switch fuel command line (unread b) c).
Proof.
  intros Hs. unfold Buffered.ReadFile_switch, ReadFile_switch.
  repeat match goal with
         | |- buffered_outcome (if ?x then _ else _) _ => destruct x
         end;
    try (split; [exact Hs | split; reflexivity]);
    try (destruct (ReadString line) as [[v l]| | |]; cbn [bind]; try reflexivity;
         split; [exact Hs | split; reflexivity]);
    try (destruct (ReadFrame line) as [[v l]| | |]; cbn [bind]; try reflexivity;
         split; [exact Hs | split; reflexivity]).
  destruct (ReadString line) as [[fname l]| | |]; cbn [bind]; try reflexivity.
  destruct (ReadString l) as [[ftype l']| | |]; cbn [bind]; try reflexivity.
  unfold Buffered.readTracks, readTracks.
  pose proof (readTracks_loop_same fuel b [] Hs) as HT.
  same_bind HT. split; [assumption | split; reflexivity].
Qed.

(** The loop of [ReadFile] on a reader that holds the bytes [v]. *)
Lemma ReadFile_loop_same (fuel : nat) (b : bufio_Reader) (v : string) (c : Cuesheet) :
  holds b v -> Buffered.ReadFile_loop fuel b c = ReadFile_loop fuel v c.
Proof.
  revert b v c. induction fuel as [|fuel IH]; intros b v c Hb; [reflexivity|].
  cbn [Buffered.ReadFile_loop ReadFile_loop].
  destruct (Reader_ReadString_holds b v Hb) as (line & e & b' & E & Hs' & Hr & _).
  rewrite E, Hr. cbn [bind].
  destruct e as [[]|]; try reflexivity.
  destruct (ReadString (Trim line delims)) as [[command l]| | |]; cbn [bind];
    try reflexivity.
  pose proof (ReadFile_switch_same fuel command l b' c Hs') as HT.
  destruct (Buffered.ReadFile_switch fuel command l b' c) as [[b2 c2]| | |],
           (ReadFile_switch fuel command l (unread b') c) as [[v2 c2']| | |];
    cbn [buffered_outcome] in HT; try contradiction; cbn [bind]; try reflexivity;
    [|congruence].
  destruct HT as (Hs2 & <- & <-). apply IH. left. split; [exact Hs2 | reflexivity].
Qed.

(** On an input of at most 4096 bytes, the size of the buffer, the loops on
    the reader with its buffer return what the loops on the bytes to read
    return. *)
Lemma ReadFile_all_buffered (r : string) (c : Cuesheet) :
  String.length r <= defaultBufSize -> Buffered.ReadFile_all r c = ReadFile_all r c.
Proof.
  intros H. unfold Buffered.ReadFile_all, ReadFile_all.
  apply ReadFile_loop_same. right. split; [reflexivity | exact H].
Qed.

Lemma ReadFile_buffered (r : string) :
  String.length r <= defaultBufSize -> Buffered.ReadFile r = ReadFile r.
Proof. intros H. apply (ReadFile_all_buffered r Cuesheet_zero H). Qed.

(** C1, as the code has it: for a sheet that [Validate] accepts and whose
    text, as [WriteFile] writes it, has at most 4096 bytes, the size of the
    buffer of the reader, what [ReadFile] reads from that text is the sheet,
    field for field, when besides the sheet meets [sheet_ok]: each comment has
    no newline and no delimiter at its end; each text field, sheet and track
    titles, file names and the like, has no newline, has no double quote and no
    backslash when it holds a delimiter and else does not start with a quote;
    no file name is empty; each frame count (gaps and indexes) is below 450000;
    and the flags are made of the four bits DCP, 4CH, PRE and SCMS. *)
Theorem ReadFile_WriteFile (c : Cuesheet) :
  Cuesheet_Validate c = [] -> sheet_ok c = true ->
  String.length (WriteFile c) <= defaultBufSize ->
  Buffered.ReadFile (WriteFile c) = Ok c.
Proof.
  intros HV Hok Hlen. rewrite (ReadFile_buffered _ Hlen).
  apply ReadFile_WriteFile_rt, Cuesheet_Validate_rt; assumption.
Qed.

Lemma ReadFile_WriteFile_witness :
  Cuesheet_Validate test_sheet = [] /\ sheet_ok test_sheet = true /\
  String.length (WriteFile test_sheet) <= defaultBufSize /\
  Buffered.ReadFile (WriteFile test_sheet) = Ok test_sheet.
Proof.
  split; [vm_compute; reflexivity|]. split; [vm_compute; reflexivity|].
  split; [apply Nat.leb_le; vm_compute; reflexivity|].
  apply (ReadFile_WriteFile test_sheet);
    [vm_compute; reflexivity | vm_compute; reflexivity
     | apply Nat.leb_le; vm_compute; reflexivity].
Defined.

(** C1 as stated fails on sheets that [Validate] accepts: an index at
    one hundred minutes is read back at frame 0; a title with a space and a
    double quote comes back with a backslash; a title that starts with a quote
    makes [ReadFile] panic; the flag bit 1 is lost; the type of a file without
    name is read as its name; a comment loses the space at its end.  And a
    sheet of 105 tracks, which meets [sheet_ok] and whose text has 4121 bytes,
    more than the buffer of the reader holds, comes back with 104 tracks: the
    line of the last track is read by [readTrack] across a refill of the
    buffer, and the copy of the reader that is assigned back has the offsets
    of before the refill. *)
Lemma ReadFile_WriteFile_fails :
  (Cuesheet_Validate (with_index_frame 450000) = [] /\
   Buffered.ReadFile (WriteFile (with_index_frame 450000)) = Ok (with_index_frame 0) /\
   Buffered.ReadFile (WriteFile (with_index_frame 450000)) <>
   Ok (with_index_frame 450000)) /\
  (Cuesheet_Validate (set_Cuesheet_Title title_space_quote minimal_sheet) = [] /\
   Buffered.ReadFile (WriteFile (set_Cuesheet_Title title_space_quote minimal_sheet)) =
   Ok (set_Cuesheet_Title
         (String "a" (String SP (String BACKSLASH (String DQUOTE EmptyString))))
         minimal_sheet)) /\
  (Cuesheet_Validate (set_Cuesheet_Title title_leading_quote minimal_sheet) = [] /\
   Buffered.ReadFile (WriteFile (set_Cuesheet_Title title_leading_quote minimal_sheet)) =
   Panic) /\
  (Cuesheet_Validate (with_flags 1) = [] /\
   Buffered.ReadFile (WriteFile (with_flags 1)) = Ok (with_flags 0)) /\
  (Cuesheet_Validate (with_file_name EmptyString "WAVE") = [] /\
   Buffered.ReadFile (WriteFile (with_file_name EmptyString "WAVE")) =
   Ok (with_file_name "WAVE" EmptyString)) /\
  (Cuesheet_Validate (set_Cuesheet_Rem ["x "] minimal_sheet) = [] /\
   Buffered.ReadFile (WriteFile (set_Cuesheet_Rem ["x "] minimal_sheet)) =
   Ok (set_Cuesheet_Rem ["x"] minimal_sheet)) /\
  (Cuesheet_Validate (many_tracks 105) = [] /\ sheet_ok (many_tracks 105) = true /\
   String.length (WriteFile (many_tracks 105)) = 4121 /\
   Buffered.ReadFile (WriteFile (many_tracks 105)) = Ok (many_tracks 104) /\
   Buffered.ReadFile (WriteFile (many_tracks 105)) <> Ok (many_tracks 105)).
Proof.
  repeat split; try (vm_compute; reflexivity); vm_compute; discriminate.
Qed.

(** * Properties of the rest of the package *)

(** ** Fields: what [ReadString] returns *)

Lemma ReadString_quote (s rest : string) :
  ReadString (quote s DQUOTE ++ rest) = Ok (quote_body s DQUOTE, rest).
Proof.
  unfold ReadString, quote.
  cbn [append TrimLeft]. change (ContainsByte delims DQUOTE) with false. cbn iota.
  cbn [isQuoted]. rewrite Ascii.eqb_refl. cbn [orb].
  rewrite append_assoc. cbn [append].
  rewrite (unquote_quoted s rest DQUOTE eq_refl). cbn [bind].
  replace (String DQUOTE (quote_body s DQUOTE ++ String DQUOTE rest))
    with ((String DQUOTE (quote_body s DQUOTE ++ String DQUOTE EmptyString)) ++ rest)
    by (cbn [append]; rewrite append_assoc; reflexivity).
  replace (String.length (quote_body s DQUOTE) + 2)
    with (String.length (String DQUOTE (quote_body s DQUOTE ++ String DQUOTE EmptyString)))
    by (cbn [String.length]; rewrite length_append; cbn [String.length]; lia).
  rewrite slice_from_skip. reflexivity.
Qed.

Lemma TrimLeft_nodelim (s : string) :
  ContainsAny s delims = false -> TrimLeft s delims = s.
Proof.
  destruct s as [|c r]; [reflexivity|].
  cbn [ContainsAny]. intros H. apply orb_false_iff in H as [Hc _].
  apply TrimLeft_solid, Hc.
Qed.

(** X1: a field written by [FormatString] is read back by [ReadString] as
    the same text, with nothing left over, exactly when the text, if it has a
    delimiter, has no double quote and no backslash, and, if it has none, does
    not start with a quote. *)
Theorem ReadString_FormatString_exact (s : string) :
  ReadString (FormatString s) = Ok (s, EmptyString) <->
  (if ContainsAny s delims then all_bytes (unescaped DQUOTE) s else negb (isQuoted s)) = true.
Proof.
  unfold FormatString. destruct (ContainsAny s delims) eqn:Hd.
  - pose proof (ReadString_quote s EmptyString) as R. rewrite append_empty_r in R.
    rewrite R. split.
    + intros E. injection E as E. apply quote_body_fixed, E.
    + intros H. rewrite (quote_body_clean _ _ H). reflexivity.
  - split.
    + intros E. apply negb_true_iff. destruct (isQuoted s) eqn:Hq; [|reflexivity].
      exfalso. unfold ReadString in E. rewrite (TrimLeft_nodelim s Hd), Hq in E.
      destruct (unquote s) as [v| | |]; cbn [bind] in E; try discriminate.
      unfold slice_from, slice in E.
      destruct (_ && _) eqn:Hb; cbn [bind] in E; [|discriminate].
      injection E as -> _. apply andb_true_iff in Hb as [Hb _].
      apply Nat.leb_le in Hb. lia.
    + intros H. destruct s as [|c r]; [reflexivity|].
      apply ReadString_bare. unfold bare. rewrite Hd, H. reflexivity.
Qed.

Lemma cut_space_parts (s v r : string) :
  cut_space s = Some (v, r) -> String.length v + String.length r < String.length s.
Proof.
  revert v. induction s as [|c s IH]; intros v; simpl; [discriminate|].
  destruct (Ascii.eqb c SP).
  - intros E. injection E as <- <-. simpl. lia.
  - destruct (cut_space s) as [[v0 r0]|]; [|discriminate].
    intros E. injection E as <- <-. specialize (IH v0 eq_refl). simpl. lia.
Qed.

(** X2: [ReadString] returns a field and a rest that together are not
    longer than the string, the rest being shorter than a string that is not
    empty; or it panics, and then the field starts with a quote: a field
    without quote is always read. *)
Theorem ReadString_outcomes (s : string) :
  (exists v r, ReadString s = Ok (v, r) /\
     String.length v + String.length r <= String.length s /\
     (s = EmptyString \/ String.length r < String.length s)) \/
  (ReadString s = Panic /\ isQuoted (TrimLeft s delims) = true).
Proof.
  pose proof (TrimLeft_length s delims) as HT.
  destruct (ReadString s) as [[v r]| | |] eqn:E.
  - left. exists v, r. split; [reflexivity|]. split.
    + unfold ReadString in E. destruct (isQuoted (TrimLeft s delims)).
      * unfold unquote in E. destruct (TrimLeft s delims) as [|q t] eqn:Et;
          [discriminate|].
        remember (String q t) as u eqn:Eu. remember (unquote_end q t 1) as i eqn:Ei.
        unfold slice_from, slice in E.
        destruct ((1 <=? i)%nat && (i <=? String.length u)%nat) eqn:Hb1;
          cbn [bind] in E; [|discriminate].
        apply andb_true_iff in Hb1 as [Hb1 Hb1']. apply Nat.leb_le in Hb1, Hb1'.
        rewrite substring_length in E by lia.
        destruct ((i - 1 + 2 <=? String.length u)%nat &&
                  (String.length u <=? String.length u)%nat) eqn:Hb2;
          cbn [bind] in E; [|discriminate].
        apply andb_true_iff in Hb2 as [Hb2 _]. apply Nat.leb_le in Hb2.
        injection E as <- <-.
        rewrite !substring_length by lia. lia.
      * destruct (cut_space (TrimLeft s delims)) as [[v0 r0]|] eqn:Hc.
        -- injection E as <- <-. apply cut_space_parts in Hc. lia.
        -- injection E as <- <-. simpl. lia.
    + destruct s as [|c s']; [left; reflexivity|]. right.
      apply (ReadString_shorter _ v r); [discriminate | exact E].
  - exfalso. unfold ReadString in E. destruct (isQuoted (TrimLeft s delims)).
    + unfold unquote, slice_from, slice in E.
      destruct (TrimLeft s delims); [discriminate|].
      destruct (_ && _); cbn [bind] in E; [|discriminate].
      destruct (_ && _); cbn [bind] in E; discriminate.
    + destruct (cut_space _) as [[v r]|]; discriminate.
  - right. split; [reflexivity|]. unfold ReadString in E.
    destruct (isQuoted (TrimLeft s delims)); [reflexivity|].
    destruct (cut_space _) as [[v r]|]; discriminate.
  - exfalso. revert E. apply ReadString_enough.
Qed.

(** ** Lines that the parser skips *)

Lemma ReadFile_switch_default (fuel : nat) (command line : string) (b : Reader)
    (c : Cuesheet) :
  ~ In command sheet_commands ->
  ReadFile_switch fuel command line b c = Ok (b, c).
Proof.
  intros H. unfold ReadFile_switch.
  repeat match goal with
  | |- (if (command =? ?k) then _ else _) = _ =>
      destruct (String.eqb_spec command k) as [->|_];
      [exfalso; apply H; simpl; tauto|]
  end.
  reflexivity.
Qed.

Lemma ReadFile_all_skip (l rest command args : string) (c : Cuesheet) :
  ContainsByte l LF = false ->
  ReadString (Trim (l ++ eol) delims) = Ok (command, args) ->
  ~ In command sheet_commands ->
  ReadFile_all (l ++ eol ++ rest) c = ReadFile_all rest c.
Proof.
  intros Hl HR Hc. unfold ReadFile_all. rewrite ReadFile_loop_S.
  rewrite (bufio_ReadString_line l rest Hl), HR. cbn [bind].
  rewrite (ReadFile_switch_default _ _ _ _ _ Hc). cbn [bind].
  apply ReadFile_loop_fuel; rewrite ?length_line; lia.
Qed.

(** X3: at the sheet level a line whose command [ReadFile] does not know
    is skipped, whatever its indentation: the sheet is the one read from the
    lines before and after it.  This is said of an input of at most 4096
    bytes, which the buffer of the reader holds whole. *)
Theorem ReadFile_unknown_command (l rest command args : string) (c : Cuesheet) :
  ContainsByte l LF = false ->
  ReadString (Trim (l ++ eol) delims) = Ok (command, args) ->
  ~ In command sheet_commands ->
  String.length (l ++ eol ++ rest) <= defaultBufSize ->
  Buffered.ReadFile_all (l ++ eol ++ rest) c = Buffered.ReadFile_all rest c /\
  Buffered.ReadFile (l ++ eol ++ rest) = Buffered.ReadFile rest.
Proof.
  intros Hl HR Hc Hlen.
  assert (Hrest : String.length rest <= defaultBufSize)
    by (rewrite !length_append in Hlen; lia).
  unfold Buffered.ReadFile. rewrite !ReadFile_all_buffered by assumption.
  split; apply (ReadFile_all_skip l rest command args); assumption.
Qed.

Lemma ReadFile_unknown_command_witness :
  ContainsByte "  TRACK 01 AUDIO" LF = false /\
  String.length ("  TRACK 01 AUDIO" ++ eol ++ "TITLE Album" ++ eol) <= defaultBufSize /\
  Buffered.ReadFile ("  TRACK 01 AUDIO" ++ eol ++ "TITLE Album" ++ eol) =
  Buffered.ReadFile ("TITLE Album" ++ eol).
Proof.
  split; [reflexivity|]. split; [apply Nat.leb_le; vm_compute; reflexivity|].
  apply (proj2 (ReadFile_unknown_command "  TRACK 01 AUDIO" ("TITLE Album" ++ eol)
                  "TRACK" "01 AUDIO" Cuesheet_zero eq_refl eq_refl
                  ltac:(simpl; intuition discriminate)
                  ltac:(apply Nat.leb_le; vm_compute; reflexivity))).
Defined.

(** X4: in the track list of a file, a line indented by two spaces whose
    command is not TRACK ends the list, and the line is consumed: [readTracks]
    returns the tracks read so far and the reader after the line. *)
Theorem readTracks_unknown_command (l rest command args : string) (tracks : list Track) :
  ContainsByte l LF = false ->
  HasPrefix l "  " = true ->
  ReadString (Trim (l ++ eol) delims) = Ok (command, args) ->
  command <> "TRACK" ->
  readTracks_all (l ++ eol ++ rest) tracks = Ok (rest, tracks).
Proof.
  intros Hl Hp HR Hc. unfold readTracks_all. rewrite readTracks_loop_S.
  rewrite (bufio_ReadString_line l rest Hl).
  unfold HasPrefix in *. rewrite (prefix_append _ _ _ Hp). cbn [negb].
  rewrite HR. cbn [bind].
  destruct (String.eqb_spec command "TRACK") as [E|_]; [contradiction | reflexivity].
Qed.

Lemma readTracks_unknown_command_witness :
  ContainsByte "  REM between tracks" LF = false /\
  readTracks_all ("  REM between tracks" ++ eol ++ "  TRACK 02 AUDIO" ++ eol) [] =
  Ok ("  TRACK 02 AUDIO" ++ eol, []).
Proof.
  split; [reflexivity|].
  apply (readTracks_unknown_command "  REM between tracks" ("  TRACK 02 AUDIO" ++ eol)
           "REM" "between tracks" [] eq_refl eq_refl eq_refl).
  discriminate.
Defined.

Lemma scope_end_blank (p more : string) :
  p = "  " \/ p = "    " -> scope_end p (eol ++ more).
Proof.
  intros Hp. right. exists EmptyString, more.
  split; [reflexivity|]. split; [reflexivity|].
  destruct Hp as [->| ->]; reflexivity.
Qed.

(** A blank line ends the track list of a file, on the bytes to read. *)
Lemma ReadFile_all_blank_line (f : File) (args more : string) (c : Cuesheet) :
  file_rt f = true -> raw_ok args = true ->
  ReadFile_all (file_text f ++ eol ++ line "  " "TRACK" args ++ more) c =
  ReadFile_all more (add_file f c).
Proof.
  intros Hf Ha. unfold file_text. rewrite (append_assoc (line _ _ _)).
  rewrite ReadFile_all_cmd by (try reflexivity; apply file_rt_args_raw_ok, Hf).
  rewrite ReadFile_switch_FILE.
  pose proof Hf as Hf'. unfold file_rt in Hf'. split_andb Hf'.
  destruct (ReadString_file_args (File_FileName f) (File_FileType f))
    as (l & E1 & E2); try assumption.
  rewrite E1. cbn [bind]. rewrite E2. cbn [bind].
  match goal with
  | |- context [readTracks_loop (S (String.length ?b)) ?b []] =>
      fold (readTracks_all b [])
  end.
  rewrite readTracks_all_tracks;
    [| assumption | apply scope_end_blank; left; reflexivity
     | apply scope_end_blank; right; reflexivity ].
  cbn [bind app].
  change (eol ++ line "  " "TRACK" args ++ more)
    with (EmptyString ++ eol ++ line "  " "TRACK" args ++ more).
  rewrite (ReadFile_all_skip EmptyString _ EmptyString EmptyString)
    by (try reflexivity; simpl; intuition discriminate).
  unfold line. rewrite !append_assoc.
  replace ("  " ++ "TRACK" ++ " " ++ args ++ eol ++ more)
    with (("  TRACK " ++ args) ++ eol ++ more) by (rewrite !append_assoc; reflexivity).
  rewrite (ReadFile_all_skip ("  TRACK " ++ args) more "TRACK" args).
  - destruct f. reflexivity.
  - apply (command_line_no_LF "  " "TRACK" args eq_refl eq_refl Ha).
  - replace (("  TRACK " ++ args) ++ eol) with ("  " ++ "TRACK" ++ " " ++ args ++ eol)
      by (rewrite !append_assoc; reflexivity).
    apply (ReadString_command_line "  " "TRACK" args eq_refl eq_refl Ha).
  - simpl; intuition discriminate.
Qed.

(** X5: a blank line ends the track list of a file.  The file is stored
    with the tracks before the blank line, and a TRACK line after it is read
    at the sheet level, where it is skipped.  This is said of an input of at
    most 4096 bytes, which the buffer of the reader holds whole. *)
Theorem ReadFile_blank_line_ends_file (f : File) (args more : string) (c : Cuesheet) :
  file_rt f = true -> raw_ok args = true ->
  String.length (file_text f ++ eol ++ line "  " "TRACK" args ++ more) <= defaultBufSize ->
  Buffered.ReadFile_all (file_text f ++ eol ++ line "  " "TRACK" args ++ more) c =
  Buffered.ReadFile_all more (add_file f c).
Proof.
  intros Hf Ha Hlen.
  assert (Hmore : String.length more <= defaultBufSize)
    by (rewrite !length_append in Hlen; lia).
  rewrite !ReadFile_all_buffered by assumption.
  apply ReadFile_all_blank_line; assumption.
Qed.

Lemma ReadFile_blank_line_ends_file_witness :
  file_rt (Build_File "a.wav" "WAVE" [minimal_track]) = true /\
  String.length (file_text (Build_File "a.wav" "WAVE" [minimal_track]) ++ eol ++
                 line "  " "TRACK" "02 AUDIO" ++ EmptyString) <= defaultBufSize /\
  Buffered.ReadFile_all
    (file_text (Build_File "a.wav" "WAVE" [minimal_track]) ++ eol ++
     line "  " "TRACK" "02 AUDIO" ++ EmptyString) Cuesheet_zero =
  Buffered.ReadFile_all EmptyString
    (add_file (Build_File "a.wav" "WAVE" [minimal_track]) Cuesheet_zero).
Proof.
  split; [reflexivity|]. split; [apply Nat.leb_le; vm_compute; reflexivity|].
  apply (ReadFile_blank_line_ends_file (Build_File "a.wav" "WAVE" [minimal_track])
           "02 AUDIO" EmptyString Cuesheet_zero);
    [reflexivity | reflexivity | apply Nat.leb_le; vm_compute; reflexivity].
Defined.

(** ** Errors *)

(** X6: a frame that [ReadFrame] rejects on an INDEX line ends the parse:
    [ReadFile] returns the error of [ReadFrame], whatever the lines after
    it are. *)
Theorem ReadFile_index_error
    (name type ty x more : string) (n k : N) (c : Cuesheet) (e : error) :
  nonempty name = true -> field_ok name = true -> bare type = true ->
  (n < 100)%N -> bare ty = true -> (k < 100)%N -> bare x = true ->
  ReadFrame x = Fail e ->
  ReadFile_all (line EmptyString "FILE" (FormatString name ++ " " ++ type) ++
                line "  " "TRACK" (FormatTrackNumber n ++ " " ++ ty) ++
                line "    " "INDEX" (FormatTrackNumber k ++ " " ++ x) ++ more) c =
  Fail e.
Proof.
  intros Hn Hname Htype Hlt Hty Hk Hx HF.
  assert (Nty : ty <> EmptyString)
    by (destruct (bare_inv ty Hty) as (a & r & -> & _); discriminate).
  assert (Nx : x <> EmptyString)
    by (destruct (bare_inv x Hx) as (a & r & -> & _); discriminate).
  rewrite ReadFile_all_cmd
    by (try reflexivity; apply file_args_raw_ok; assumption).
  rewrite ReadFile_switch_FILE.
  destruct (ReadString_file_args name type) as (l & E1 & E2); try assumption.
  rewrite E1. cbn [bind]. rewrite E2. cbn [bind].
  match goal with
  | |- context [readTracks_loop (S (String.length ?b)) ?b []] =>
      fold (readTracks_all b [])
  end.
  rewrite readTracks_all_cmd
    by (apply number_args_raw_ok; [apply bare_raw_ok, Hty | exact Nty]).
  rewrite (ReadUint_FormatTrackNumber n ty Hlt). cbn [bind].
  rewrite (ReadString_bare ty Hty). cbn [bind].
  rewrite readTrack_all_cmd
    by (first [reflexivity
              | apply number_args_raw_ok; [apply bare_raw_ok, Hx | exact Nx]]).
  rewrite readTrack_switch_INDEX.
  rewrite (ReadUint_FormatTrackNumber k x Hk). cbn [bind].
  rewrite HF. reflexivity.
Qed.

Lemma ReadFile_index_error_witness :
  ReadFrame "not:a:frame" = Fail (NumError fnParseUint "not" ErrSyntax) /\
  ReadFile_all (line EmptyString "FILE" (FormatString "a.wav" ++ " " ++ "WAVE") ++
                line "  " "TRACK" (FormatTrackNumber 1 ++ " " ++ "AUDIO") ++
                line "    " "INDEX" (FormatTrackNumber 1 ++ " " ++ "not:a:frame") ++
                "  TRACK 02 AUDIO" ++ eol) Cuesheet_zero =
  Fail (NumError fnParseUint "not" ErrSyntax).
Proof.
  split; [reflexivity|].
  apply (ReadFile_index_error "a.wav" "WAVE" "AUDIO" "not:a:frame"
           ("  TRACK 02 AUDIO" ++ eol) 1 1 Cuesheet_zero); reflexivity.
Defined.

Lemma ParseUint_loop_error (s0 s : string) (maxVal n : N) (e : error) :
  ParseUint_loop s0 s maxVal n = Fail e -> strconv_error e.
Proof.
  revert n. induction s as [|a s IH]; intros n; cbn [ParseUint_loop]; [discriminate|].
  destruct (digit_val a);
    [|intros E; injection E as <-; right; exists s0; left; reflexivity].
  destruct (_ <=? n)%N;
    [intros E; injection E as <-; right; exists s0; right; reflexivity|].
  destruct (_ || _);
    [intros E; injection E as <-; right; exists s0; right; reflexivity | apply IH].
Qed.

Lemma ParseUint_error (s : string) (bitSize : N) (e : error) :
  ParseUint s bitSize = Fail e -> strconv_error e.
Proof.
  unfold ParseUint. destruct s as [|a s].
  - intros E. injection E as <-. right. exists EmptyString. left. reflexivity.
  - apply ParseUint_loop_error.
Qed.

Lemma ReadString_no_error (s : string) (e : error) : ReadString s <> Fail e.
Proof.
  unfold ReadString. destruct (isQuoted (TrimLeft s delims)).
  - unfold unquote, slice_from, slice.
    destruct (TrimLeft s delims); [discriminate|].
    destruct (_ && _); cbn [bind]; [|discriminate].
    destruct (_ && _); cbn [bind]; discriminate.
  - destruct (cut_space _) as [[v r]|]; discriminate.
Qed.

Lemma bind_error {A B : Type} (m : outcome A) (k : A -> outcome B) (e : error) :
  bind m k = Fail e ->
  (m = Fail e -> strconv_error e) ->
  (forall a, k a = Fail e -> strconv_error e) ->
  strconv_error e.
Proof.
  destruct m as [a|e0| |]; cbn [bind]; intros E H1 H2; try discriminate.
  - apply (H2 a E).
  - injection E as ->. apply H1. reflexivity.
Qed.

Lemma ReadUint_error (s : string) (e : error) : ReadUint s = Fail e -> strconv_error e.
Proof.
  unfold ReadUint. intros E. apply (bind_error _ _ _ E).
  - intros H. exfalso. revert H. apply ReadString_no_error.
  - intros [v r] E1. apply (bind_error _ _ _ E1).
    + apply ParseUint_error.
    + discriminate.
Qed.

Lemma ReadFrame_error (s : string) (e : error) : ReadFrame s = Fail e -> strconv_error e.
Proof.
  unfold ReadFrame. intros E. apply (bind_error _ _ _ E).
  - intros H. exfalso. revert H. apply ReadString_no_error.
  - intros [v r].
    destruct (Split v COLON) as [|v0 [|v1 [|v2 [|v3 l]]]];
      try (intros E1; injection E1 as <-; left; reflexivity).
    intros E1. apply (bind_error _ _ _ E1); [apply ParseUint_error|]. intros mm E2.
    apply (bind_error _ _ _ E2); [apply ParseUint_error|]. intros ss E3.
    apply (bind_error _ _ _ E3); [apply ParseUint_error|]. discriminate.
Qed.

Lemma readTrack_flags_error (fuel : nat) (line : string) (flags : Z) (e : error) :
  readTrack_flags fuel line flags <> Fail e.
Proof.
  revert line flags. induction fuel as [|f IH]; intros line flags;
    destruct line as [|a l]; try discriminate.
  cbn [readTrack_flags].
  destruct (ReadString (String a l)) as [[v r]| | |] eqn:E; cbn [bind];
    try discriminate.
  - apply IH.
  - exfalso. revert E. apply ReadString_no_error.
Qed.

Ltac error_step e :=
  match goal with
  | |- Ok _ = Fail e -> _ => discriminate
  | |- bind (ReadString _) _ = Fail e -> _ =>
      let E := fresh "E" in
      intros E; apply (bind_error _ _ _ E);
      [ let H := fresh "H" in intros H; exfalso; revert H; apply ReadString_no_error
      | intros [? ?] ]
  | |- bind (ReadFrame _) _ = Fail e -> _ =>
      let E := fresh "E" in
      intros E; apply (bind_error _ _ _ E); [ apply ReadFrame_error | intros [? ?] ]
  | |- bind (ReadUint _) _ = Fail e -> _ =>
      let E := fresh "E" in
      intros E; apply (bind_error _ _ _ E); [ apply ReadUint_error | intros [? ?] ]
  end.

Lemma readTrack_switch_error (command line : string) (track : Track) (e : error) :
  readTrack_switch command line track = Fail e -> strconv_error e.
Proof.
  unfold readTrack_switch.
  destruct (command =? "FLAGS").
  { intros E. apply (bind_error _ _ _ E).
    - intros H. exfalso. revert H. apply readTrack_flags_error.
    - discriminate. }
  repeat match goal with
  | |- (if ?c then _ else _) = _ -> _ => destruct c; [repeat error_step e|]
  end.
  discriminate.
Qed.

Lemma readTrack_error (fuel : nat) (b : Reader) (track : Track) (e : error) :
  readTrack fuel b track = Fail e -> strconv_error e.
Proof.
  revert b track. induction fuel as [|f IH]; intros b track; [discriminate|].
  rewrite readTrack_S. unfold bufio_ReadString.
  destruct (read_until b LF) as [[l fnd] r]. destruct fnd; [|discriminate].
  destruct (negb _); [discriminate|].
  error_step e.
  intros E'. apply (bind_error _ _ _ E'); [apply readTrack_switch_error|].
  intros [t'|t']; [apply IH | discriminate].
Qed.

Lemma readTracks_loop_error (fuel : nat) (b : Reader) (tracks : list Track) (e : error) :
  readTracks_loop fuel b tracks = Fail e -> strconv_error e.
Proof.
  revert b tracks. induction fuel as [|f IH]; intros b tracks; [discriminate|].
  rewrite readTracks_loop_S. unfold bufio_ReadString.
  destruct (read_until b LF) as [[l fnd] r]. destruct fnd; [|discriminate].
  destruct (negb _); [discriminate|].
  error_step e.
  destruct (_ =? "TRACK"); [|discriminate].
  error_step e. error_step e.
  intros E'. apply (bind_error _ _ _ E'); [apply readTrack_error|].
  intros [b' t']. apply IH.
Qed.

Lemma ReadFile_switch_error (fuel : nat) (command line : string) (b : Reader)
    (c : Cuesheet) (e : error) :
  ReadFile_switch fuel command line b c = Fail e -> strconv_error e.
Proof.
  unfold ReadFile_switch, readTracks.
  repeat match goal with
  | |- (if ?c then _ else _) = _ -> _ => destruct c; [repeat error_step e|]
  end; try discriminate.
  intros E'. apply (bind_error _ _ _ E'); [apply readTracks_loop_error|].
  intros [? ?]. discriminate.
Qed.

Lemma ReadFile_loop_error (fuel : nat) (b : Reader) (c : Cuesheet) (e : error) :
  ReadFile_loop fuel b c = Fail e -> strconv_error e.
Proof.
  revert b c. induction fuel as [|f IH]; intros b c; [discriminate|].
  rewrite ReadFile_loop_S. unfold bufio_ReadString.
  destruct (read_until b LF) as [[l fnd] r]. destruct fnd; [|discriminate].
  error_step e.
  intros E'. apply (bind_error _ _ _ E'); [apply ReadFile_switch_error|].
  intros [b' c']. apply IH.
Qed.

(** X7: on an input that is read without other error than the end of
    the input, [ReadFile] ends, and an error that it returns is one of
    [strconv]: [ErrSyntax] for a frame that has not three components, or the
    [NumError] of [ParseUint] for a number; the end of the input is never
    returned as an error. *)
Theorem ReadFile_outcomes (r : string) :
  match ReadFile r with
  | Ok _ => True
  | Fail e => strconv_error e
  | Panic => True
  | OutOfFuel => False
  end.
Proof.
  destruct (ReadFile r) as [c|e| |] eqn:E; try exact I.
  - apply (ReadFile_loop_error _ _ _ _ E).
  - revert E. apply ReadFile_loop_enough. lia.
Qed.

(** ** Line ends *)

Lemma crlf_no_LF (s : string) : ContainsByte s LF = false -> crlf s = s.
Proof.
  induction s as [|c s IH]; [reflexivity|].
  cbn [ContainsByte crlf]. intros H. apply orb_false_iff in H as [Hc Hs].
  rewrite Hc, (IH Hs). reflexivity.
Qed.

Lemma crlf_append (a b : string) : crlf (a ++ b) = crlf a ++ crlf b.
Proof.
  induction a as [|c a IH]; [reflexivity|].
  cbn [append crlf]. destruct (Ascii.eqb c LF); cbn [append]; rewrite IH; reflexivity.
Qed.

Lemma length_crlf (s : string) : String.length s <= String.length (crlf s).
Proof.
  induction s as [|c s IH]; [cbn; lia|].
  cbn [crlf]. destruct (Ascii.eqb c LF); cbn [String.length]; lia.
Qed.

Lemma read_until_crlf (b : string) :
  read_until (crlf b) LF =
  let '(l, found, r) := read_until b LF in (crlf l, found, crlf r).
Proof.
  induction b as [|c b IH]; [reflexivity|].
  cbn [crlf read_until]. destruct (Ascii.eqb c LF) eqn:Hc.
  - cbn [read_until]. change (Ascii.eqb CR LF) with false. cbn iota.
    rewrite Ascii.eqb_refl. cbn [crlf]. rewrite Hc. reflexivity.
  - cbn [read_until]. rewrite Hc, IH.
    destruct (read_until b LF) as [[l found] r]. cbn [crlf]. rewrite Hc. reflexivity.
Qed.

Lemma prefix_crlf (p l : string) :
  all_bytes is_space p = true -> String.prefix p (crlf l) = String.prefix p l.
Proof.
  revert l. induction p as [|a p IH]; intros l H; [destruct l; cbn [crlf];
    [reflexivity | destruct (Ascii.eqb _ LF); reflexivity]|].
  cbn [all_bytes] in H. apply andb_true_iff in H as [Ha Hp].
  apply Ascii.eqb_eq in Ha. subst a.
  destruct l as [|c l]; [reflexivity|].
  cbn [crlf]. destruct (Ascii.eqb c LF) eqn:Hc.
  - apply Ascii.eqb_eq in Hc. subst c. reflexivity.
  - cbn [String.prefix]. destruct (ascii_dec SP c); [apply IH, Hp | reflexivity].
Qed.

Lemma TrimRight_all (d cutset : string) :
  all_bytes (ContainsByte cutset) d = true -> TrimRight d cutset = EmptyString.
Proof.
  induction d as [|c d IH]; [reflexivity|].
  cbn [all_bytes TrimRight]. intros H. apply andb_true_iff in H as [Hc Hd].
  rewrite (IH Hd), Hc. reflexivity.
Qed.

Lemma TrimRight_cut (x d cutset : string) :
  all_bytes (ContainsByte cutset) d = true ->
  TrimRight (x ++ d) cutset = TrimRight x cutset.
Proof.
  intros H. induction x as [|c x IH]; cbn [append]; [apply TrimRight_all, H|].
  cbn [TrimRight]. rewrite IH. reflexivity.
Qed.

Lemma Trim_crlf_line (l r : string) (b : string) :
  read_until b LF = (l, true, r) -> Trim (crlf l) delims = Trim l delims.
Proof.
  intros E. destruct (read_until_found _ _ _ _ E) as (l0 & -> & _ & H0).
  rewrite crlf_append, (crlf_no_LF l0 H0). cbn [crlf]. rewrite Ascii.eqb_refl.
  unfold Trim. rewrite !TrimRight_cut by reflexivity. reflexivity.
Qed.

Lemma readTrack_crlf (fuel : nat) (b : Reader) (track : Track) :
  readTrack fuel (crlf b) track = on_reader crlf (readTrack fuel b track).
Proof.
  revert b track. induction fuel as [|f IH]; intros b track; [reflexivity|].
  rewrite !readTrack_S. unfold bufio_ReadString. rewrite read_until_crlf.
  destruct (read_until b LF) as [[l found] r] eqn:E. destruct found; [|reflexivity].
  unfold HasPrefix. rewrite (prefix_crlf "    " l eq_refl).
  rewrite (Trim_crlf_line l r b E).
  destruct (negb _); [reflexivity|].
  destruct (ReadString _) as [[command line]| | |]; cbn [bind]; try reflexivity.
  destruct (readTrack_switch _ _ _) as [[t'|t']| | |]; cbn [bind]; try reflexivity.
  apply IH.
Qed.

Lemma readTracks_loop_crlf (fuel : nat) (b : Reader) (tracks : list Track) :
  readTracks_loop fuel (crlf b) tracks = on_reader crlf (readTracks_loop fuel b tracks).
Proof.
  revert b tracks. induction fuel as [|f IH]; intros b tracks; [reflexivity|].
  rewrite !readTracks_loop_S. unfold bufio_ReadString. rewrite read_until_crlf.
  destruct (read_until b LF) as [[l found] r] eqn:E. destruct found; [|reflexivity].
  unfold HasPrefix. rewrite (prefix_crlf "  " l eq_refl).
  rewrite (Trim_crlf_line l r b E).
  destruct (negb _); [reflexivity|].
  destruct (ReadString _) as [[command line]| | |]; cbn [bind]; try reflexivity.
  destruct (command =? "TRACK"); [|reflexivity].
  destruct (ReadUint _) as [[num line']| | |]; cbn [bind]; try reflexivity.
  destruct (ReadString _) as [[v line'']| | |]; cbn [bind]; try reflexivity.
  rewrite readTrack_crlf.
  destruct (readTrack f r _) as [[b' t']| | |]; cbn [on_reader bind]; try reflexivity.
  apply IH.
Qed.

Lemma ReadFile_switch_crlf (fuel : nat) (command line : string) (b : Reader)
    (c : Cuesheet) :
  ReadFile_switch fuel command line (crlf b) c =
  on_reader crlf (ReadFile_switch fuel command line b c).
Proof.
  unfold ReadFile_switch, readTracks.
  repeat match goal with
  | |- (if ?x then _ else _) = on_reader _ (if ?x then _ else _) => destruct x
  | |- bind (ReadString ?s) _ = _ =>
      destruct (ReadString s) as [[? ?]| | |]; cbn [bind]
  | |- bind (ReadFrame ?s) _ = _ =>
      destruct (ReadFrame s) as [[? ?]| | |]; cbn [bind]
  end; try reflexivity.
  rewrite readTracks_loop_crlf.
  destruct (readTracks_loop fuel b []) as [[b' ts]| | |]; reflexivity.
Qed.

Lemma ReadFile_loop_crlf (fuel : nat) (b : Reader) (c : Cuesheet) :
  ReadFile_loop fuel (crlf b) c = ReadFile_loop fuel b c.
Proof.
  revert b c. induction fuel as [|f IH]; intros b c; [reflexivity|].
  rewrite !ReadFile_loop_S. unfold bufio_ReadString. rewrite read_until_crlf.
  destruct (read_until b LF) as [[l found] r] eqn:E. destruct found; [|reflexivity].
  rewrite (Trim_crlf_line l r b E).
  destruct (ReadString _) as [[command line]| | |]; cbn [bind]; try reflexivity.
  rewrite ReadFile_switch_crlf.
  destruct (ReadFile_switch f command line r c) as [[b' c']| | |];
    cbn [on_reader bind]; try reflexivity.
  apply IH.
Qed.

(** Carriage returns before the newlines, on the bytes to read. *)
Lemma ReadFile_crlf_lines (s : string) : ReadFile (crlf s) = ReadFile s.
Proof.
  unfold ReadFile. rewrite ReadFile_loop_crlf.
  apply ReadFile_loop_fuel; pose proof (length_crlf s); lia.
Qed.

(** X8: [ReadFile] reads a text whose lines end with carriage return and
    newline as it reads the same text whose lines end with a newline: the
    same sheet, the same error or the same panic.  This is said of a text
    that, with its carriage returns, has at most 4096 bytes, which the buffer
    of the reader holds whole. *)
Theorem ReadFile_crlf (s : string) :
  String.length (crlf s) <= defaultBufSize ->
  Buffered.ReadFile (crlf s) = Buffered.ReadFile s.
Proof.
  intros Hlen. pose proof (length_crlf s) as Hs.
  rewrite !ReadFile_buffered by lia. apply ReadFile_crlf_lines.
Qed.

Lemma ReadFile_crlf_witness :
  String.length (crlf minimal_text) <= defaultBufSize /\
  Buffered.ReadFile (crlf minimal_text) = Buffered.ReadFile minimal_text /\
  Buffered.ReadFile minimal_text = Ok minimal_sheet.
Proof.
  split; [apply Nat.leb_le; vm_compute; reflexivity|].
  split; [|vm_compute; reflexivity].
  apply (ReadFile_crlf minimal_text). apply Nat.leb_le. vm_compute. reflexivity.
Defined.

(** ** Numbers *)

Lemma digit_val_isDigit (c : ascii) (d : N) :
  digit_val c = Some d -> isDigit c = true /\ (d <= 9)%N.
Proof.
  unfold digit_val, isDigit.
  destruct ((48 <=? N_of_ascii c)%N && (N_of_ascii c <=? 57)%N) eqn:H; [|discriminate].
  intros E. injection E as <-. split; [reflexivity|].
  apply andb_true_iff in H as [H1 H2]. apply N.leb_le in H1, H2. lia.
Qed.

Lemma ParseUint_loop_ok (s0 s : string) (maxVal n m : N) :
  ParseUint_loop s0 s maxVal n = Ok m ->
  all_bytes isDigit s = true /\ m = decimal_value n s.
Proof.
  revert n. induction s as [|c s IH]; intros n; cbn [ParseUint_loop all_bytes decimal_value].
  - intros E. injection E as <-. split; reflexivity.
  - destruct (digit_val c) as [d|] eqn:Hd; [|discriminate].
    destruct (digit_val_isDigit c d Hd) as [Hc Hd9].
    destruct ((2 ^ 64 - 1) / 10 + 1 <=? n)%N eqn:Hcut; [discriminate|].
    destruct (_ || _) eqn:Hb; [discriminate|].
    intros E. apply IH in E as [Hs ->]. rewrite Hc, Hs. split; [reflexivity|].
    f_equal.
    apply N.leb_gt in Hcut. apply orb_false_iff in Hb as [Hb _]. apply N.ltb_ge in Hb.
    change ((2 ^ 64 - 1) / 10 + 1)%N with 1844674407370955162%N in Hcut.
    change (2 ^ 64)%N with 18446744073709551616%N in *.
    rewrite (N.mod_small (n * 10)) in * by lia.
    destruct (N.lt_ge_cases (n * 10 + d) 18446744073709551616) as [Hlt|Hge].
    + rewrite N.mod_small by exact Hlt. reflexivity.
    + exfalso.
      assert (Hm : ((n * 10 + d) mod 18446744073709551616 =
                    n * 10 + d - 18446744073709551616)%N).
      { symmetry. apply (N.mod_unique _ _ 1); lia. }
      rewrite Hm in Hb. lia.
Qed.

Lemma ParseUint_ok (s : string) (bitSize n : N) :
  ParseUint s bitSize = Ok n ->
  s <> EmptyString /\ all_bytes isDigit s = true /\ n = decimal_value 0 s.
Proof.
  unfold ParseUint. destruct s as [|c s]; [discriminate|].
  intros E. apply ParseUint_loop_ok in E as [H1 H2].
  split; [discriminate | split; assumption].
Qed.

(** X9: [ReadUint] returns a number exactly when the field that
    [ReadString] extracts is a string of decimal digits, not empty, whose value
    is below 2^32; the number is that value (leading zeros are accepted, a
    sign is not). *)
Theorem ReadUint_exact (s v rest rest' : string) (n : N) :
  ReadString s = Ok (v, rest) ->
  (ReadUint s = Ok (n, rest') <->
   rest' = rest /\ v <> EmptyString /\ all_bytes isDigit v = true /\
   decimal_value 0 v = n /\ (n < 2 ^ 32)%N).
Proof.
  intros HR. unfold ReadUint. rewrite HR. cbn [bind]. split.
  - destruct (ParseUint v 32) as [m| | |] eqn:E; cbn [bind]; try discriminate.
    intros H. injection H as <- <-.
    pose proof (ParseUint_bound v m E) as Hb.
    apply ParseUint_ok in E as (H1 & H2 & H3).
    repeat split; try assumption. symmetry. exact H3.
  - intros (-> & H1 & H2 & H3 & H4). subst n.
    rewrite (ParseUint_digits v H1 H2 H4). reflexivity.
Qed.

Lemma ReadUint_exact_witness :
  ReadString "007 AUDIO" = Ok ("007", "AUDIO") /\
  ReadUint "007 AUDIO" = Ok (7%N, "AUDIO").
Proof.
  split; [reflexivity|].
  apply (proj2 (ReadUint_exact "007 AUDIO" "007" "AUDIO" "AUDIO" 7 eq_refl)).
  repeat split; try discriminate; try reflexivity.
Defined.

Lemma isDigit_not_sign (c : ascii) :
  isDigit c = true -> Ascii.eqb c "+" = false /\ Ascii.eqb c "-" = false.
Proof.
  intros H. split.
  - destruct (Ascii.eqb_spec c "+") as [->|_]; [discriminate H | reflexivity].
  - destruct (Ascii.eqb_spec c "-") as [->|_]; [discriminate H | reflexivity].
Qed.

Lemma ParseInt_bound (v : string) (n : Z) :
  ParseInt v 32 = Ok n -> (- 2 ^ 31 <= n < 2 ^ 31)%Z.
Proof.
  unfold ParseInt. destruct v as [|c t]; [discriminate|].
  change (2 ^ (32 - 1))%N with 2147483648%N. change (2 ^ 31)%Z with 2147483648%Z.
  destruct (Ascii.eqb c "+"); [|destruct (Ascii.eqb c "-")];
    match goal with
    | |- match ParseUint ?x 32 with _ => _ end = _ -> _ =>
        destruct (ParseUint x 32) as [un|[| | |f nm [| | |f' nm' e']]| |]
    end; try discriminate; cbn [negb andb];
    match goal with
    | |- (if (?a <=? ?b)%N then _ else _) = _ -> _ =>
        destruct (N.leb_spec a b); [discriminate|]
    | |- (if (?a <? ?b)%N then _ else _) = _ -> _ =>
        destruct (N.ltb_spec a b); [discriminate|]
    end; intros E; injection E as <-; lia.
Qed.

(** X10: [ReadInt] reads what [ReadUint] reads, as long as it is below
    2^31, and returns a range error above; what it returns lies from -2^31 to
    2^31 - 1, with the rest of the string that [ReadString] leaves. *)
Theorem ReadInt_ReadUint (s v rest : string) :
  ReadString s = Ok (v, rest) ->
  (forall u, ParseUint v 32 = Ok u ->
     ReadUint s = Ok (u, rest) /\
     ReadInt s = if (u <? 2 ^ 31)%N then Ok (Z.of_N u, rest)
                 else Fail (NumError fnParseInt v ErrRange)) /\
  (forall n r, ReadInt s = Ok (n, r) -> (- 2 ^ 31 <= n < 2 ^ 31)%Z /\ r = rest).
Proof.
  intros HR. split.
  - intros u E. unfold ReadUint, ReadInt. rewrite HR. cbn [bind]. rewrite E. cbn [bind].
    split; [reflexivity|].
    pose proof (ParseUint_ok v 32 u E) as (Hne & Hd & _).
    destruct v as [|c t]; [congruence|].
    cbn [all_bytes] in Hd. apply andb_true_iff in Hd as [Hc _].
    destruct (isDigit_not_sign c Hc) as [H1 H2].
    unfold ParseInt. rewrite H1, H2, E. cbn [negb andb].
    change (2 ^ (32 - 1))%N with (2 ^ 31)%N.
    destruct (N.leb_spec (2 ^ 31) u) as [Hle|Hlt].
    + replace (u <? 2 ^ 31)%N with false by (symmetry; apply N.ltb_ge, Hle). reflexivity.
    + replace (u <? 2 ^ 31)%N with true by (symmetry; apply N.ltb_lt, Hlt). reflexivity.
  - intros n r. unfold ReadInt. rewrite HR. cbn [bind].
    destruct (ParseInt v 32) as [m| | |] eqn:E; cbn [bind]; try discriminate.
    intros H. injection H as <- <-. split; [apply (ParseInt_bound v m E) | reflexivity].
Qed.

Lemma ReadInt_ReadUint_witness :
  ReadString "42 x" = Ok ("42", "x") /\
  ReadUint "42 x" = Ok (42%N, "x") /\
  ReadInt "42 x" = Ok (42%Z, "x").
Proof.
  split; [reflexivity|].
  apply (proj1 (ReadInt_ReadUint "42 x" "42" "x" eq_refl) 42%N). reflexivity.
Defined.

(** ** Comment lines *)



(** ** Block sizes *)

(** X12: [GetBlockSize] is 0 exactly for the data types that
    [ValidateTrackDataType] rejects, and from 2048 to 2448 for the others; a
    track that is no data track ([IsDataTrack]) has blocks of 2352 bytes. *)
Theorem Track_GetBlockSize_known (t : Track) :
  (Track_GetBlockSize t = 0%Z <->
   ValidateTrackDataType (Track_TrackDataType t) = Some ErrSyntax) /\
  (Track_GetBlockSize t = 0 \/ 2048 <= Track_GetBlockSize t <= 2448)%Z /\
  (Track_IsDataTrack t = false -> Track_GetBlockSize t = 2352%Z).
Proof.
  unfold Track_GetBlockSize, ValidateTrackDataType, Track_IsDataTrack.
  assert (H : match map_lookup ValidTrackModes (Track_TrackDataType t) with
              | Some mode => (2048 <= TrackMode_BlockSize mode <= 2448)%Z
              | None => True
              end).
  { unfold ValidTrackModes. cbn [map_lookup].
    repeat match goal with
    | |- match (if ?c then _ else _) with _ => _ end => destruct c; [cbn; lia|]
    end.
    exact I. }
  split; [|split].
  - destruct (map_lookup ValidTrackModes (Track_TrackDataType t)) as [mode|];
      split; try reflexivity; try discriminate. intros E. lia.
  - destruct (map_lookup ValidTrackModes (Track_TrackDataType t)) as [mode|];
      [right; exact H | left; reflexivity].
  - intros E. apply negb_false_iff, String.eqb_eq in E. rewrite E. reflexivity.
Qed.

(** ** Flags *)


Lemma flags_ok_lor (flags b : Z) :
  flags_ok flags = true -> Z.land b flags_mask = b -> flags_ok (Z.lor flags b) = true.
Proof.
  unfold flags_ok. fold flags_mask. intros H Hb. apply Z.eqb_eq in H. apply Z.eqb_eq.
  rewrite Z.land_lor_distr_l, H, Hb. reflexivity.
Qed.

Lemma readTrack_flags_ok (fuel : nat) (line : string) (flags fl : Z) :
  readTrack_flags fuel line flags = Ok fl -> flags_ok flags = true -> flags_ok fl = true.
Proof.
  revert line flags. induction fuel as [|f IH]; intros line flags;
    destruct line as [|a l]; try discriminate;
    try (intros E H; injection E as <-; exact H).
  cbn [readTrack_flags].
  destruct (ReadString (String a l)) as [[v r]| | |]; cbn [bind]; try discriminate.
  intros E H. apply (IH _ _ E).
  repeat match goal with
  | |- flags_ok (if ?c then _ else _) = true => destruct c
  end; try exact H; apply flags_ok_lor; try exact H; reflexivity.
Qed.

(** X13: whatever a FLAGS line holds, the flags of the track after it are
    made of the four named bits only, and they do not depend on the flags
    that the track had before; the line gives no error. *)
Theorem readTrack_FLAGS_named_bits (line : string) (t : Track) :
  match readTrack_switch "FLAGS" line t with
  | Ok (Continue t') =>
      flags_ok (Track_Flags t') = true /\
      forall u, readTrack_switch "FLAGS" line u =
                Ok (Continue (set_Track_Flags (Track_Flags t') u))
  | Ok (Break _) => False
  | Fail _ => False
  | Panic => True
  | OutOfFuel => False
  end.
Proof.
  change (readTrack_switch "FLAGS" line t)
    with (fl <- readTrack_flags (S (String.length line)) line None_ ;;
          Ok (Continue (set_Track_Flags fl t))).
  destruct (readTrack_flags (S (String.length line)) line None_) as [fl|e| |] eqn:E;
    cbn [bind].
  - split.
    + destruct t as [n ty fl0 isrc ti pe so co ar me pg po ix]. norm_track.
      apply (readTrack_flags_ok _ _ _ _ E). reflexivity.
    + intros u.
      change (readTrack_switch "FLAGS" line u)
        with (fl <- readTrack_flags (S (String.length line)) line None_ ;;
              Ok (Continue (set_Track_Flags fl u))).
      rewrite E. destruct t as [n ty fl0 isrc ti pe so co ar me pg po ix]. reflexivity.
  - revert E. apply readTrack_flags_error.
  - exact I.
  - revert E. apply readTrack_flags_enough. lia.
Qed.

Lemma flag_step_bit (flags : Z) (v : string) :
  (if v =? "DCP" then Z.lor flags Dcp
   else if v =? "4CH" then Z.lor flags Four_ch
   else if v =? "PRE" then Z.lor flags Pre
   else if v =? "SCMS" then Z.lor flags Scms
   else flags) = Z.lor flags (flag_bit v).
Proof.
  unfold flag_bit.
  repeat match goal with |- context [if ?c then _ else _] => destruct c end;
    try reflexivity.
  rewrite Z.lor_0_r. reflexivity.
Qed.

Lemma words_cons (w w' : string) (r : list string) :
  words (w :: w' :: r) = w ++ String SP (words (w' :: r)).
Proof. reflexivity. Qed.

Lemma readTrack_flags_words (ws : list string) (fuel : nat) (flags : Z) :
  forallb bare ws = true -> String.length (words ws) < fuel ->
  readTrack_flags fuel (words ws) flags =
  Ok (fold_left (fun fl v => Z.lor fl (flag_bit v)) ws flags).
Proof.
  revert fuel flags. induction ws as [|w r IH]; intros fuel flags H Hf.
  - destruct fuel; reflexivity.
  - cbn [forallb] in H. apply andb_true_iff in H as [Hw Hr].
    destruct fuel as [|f]; [lia|].
    destruct r as [|w' r'].
    + cbn [words fold_left] in *.
      destruct (bare_inv w Hw) as (a & s & E & _). rewrite E at 1.
      cbn [readTrack_flags]. rewrite <- E, (ReadString_bare w Hw). cbn [bind].
      rewrite flag_step_bit. destruct f; reflexivity.
    + rewrite words_cons in *.
      destruct (bare_inv w Hw) as (a & s & E & _).
      assert (E' : w ++ String SP (words (w' :: r')) =
                   String a (s ++ String SP (words (w' :: r'))))
        by (rewrite E; reflexivity).
      rewrite E' at 1. cbn [readTrack_flags]. rewrite <- E'.
      rewrite (ReadString_bare_space w _ Hw). cbn [bind].
      rewrite flag_step_bit. cbn [fold_left]. apply (IH f _ Hr).
      rewrite length_append in Hf. cbn [String.length] in Hf. lia.
Qed.

Lemma has_flag_lor (a c b : Z) :
  negb (Z.land (Z.lor a c) b =? 0)%Z =
  negb (Z.land a b =? 0)%Z || negb (Z.land c b =? 0)%Z.
Proof.
  rewrite Z.land_lor_distr_l.
  destruct (Z.eqb_spec (Z.land a b) 0) as [Ha|Ha];
    destruct (Z.eqb_spec (Z.land c b) 0) as [Hc|Hc];
    destruct (Z.eqb_spec (Z.lor (Z.land a b) (Z.land c b)) 0) as [H|H];
    try reflexivity; exfalso.
  - apply H. apply Z.lor_eq_0_iff. split; assumption.
  - apply Z.lor_eq_0_iff in H as [_ H]. contradiction.
  - apply Z.lor_eq_0_iff in H as [H _]. contradiction.
  - apply Z.lor_eq_0_iff in H as [H _]. contradiction.
Qed.

Lemma has_flag_fold (ws : list string) (flags b : Z) :
  negb (Z.land (fold_left (fun fl v => Z.lor fl (flag_bit v)) ws flags) b =? 0)%Z =
  negb (Z.land flags b =? 0)%Z ||
  existsb (fun v => negb (Z.land (flag_bit v) b =? 0)%Z) ws.
Proof.
  revert flags. induction ws as [|w r IH]; intros flags; cbn [fold_left existsb].
  - rewrite orb_false_r. reflexivity.
  - rewrite IH, has_flag_lor, orb_assoc. reflexivity.
Qed.

Lemma existsb_ext' {A : Type} (f g : A -> bool) (l : list A) :
  (forall a, f a = g a) -> existsb f l = existsb g l.
Proof. intros H. induction l as [|a l IH]; cbn [existsb]; [|rewrite H, IH]; reflexivity. Qed.

Lemma flag_bit_has (v name : string) (b : Z) :
  In (name, b) [("DCP", Dcp); ("4CH", Four_ch); ("PRE", Pre); ("SCMS", Scms)] ->
  negb (Z.land (flag_bit v) b =? 0)%Z = (v =? name).
Proof.
  cbn [In]. unfold flag_bit.
  intros [E|[E|[E|[E|[]]]]]; injection E as <- <-;
    destruct (String.eqb_spec v "DCP") as [->|?]; try reflexivity;
    destruct (String.eqb_spec v "4CH") as [->|?]; try reflexivity;
    destruct (String.eqb_spec v "PRE") as [->|?]; try reflexivity;
    destruct (String.eqb_spec v "SCMS") as [->|?]; reflexivity.
Qed.

(** X14: a FLAGS line of tokens without quote, one space between two of
    them, sets the flags of the track so that [IsCopyPermitted],
    [IsFourChannel], [HasPreemphasis] and [HasSCMS] tell whether the token
    DCP, 4CH, PRE or SCMS is on the line; their order, their repetition and
    the other tokens do not matter. *)
Theorem readTrack_FLAGS_tokens (ws : list string) (t : Track) :
  forallb bare ws = true ->
  exists t',
    readTrack_switch "FLAGS" (words ws) t = Ok (Continue t') /\
    t' = set_Track_Flags (Track_Flags t') t /\
    Track_IsCopyPermitted t' = existsb (fun v => v =? "DCP") ws /\
    Track_IsFourChannel t' = existsb (fun v => v =? "4CH") ws /\
    Track_HasPreemphasis t' = existsb (fun v => v =? "PRE") ws /\
    Track_HasSCMS t' = existsb (fun v => v =? "SCMS") ws.
Proof.
  intros H.
  exists (set_Track_Flags (fold_left (fun fl v => Z.lor fl (flag_bit v)) ws None_) t).
  split.
  - change (readTrack_switch "FLAGS" (words ws) t)
      with (fl <- readTrack_flags (S (String.length (words ws))) (words ws) None_ ;;
            Ok (Continue (set_Track_Flags fl t))).
    rewrite (readTrack_flags_words ws _ _ H) by lia. reflexivity.
  - split; [destruct t as [n ty fl isrc ti pe so co ar me pg po ix]; reflexivity|].
    unfold Track_IsCopyPermitted, Track_IsFourChannel, Track_HasPreemphasis,
      Track_HasSCMS, Track_HasFlag.
    destruct t as [n ty fl isrc ti pe so co ar me pg po ix]. norm_track.
    rewrite !has_flag_fold. cbn [None_ Z.land Z.eqb negb orb].
    repeat split; apply existsb_ext'; intros v;
      [apply (flag_bit_has v "DCP") | apply (flag_bit_has v "4CH")
      |apply (flag_bit_has v "PRE") | apply (flag_bit_has v "SCMS")];
      cbn [In]; tauto.
Qed.

Lemma readTrack_FLAGS_tokens_witness :
  forallb bare ["PRE"; "XYZ"; "DCP"; "PRE"] = true /\
  exists t',
    readTrack_switch "FLAGS" "PRE XYZ DCP PRE" Track_zero = Ok (Continue t') /\
    Track_IsCopyPermitted t' = true /\ Track_IsFourChannel t' = false /\
    Track_HasPreemphasis t' = true /\ Track_HasSCMS t' = false.
Proof.
  split; [reflexivity|].
  destruct (readTrack_FLAGS_tokens ["PRE"; "XYZ"; "DCP"; "PRE"] Track_zero eq_refl)
    as (t' & E & _ & H1 & H2 & H3 & H4).
  exists t'. repeat split; assumption.
Defined.





(** ** The helper methods *)

Lemma find_first {A : Type} (p : A -> bool) (l : list A) :
  match find p l with
  | Some x =>
      p x = true /\
      exists pre post, l = (pre ++ x :: post)%list /\ Forall (fun a => p a = false) pre
  | None => Forall (fun a => p a = false) l
  end.
Proof.
  induction l as [|a l IH]; cbn [find]; [constructor|].
  destruct (p a) eqn:Ha.
  - split; [exact Ha|]. exists [], l. split; [reflexivity | constructor].
  - destruct (find p l) as [x|].
    + destruct IH as (Hx & pre & post & -> & Hpre). split; [exact Hx|].
      exists (a :: pre), post. split; [reflexivity|]. constructor; assumption.
    + constructor; assumption.
Qed.

Lemma find_app {A : Type} (p : A -> bool) (l1 l2 : list A) :
  find p (l1 ++ l2)%list =
  match find p l1 with Some x => Some x | None => find p l2 end.
Proof.
  induction l1 as [|a l1 IH]; cbn [app find]; [reflexivity|].
  destruct (p a); [reflexivity | exact IH].
Qed.

(** X16: [GetIndex] returns the first index of the track that has the
    number, and its error exactly when no index has it (always, when
    [IndexCount] is 0); so [StartPosition] is the frame of the index that
    [GetStartIndex] returns, the first one numbered 1, and [HasPregap] tells
    whether an index numbered 0 exists, which [GetPregapIndex] then returns. *)
Theorem Track_GetIndex_first (t : Track) (number : N) :
  match Track_GetIndex t number with
  | Some idx =>
      TrackIndex_Number idx = number /\
      exists pre post,
        Track_Index t = (pre ++ idx :: post)%list /\
        Forall (fun i => TrackIndex_Number i <> number) pre
  | None => Forall (fun i => TrackIndex_Number i <> number) (Track_Index t)
  end /\
  Track_StartPosition t = option_map TrackIndex_Frame (Track_GetStartIndex t) /\
  Track_HasPregap t = existsb (fun i => (TrackIndex_Number i =? 0)%N) (Track_Index t) /\
  (Track_HasPregap t = true <-> exists idx, Track_GetPregapIndex t = Some idx) /\
  (Track_IndexCount t = 0%Z -> Track_GetIndex t number = None).
Proof.
  split; [|split; [|split; [|split]]].
  - unfold Track_GetIndex.
    pose proof (find_first (fun idx => (TrackIndex_Number idx =? number)%N) (Track_Index t))
      as H.
    destruct (find _ _) as [idx|].
    + destruct H as (Hx & pre & post & E & Hpre). split; [apply N.eqb_eq, Hx|].
      exists pre, post. split; [exact E|].
      revert Hpre. apply Forall_impl. intros a Ha. apply N.eqb_neq, Ha.
    + revert H. apply Forall_impl. intros a Ha. apply N.eqb_neq, Ha.
  - unfold Track_StartPosition, Track_GetStartIndex.
    destruct (Track_GetIndex t 1); reflexivity.
  - unfold Track_HasPregap, Track_GetIndex.
    induction (Track_Index t) as [|a l IH]; cbn [find existsb]; [reflexivity|].
    destruct (TrackIndex_Number a =? 0)%N; [reflexivity | exact IH].
  - unfold Track_HasPregap, Track_GetPregapIndex.
    destruct (Track_GetIndex t 0) as [idx|]; split; try discriminate.
    + intros _. exists idx. reflexivity.
    + reflexivity.
    + intros [idx E]. discriminate E.
  - unfold Track_IndexCount, Track_GetIndex.
    destruct (Track_Index t); [reflexivity | cbn [List.length]; lia].
Qed.

Lemma GetTrack_files_find (files : list File) (number : N) :
  GetTrack_files files number =
  find (fun t => (Track_TrackNumber t =? number)%N) (flat_map File_Tracks files).
Proof.
  induction files as [|f files IH]; cbn [GetTrack_files flat_map]; [reflexivity|].
  rewrite find_app, IH. reflexivity.
Qed.

Lemma TrackCount_fold (files : list File) (count : Z) :
  fold_left (fun count file => (count + Z.of_nat (List.length (File_Tracks file)))%Z)
    files count =
  (count + Z.of_nat (List.length (flat_map File_Tracks files)))%Z.
Proof.
  revert count. induction files as [|f files IH]; intros count; cbn [fold_left flat_map].
  - cbn [List.length]. lia.
  - rewrite IH, length_app. lia.
Qed.

(** X17: [GetTrack] returns the first track that has the number, in the
    order of the files and of their tracks, and its error exactly when no
    track has it; [TrackCount] is the number of these tracks. *)
Theorem Cuesheet_GetTrack_first (c : Cuesheet) (number : N) :
  match Cuesheet_GetTrack c number with
  | Some t =>
      Track_TrackNumber t = number /\
      exists pre post,
        all_tracks c = (pre ++ t :: post)%list /\
        Forall (fun t' => Track_TrackNumber t' <> number) pre
  | None => Forall (fun t' => Track_TrackNumber t' <> number) (all_tracks c)
  end /\
  Cuesheet_TrackCount c = Z.of_nat (List.length (all_tracks c)).
Proof.
  split.
  - unfold Cuesheet_GetTrack, all_tracks. rewrite GetTrack_files_find.
    pose proof (find_first (fun t => (Track_TrackNumber t =? number)%N)
                  (flat_map File_Tracks (Cuesheet_File c))) as H.
    destruct (find _ _) as [t|].
    + destruct H as (Hx & pre & post & E & Hpre). split; [apply N.eqb_eq, Hx|].
      exists pre, post. split; [exact E|].
      revert Hpre. apply Forall_impl. intros a Ha. apply N.eqb_neq, Ha.
    + revert H. apply Forall_impl. intros a Ha. apply N.eqb_neq, Ha.
  - unfold Cuesheet_TrackCount, all_tracks. rewrite TrackCount_fold. lia.
Qed.

Lemma TotalDuration_index_fold (ix : list TrackIndex) (m : N) :
  fold_left TotalDuration_index ix m = N.max m (max_frame ix).
Proof.
  revert m. induction ix as [|i ix IH]; intros m; cbn [fold_left max_frame fold_right].
  - rewrite N.max_0_r. reflexivity.
  - rewrite IH. unfold TotalDuration_index. fold (max_frame ix).
    rewrite N.max_assoc. f_equal.
    destruct (N.ltb_spec m (TrackIndex_Frame i));
      [rewrite N.max_r | rewrite N.max_l]; lia.
Qed.

Lemma max_frame_app (a b : list TrackIndex) :
  max_frame (a ++ b) = N.max (max_frame a) (max_frame b).
Proof.
  induction a as [|i a IH]; cbn [app max_frame fold_right];
    [rewrite N.max_0_l; reflexivity|].
  fold (max_frame (a ++ b)). fold (max_frame a). rewrite IH, N.max_assoc. reflexivity.
Qed.

Lemma TotalDuration_track_fold (ts : list Track) (m : N) :
  fold_left TotalDuration_track ts m = N.max m (max_frame (flat_map Track_Index ts)).
Proof.
  revert m. induction ts as [|t ts IH]; intros m; cbn [fold_left flat_map].
  - cbn [max_frame fold_right]. rewrite N.max_0_r. reflexivity.
  - rewrite IH. unfold TotalDuration_track.
    rewrite TotalDuration_index_fold, max_frame_app, N.max_assoc. reflexivity.
Qed.

Lemma TotalDuration_file_fold (fs : list File) (m : N) :
  fold_left TotalDuration_file fs m =
  N.max m (max_frame (flat_map Track_Index (flat_map File_Tracks fs))).
Proof.
  revert m. induction fs as [|f fs IH]; intros m; cbn [fold_left flat_map].
  - cbn [max_frame fold_right]. rewrite N.max_0_r. reflexivity.
  - rewrite IH. unfold TotalDuration_file.
    rewrite TotalDuration_track_fold, flat_map_app, max_frame_app, N.max_assoc.
    reflexivity.
Qed.

Lemma max_frame_spec (ix : list TrackIndex) :
  Forall (fun i => (TrackIndex_Frame i <= max_frame ix)%N) ix /\
  (ix = [] \/ exists i, In i ix /\ TrackIndex_Frame i = max_frame ix).
Proof.
  induction ix as [|i ix [IH1 IH2]]; [split; [constructor | left; reflexivity]|].
  cbn [max_frame fold_right]. fold (max_frame ix). split.
  - constructor; [apply N.le_max_l|]. revert IH1. apply Forall_impl. intros a Ha.
    apply (N.le_trans _ _ _ Ha), N.le_max_r.
  - right. destruct (N.max_spec (TrackIndex_Frame i) (max_frame ix)) as [[Hlt ->]|[Hle ->]].
    + destruct IH2 as [->|(j & Hj & Ej)].
      * cbn [max_frame fold_right] in Hlt. lia.
      * exists j. split; [right; exact Hj | exact Ej].
    + exists i. split; [left; reflexivity | reflexivity].
Qed.

(** X18: for a sheet with a file, [TotalDuration] converts one frame
    count with [ToDuration]: the greatest frame of the indexes of the sheet,
    that is the position of the last index, whatever the order of the tracks;
    for a sheet without file it is 0. *)
Theorem Cuesheet_TotalDuration_last_index (ToDuration : N -> Z) (c : Cuesheet) :
  Cuesheet_TotalDuration ToDuration c =
  (if (List.length (Cuesheet_File c) =? 0)%nat then 0%Z
   else ToDuration (max_frame (all_indexes c))) /\
  Forall (fun i => (TrackIndex_Frame i <= max_frame (all_indexes c))%N) (all_indexes c) /\
  (all_indexes c = [] \/
   exists i, In i (all_indexes c) /\ TrackIndex_Frame i = max_frame (all_indexes c)).
Proof.
  split; [|apply max_frame_spec].
  unfold Cuesheet_TotalDuration, all_indexes, all_tracks.
  rewrite TotalDuration_file_fold, N.max_0_l. reflexivity.
Qed.

(** ** What [Validate] reports and what it accepts *)

Lemma length_flat_map_if {A B : Type} (p : A -> bool) (e : B) (l : list A) :
  List.length (flat_map (fun a => if p a then [e] else []) l) = List.length (filter p l).
Proof.
  induction l as [|a l IH]; cbn [flat_map filter]; [reflexivity|].
  destruct (p a); cbn [app List.length]; rewrite IH; reflexivity.
Qed.

Lemma length_append_err (errs : list error) (err : option error) :
  List.length (append_err errs err) =
  List.length errs + count_if (match err with Some _ => true | None => false end).
Proof.
  destruct err; cbn [append_err count_if]; [rewrite length_app; reflexivity | lia].
Qed.

Lemma Track_Validate_length (t : Track) :
  List.length (Track_Validate t) = track_faults t.
Proof.
  unfold Track_Validate, track_faults.
  rewrite Track_Validate_index_fold. cbn [orb].
  rewrite length_append_err.
  assert (H : forall (b : bool) (errs : list error) (err : option error),
             List.length (if b then append_err errs err else errs) =
             List.length errs +
             count_if (b && match err with Some _ => true | None => false end)).
  { intros [|] errs err; [apply length_append_err | cbn; lia]. }
  rewrite H.
  assert (H' : forall (b : bool) (errs : list error) (e : error),
             List.length (if b then (errs ++ [e])%list else errs) =
             List.length errs + count_if b).
  { intros [|] errs e; [rewrite length_app; reflexivity | cbn; lia]. }
  rewrite H', length_app, length_flat_map_if, H'. cbn [List.length]. lia.
Qed.

(** X19: [Validate] of a track returns one error for each rule that the
    track breaks, and nothing else: one for a track number outside 1..99, one
    for each index numbered above 99, one when no index has the number 1, one
    for an ISRC that is not empty and not valid, one for a data type that is
    not known.  It accepts the track exactly when none is broken. *)
Theorem Track_Validate_count (t : Track) :
  List.length (Track_Validate t) = track_faults t /\
  (Track_Validate t = [] <-> track_faults t = 0).
Proof.
  split; [apply Track_Validate_length|].
  rewrite <- Track_Validate_length. split; [intros ->; reflexivity|].
  apply length_zero_iff_nil.
Qed.

Lemma length_flat_map_sum {A B : Type} (f : A -> list B) (l : list A) :
  List.length (flat_map f l) = list_sum (map (fun a => List.length (f a)) l).
Proof.
  induction l as [|a l IH]; cbn [flat_map map list_sum]; [reflexivity|].
  rewrite length_app, IH. reflexivity.
Qed.

Lemma Cuesheet_Validate_file_length (f : File) :
  List.length (Cuesheet_Validate_file [] f) = file_faults f.
Proof.
  unfold Cuesheet_Validate_file, file_faults.
  rewrite Track_Validate_fold, length_app, length_append_err, length_flat_map_sum.
  cbn [List.length]. f_equal. f_equal.
  apply map_ext. intros t. apply Track_Validate_length.
Qed.

Lemma Cuesheet_Validate_length (c : Cuesheet) :
  List.length (Cuesheet_Validate c) = sheet_faults c.
Proof.
  unfold Cuesheet_Validate, sheet_faults.
  rewrite Cuesheet_Validate_fold, length_app, length_flat_map_sum.
  rewrite (map_ext _ _ Cuesheet_Validate_file_length).
  assert (H' : forall (b : bool) (errs : list error) (e : error),
             List.length (if b then (errs ++ [e])%list else errs) =
             List.length errs + count_if b).
  { intros [|] errs e; [rewrite length_app; reflexivity | cbn; lia]. }
  rewrite H'.
  destruct (nonempty (Cuesheet_Catalog c)); cbn [andb];
    [rewrite length_append_err|]; cbn [List.length count_if]; lia.
Qed.

Lemma Cuesheet_Validate_accepted_faults (c : Cuesheet) :
  List.length (Cuesheet_Validate c) = sheet_faults c /\
  (Cuesheet_Validate c = [] -> sheet_faults c = 0).
Proof.
  split; [apply Cuesheet_Validate_length|].
  intros H. rewrite <- Cuesheet_Validate_length, H. reflexivity.
Qed.

(** X20: [Validate] of a sheet returns one error for each rule that the
    sheet breaks: one for a catalog that is not empty and not valid, one for a
    sheet without file, and for each file one for a type that is not known and
    the errors of each of its tracks.  It accepts the sheet exactly when none
    is broken. *)
Theorem Cuesheet_Validate_count (c : Cuesheet) :
  List.length (Cuesheet_Validate c) = sheet_faults c /\
  (Cuesheet_Validate c = [] <-> sheet_faults c = 0).
Proof.
  split; [apply Cuesheet_Validate_length|].
  rewrite <- Cuesheet_Validate_length. split; [intros ->; reflexivity|].
  apply length_zero_iff_nil.
Qed.

Lemma list_sum_zero (l : list nat) : list_sum l = 0 -> Forall (fun n => n = 0) l.
Proof.
  induction l as [|n l IH]; intros H; [constructor|].
  change (n + list_sum l = 0) in H. constructor; [lia | apply IH; lia].
Qed.

Lemma count_if_zero (b : bool) : count_if b = 0 -> b = false.
Proof. destruct b; [discriminate | reflexivity]. Qed.

Lemma track_faults_zero (t : Track) :
  track_faults t = 0 ->
  (1 <= Track_TrackNumber t <= 99)%N /\
  Forall (fun i => (TrackIndex_Number i <= 99)%N) (Track_Index t) /\
  (exists start, Track_StartPosition t = Some start) /\
  (Track_Isrc t = EmptyString \/ ValidateISRC (Track_Isrc t) = None) /\
  (0 < Track_GetBlockSize t)%Z.
Proof.
  unfold track_faults. intros H.
  assert (H1 : (Track_TrackNumber t <? 1)%N || (99 <? Track_TrackNumber t)%N = false)
    by (apply count_if_zero; lia).
  assert (H2 : filter (fun i => (99 <? TrackIndex_Number i)%N) (Track_Index t) = [])
    by (apply length_zero_iff_nil; lia).
  assert (H3 : negb (existsb (fun i => (TrackIndex_Number i =? 1)%N) (Track_Index t))
               = false) by (apply count_if_zero; lia).
  assert (H4 : nonempty (Track_Isrc t) &&
               match ValidateISRC (Track_Isrc t) with Some _ => true | None => false end
               = false) by (apply count_if_zero; lia).
  assert (H5 : match ValidateTrackDataType (Track_TrackDataType t) with
               | Some _ => true | None => false end = false)
    by (apply count_if_zero; lia).
  clear H. repeat split.
  - apply orb_false_iff in H1 as [H1 _]. apply N.ltb_ge in H1. exact H1.
  - apply orb_false_iff in H1 as [_ H1]. apply N.ltb_ge in H1. exact H1.
  - apply Forall_forall. intros i Hi.
    destruct (N.ltb_spec 99 (TrackIndex_Number i)) as [Hgt|Hle]; [|exact Hle].
    exfalso. assert (Hin : In i (filter (fun i => (99 <? TrackIndex_Number i)%N)
                                   (Track_Index t))).
    { apply filter_In. split; [exact Hi | apply N.ltb_lt, Hgt]. }
    rewrite H2 in Hin. destruct Hin.
  - apply negb_false_iff in H3. unfold Track_StartPosition, Track_GetIndex.
    apply existsb_exists in H3 as (i & Hi & Hn).
    destruct (find _ _) as [idx|] eqn:E; [eexists; reflexivity|].
    exfalso. apply (find_none _ _ E) in Hi. congruence.
  - apply andb_false_iff in H4 as [H4|H4].
    + left. apply nonempty_false, H4.
    + right. destruct (ValidateISRC _); [discriminate | reflexivity].
  - unfold Track_GetBlockSize. unfold ValidateTrackDataType in H5.
    destruct (map_lookup ValidTrackModes (Track_TrackDataType t)) as [mode|] eqn:E;
      [|discriminate].
    clear H5. unfold ValidTrackModes in E. cbn [map_lookup] in E.
    repeat match type of E with
    | (if ?c then _ else _) = _ =>
        destruct c; [injection E as <-; reflexivity|]
    end.
    discriminate.
Qed.

(** X21: in a sheet that [Validate] accepts there is a file, and every
    track has a number from 1 to 99, a start position ([StartPosition]
    returns no error), index numbers up to 99, a block size above 0
    ([GetBlockSize]) and an ISRC that is empty or valid. *)
Theorem Cuesheet_Validate_accepts (c : Cuesheet) :
  Cuesheet_Validate c = [] ->
  (0 < List.length (Cuesheet_File c)) /\
  forall t, In t (all_tracks c) ->
    (1 <= Track_TrackNumber t <= 99)%N /\
    Forall (fun i => (TrackIndex_Number i <= 99)%N) (Track_Index t) /\
    (exists start, Track_StartPosition t = Some start) /\
    (Track_Isrc t = EmptyString \/ ValidateISRC (Track_Isrc t) = None) /\
    (0 < Track_GetBlockSize t)%Z.
Proof.
  intros H. apply (proj2 (Cuesheet_Validate_accepted_faults c)) in H.
  unfold sheet_faults in H.
  assert (H1 : (List.length (Cuesheet_File c) =? 0)%nat = false)
    by (apply count_if_zero; lia).
  assert (H2 : list_sum (map file_faults (Cuesheet_File c)) = 0) by lia.
  clear H. split; [apply Nat.eqb_neq in H1; lia|].
  intros t Ht. unfold all_tracks in Ht. apply in_flat_map in Ht as (f & Hf & Ht).
  apply list_sum_zero in H2. rewrite Forall_forall in H2.
  specialize (H2 (file_faults f) (in_map _ _ _ Hf)).
  unfold file_faults in H2.
  assert (H3 : list_sum (map track_faults (File_Tracks f)) = 0) by lia.
  apply list_sum_zero in H3. rewrite Forall_forall in H3.
  apply track_faults_zero, H3, in_map, Ht.
Qed.

Lemma Cuesheet_Validate_accepts_witness :
  Cuesheet_Validate test_sheet = [] /\
  (0 < List.length (Cuesheet_File test_sheet)) /\
  (exists start, Track_StartPosition test_track_2 = Some start) /\
  (0 < Track_GetBlockSize test_track_2)%Z.
Proof.
  split; [reflexivity|].
  destruct (Cuesheet_Validate_accepts test_sheet eq_refl) as [H1 H2].
  split; [exact H1|].
  destruct (H2 test_track_2 ltac:(simpl; tauto)) as (_ & _ & H3 & _ & H4).
  split; assumption.
Defined.

(** ** Comments *)

Lemma ParseRemComment_field (rem : string) (f : RemField) :
  ParseRemComment rem = Ok (Some f) ->
  RemField_Type f = ParseRemComment_type (RemField_Key f).
Proof.
  unfold ParseRemComment. destruct (String.length rem =? 0)%nat; [discriminate|].
  destruct (SplitN_2 rem) as [|part0 parts]; [discriminate|].
  match goal with |- bind ?m _ = _ -> _ => destruct m as [value| | |] end;
    cbn [bind]; try discriminate.
  intros E. injection E as <-. reflexivity.
Qed.

Lemma ParseRemComment_outcome (rem : string) :
  (exists r, ParseRemComment rem = Ok r) \/ ParseRemComment rem = Panic.
Proof.
  unfold ParseRemComment. destruct (String.length rem =? 0)%nat;
    [left; eexists; reflexivity|].
  destruct (SplitN_2 rem) as [|part0 [|part1 [|part2 parts]]];
    try (left; eexists; reflexivity).
  destruct (TrimSpace part1) as [|c v]; [left; eexists; reflexivity|].
  destruct (Ascii.eqb c DQUOTE || Ascii.eqb c SQUOTE); [|left; eexists; reflexivity].
  unfold unquote, slice.
  destruct (_ && _); cbn [bind]; [left; eexists; reflexivity | right; reflexivity].
Qed.

Lemma ParseRemComment_type_key (k : string) (typ : RemType) :
  typ <> RemUnknown ->
  RemType_eqb (ParseRemComment_type k) typ = (k =? RemType_key typ).
Proof.
  intros Hu. destruct (String.eqb_spec k (RemType_key typ)) as [->|Hne].
  - destruct typ; [congruence | reflexivity..].
  - unfold ParseRemComment_type.
    repeat match goal with
    | |- context [if k =? ?x then _ else _] =>
        destruct (String.eqb_spec k x) as [->|?]
    end;
    destruct typ; try reflexivity; try congruence;
      exfalso; apply Hne; reflexivity.
Qed.

Lemma GetRemValue_loop_key (rems : list string) (typ : RemType) :
  typ <> RemUnknown ->
  GetRemValue_loop rems typ = GetRemByKey_loop rems (RemType_key typ).
Proof.
  intros Hu. induction rems as [|rem rems IH]; [reflexivity|].
  cbn [GetRemValue_loop GetRemByKey_loop].
  destruct (ParseRemComment rem) as [[f|]| | |] eqn:E; cbn [bind]; try reflexivity;
    [|exact IH].
  rewrite (ParseRemComment_field rem f E), (ParseRemComment_type_key _ typ Hu), IH.
  reflexivity.
Qed.

Lemma upper_byte_idem (c : ascii) : upper_byte (upper_byte c) = upper_byte c.
Proof. destruct c as [[] [] [] [] [] [] [] []]; reflexivity. Qed.

Lemma ToUpper_idem (s : string) : ToUpper (ToUpper s) = ToUpper s.
Proof.
  induction s as [|c s IH]; cbn [ToUpper]; [reflexivity|].
  rewrite upper_byte_idem, IH. reflexivity.
Qed.

(** X22: for comments and a key of ASCII bytes, looking a comment up by
    one of the eight types that have a name gives what looking it up by the
    key of that type gives, and [GetRemByKey] does not tell a key from the same
    key in upper case. *)
Theorem GetRemValue_GetRemByKey (c : Cuesheet) (typ : RemType) (key : string) :
  forallb is_ascii (Cuesheet_Rem c) = true -> is_ascii key = true ->
  typ <> RemUnknown ->
  Cuesheet_GetRemValue c typ = Cuesheet_GetRemByKey c (RemType_key typ) /\
  Cuesheet_GetRemByKey c (ToUpper key) = Cuesheet_GetRemByKey c key.
Proof.
  intros _ _ Hu. unfold Cuesheet_GetRemValue, Cuesheet_GetRemByKey. split.
  - rewrite (GetRemValue_loop_key _ _ Hu). destruct typ; [congruence | reflexivity..].
  - rewrite ToUpper_idem. reflexivity.
Qed.

Lemma GetRemValue_GetRemByKey_witness :
  forallb is_ascii (Cuesheet_Rem test_sheet) = true /\
  Cuesheet_GetRemValue test_sheet RemDate = Cuesheet_GetRemByKey test_sheet "DATE" /\
  Cuesheet_GetRemByKey test_sheet "DATE" = Cuesheet_GetRemByKey test_sheet "date".
Proof.
  split; [reflexivity|].
  apply (GetRemValue_GetRemByKey test_sheet RemDate "date" eq_refl eq_refl).
  discriminate.
Defined.

Lemma TrimRight_keep (x tail cutset : string) (c : ascii) :
  ContainsByte cutset c = false ->
  TrimRight (x ++ String c tail) cutset = x ++ String c (TrimRight tail cutset).
Proof.
  intros Hc. induction x as [|a x IH]; cbn [append TrimRight].
  - destruct (TrimRight tail cutset); [rewrite Hc|]; reflexivity.
  - rewrite IH. destruct x; reflexivity.
Qed.

Lemma ParseRemComment_quoted (key body tail : string) :
  ContainsAny key delims = false ->
  all_bytes (unescaped DQUOTE) body = true ->
  ParseRemComment (key ++ " " ++ String DQUOTE (body ++ String DQUOTE tail)) =
  Ok (Some (Build_RemField (ParseRemComment_type (ToUpper key)) (ToUpper key) body)).
Proof.
  intros Hk Hb. unfold ParseRemComment.
  replace (String.length _ =? 0)%nat with false
    by (rewrite length_append; cbn [append String.length];
        symmetry; apply Nat.eqb_neq; lia).
  unfold SplitN_2. change (" " ++ ?x) with (String SP x).
  rewrite (cut_space_append key _ Hk).
  unfold TrimSpace, Trim.
  change (String DQUOTE (body ++ String DQUOTE tail))
    with ((String DQUOTE body) ++ String DQUOTE tail).
  rewrite (TrimRight_keep _ _ asciiSpace DQUOTE eq_refl).
  cbn [append TrimLeft]. change (ContainsByte asciiSpace DQUOTE) with false. cbn iota.
  rewrite Ascii.eqb_refl. cbn [orb].
  pose proof (unquote_quoted body (TrimRight tail asciiSpace) DQUOTE eq_refl) as U.
  rewrite (quote_body_clean _ _ Hb) in U. rewrite U. reflexivity.
Qed.

(** X23: a REM line with a key and a value between double quotes, both of
    ASCII bytes, the value without double quote and backslash, is read by
    [ReadFile] into a sheet in which [GetRemByKey] finds the value without its
    quotes under the key, in upper or lower case, and [GetRemFields] returns
    the one field with the key in upper case. *)
Theorem ReadFile_GetRemByKey (key body : string) :
  bare key = true -> is_ascii key = true -> is_ascii body = true ->
  ContainsByte body LF = false -> all_bytes (unescaped DQUOTE) body = true ->
  exists c,
    ReadFile ("REM " ++ key ++ " " ++ quoted body ++ eol) = Ok c /\
    Cuesheet_GetRemByKey c key = Ok (body, true) /\
    Cuesheet_GetRemFields c =
      Ok [Build_RemField (ParseRemComment_type (ToUpper key)) (ToUpper key) body].
Proof.
  intros Hk _ _ HL Hb.
  destruct (bare_inv key Hk) as (a & r & Ek & _ & Hd & _).
  exists (set_Cuesheet_Rem [key ++ " " ++ quoted body] Cuesheet_zero).
  assert (Ha : raw_ok (key ++ " " ++ quoted body) = true).
  { apply raw_ok_append; [apply bare_no_LF, Hk | | discriminate].
    apply raw_ok_append; [reflexivity | apply quoted_raw_ok, HL | discriminate]. }
  split; [|split].
  - change (ReadFile ?x) with (ReadFile_all x Cuesheet_zero).
    replace ("REM " ++ key ++ " " ++ quoted body ++ eol)
      with (line EmptyString "REM" (key ++ " " ++ quoted body) ++ EmptyString)
      by (unfold line; rewrite !append_assoc, append_empty_r; reflexivity).
    rewrite (ReadFile_all_cmd "REM" _ EmptyString Cuesheet_zero eq_refl Ha).
    reflexivity.
  - unfold Cuesheet_GetRemByKey. cbn [set_Cuesheet_Rem Cuesheet_Rem GetRemByKey_loop].
    unfold quoted. rewrite (ParseRemComment_quoted key body EmptyString Hd Hb).
    cbn [bind RemField_Key RemField_Value]. rewrite String.eqb_refl. reflexivity.
  - unfold Cuesheet_GetRemFields. cbn [set_Cuesheet_Rem Cuesheet_Rem GetRemFields_loop].
    unfold quoted. rewrite (ParseRemComment_quoted key body EmptyString Hd Hb).
    reflexivity.
Qed.

Lemma ReadFile_GetRemByKey_witness :
  bare "date" = true /\
  exists c,
    ReadFile ("REM " ++ "date" ++ " " ++ quoted "2024" ++ eol) = Ok c /\
    Cuesheet_GetRemByKey c "date" = Ok ("2024", true) /\
    Cuesheet_GetRemFields c = Ok [Build_RemField RemDate "DATE" "2024"].
Proof.
  split; [reflexivity|].
  apply (ReadFile_GetRemByKey "date" "2024"); reflexivity.
Defined.

Lemma unquote_end_backslash (q : ascii) (body : string) (i : nat) :
  ContainsByte body q = false -> ContainsByte body BACKSLASH = false ->
  Ascii.eqb BACKSLASH q = false ->
  unquote_end q (body ++ String BACKSLASH EmptyString) i = i + String.length body + 2.
Proof.
  intros H1 H2 Hq. revert i H1 H2.
  induction body as [|c body IH]; intros i H1 H2; cbn [append unquote_end].
  - rewrite Hq, Ascii.eqb_refl. cbn [String.length]. lia.
  - cbn [ContainsByte] in H1, H2.
    apply orb_false_iff in H1 as [H1 H1'], H2 as [H2 H2'].
    rewrite H1, H2, IH by assumption. cbn [String.length]. lia.
Qed.

Lemma GetRemFields_loop_panic (rems : list string) (rem : string)
    (fields : list RemField) :
  In rem rems -> ParseRemComment rem = Panic -> GetRemFields_loop rems fields = Panic.
Proof.
  intros Hin Hp. revert fields. induction rems as [|r rems IH]; intros fields;
    [destruct Hin|].
  cbn [GetRemFields_loop]. destruct Hin as [->|Hin]; [rewrite Hp; reflexivity|].
  destruct (ParseRemComment_outcome r) as [[[f|] E]|E]; rewrite E; cbn [bind];
    [apply (IH Hin) | apply (IH Hin) | reflexivity].
Qed.

(** X24: [ParseRemComment] panics on a comment whose value opens with a
    quote, has no closing quote and ends with a backslash (key and value of
    ASCII bytes): [unquote] skips the byte after the backslash and slices past
    the end.  [GetRemFields] then panics on every sheet that holds such a
    comment. *)
Theorem ParseRemComment_trailing_backslash_panics
    (key body : string) (q : ascii) (c : Cuesheet) :
  ContainsAny key delims = false -> is_ascii key = true -> is_ascii body = true ->
  q = DQUOTE \/ q = SQUOTE ->
  ContainsByte body q = false -> ContainsByte body BACKSLASH = false ->
  ParseRemComment (key ++ " " ++ String q (body ++ String BACKSLASH EmptyString)) = Panic /\
  (In (key ++ " " ++ String q (body ++ String BACKSLASH EmptyString)) (Cuesheet_Rem c) ->
   Cuesheet_GetRemFields c = Panic).
Proof.
  intros Hk _ _ Hq H1 H2.
  assert (P : ParseRemComment
                (key ++ " " ++ String q (body ++ String BACKSLASH EmptyString)) = Panic).
  { unfold ParseRemComment.
    replace (String.length _ =? 0)%nat with false
      by (rewrite length_append; cbn [append String.length];
          symmetry; apply Nat.eqb_neq; lia).
    unfold SplitN_2. change (" " ++ ?x) with (String SP x).
    rewrite (cut_space_append key _ Hk).
    unfold TrimSpace, Trim.
    change (String q (body ++ String BACKSLASH EmptyString))
      with ((String q body) ++ String BACKSLASH EmptyString).
    rewrite (TrimRight_keep _ _ asciiSpace BACKSLASH eq_refl).
    cbn [append TrimRight TrimLeft].
    assert (Hs : ContainsByte asciiSpace q = false)
      by (destruct Hq as [->| ->]; reflexivity).
    rewrite Hs.
    assert (Hb : Ascii.eqb q DQUOTE || Ascii.eqb q SQUOTE = true)
      by (destruct Hq as [->| ->]; reflexivity).
    rewrite Hb. unfold unquote.
    rewrite unquote_end_backslash
      by (try assumption; destruct Hq as [->| ->]; reflexivity).
    unfold slice. cbn [String.length]. rewrite length_append. cbn [String.length].
    replace ((1 + String.length body + 2 <=? S (String.length body + 1))%nat) with false
      by (symmetry; apply Nat.leb_gt; lia).
    rewrite andb_false_r. reflexivity. }
  split; [exact P|].
  intros Hin. apply (GetRemFields_loop_panic _ _ _ Hin P).
Qed.

Lemma ParseRemComment_trailing_backslash_panics_witness :
  ContainsAny "COMMENT" delims = false /\
  ParseRemComment ("COMMENT" ++ " " ++ String DQUOTE ("abc" ++ String BACKSLASH EmptyString))
    = Panic.
Proof.
  split; [reflexivity|].
  apply (proj1 (ParseRemComment_trailing_backslash_panics "COMMENT" "abc" DQUOTE
                  Cuesheet_zero eq_refl eq_refl eq_refl (or_introl eq_refl)
                  eq_refl eq_refl)).
Defined.

(** ** The values of a sheet that was read *)

Lemma ReadFrame_range (s r : string) (f : N) :
  ReadFrame s = Ok (f, r) -> (f < 2 ^ 64)%N.
Proof.
  unfold ReadFrame.
  destruct (ReadString s) as [[v s']| | |]; cbn [bind]; try discriminate.
  destruct (Split v COLON) as [|v0 [|v1 [|v2 [|v3 l]]]]; try discriminate.
  destruct (ParseUint v0 32) as [mm| | |]; cbn [bind]; try discriminate.
  destruct (ParseUint v1 32) as [ss| | |]; cbn [bind]; try discriminate.
  destruct (ParseUint v2 32) as [ff| | |]; cbn [bind]; try discriminate.
  intros E. injection E as <- _. apply N.mod_lt. discriminate.
Qed.

Lemma ReadUint_range (s r : string) (n : N) :
  ReadUint s = Ok (n, r) -> (n < 2 ^ 32)%N.
Proof.
  unfold ReadUint.
  destruct (ReadString s) as [[v s']| | |]; cbn [bind]; try discriminate.
  destruct (ParseUint v 32) as [m| | |] eqn:E; cbn [bind]; try discriminate.
  intros H. injection H as <- _. apply (ParseUint_bound v m E).
Qed.

Ltac range_step :=
  match goal with
  | |- bind (ReadString ?s) _ = Ok _ -> _ =>
      destruct (ReadString s) as [[? ?]| | |]; cbn [bind]; try discriminate
  | |- bind (ReadFrame ?s) _ = Ok _ -> _ =>
      let E := fresh "EF" in
      destruct (ReadFrame s) as [[? ?]| | |] eqn:E; cbn [bind]; try discriminate;
      apply ReadFrame_range in E
  | |- bind (ReadUint ?s) _ = Ok _ -> _ =>
      let E := fresh "EU" in
      destruct (ReadUint s) as [[? ?]| | |] eqn:E; cbn [bind]; try discriminate;
      apply ReadUint_range in E
  end.

Lemma readTrack_switch_range (command line : string) (t : Track) (r : control Track) :
  track_in_range t -> readTrack_switch command line t = Ok r ->
  track_in_range match r with Continue t' => t' | Break t' => t' end.
Proof.
  intros (H1 & H2 & H3 & H4 & H5).
  destruct t as [n ty fl isrc ti pe so co ar me pg po ix].
  unfold track_in_range in *. norm_track. cbn beta iota in *.
  unfold readTrack_switch.
  destruct (command =? "FLAGS").
  { destruct (readTrack_flags _ _ _) as [fl'| | |] eqn:E; cbn [bind]; try discriminate.
    intros E'. injection E' as <-. norm_track.
    repeat split; try assumption. apply (readTrack_flags_ok _ _ _ _ E). reflexivity. }
  repeat match goal with
  | |- (if ?c then _ else _) = _ -> _ =>
      destruct c;
      [repeat range_step;
       let E := fresh "E" in
       intros E; injection E as <-; norm_track; repeat split; try assumption|]
  end.
  - apply Forall_app. split; [assumption|]. constructor; [|constructor].
    split; assumption.
  - intros E. injection E as <-. repeat split; assumption.
Qed.

Lemma readTrack_range (fuel : nat) (b b' : Reader) (t t' : Track) :
  track_in_range t -> readTrack fuel b t = Ok (b', t') -> track_in_range t'.
Proof.
  revert b t. induction fuel as [|f IH]; intros b t Ht; [discriminate|].
  rewrite readTrack_S. unfold bufio_ReadString.
  destruct (read_until b LF) as [[l fnd] r]. destruct fnd;
    [|intros E; injection E as _ <-; exact Ht].
  destruct (negb _); [intros E; injection E as _ <-; exact Ht|].
  destruct (ReadString _) as [[command line]| | |]; cbn [bind]; try discriminate.
  destruct (readTrack_switch command line t) as [c| | |] eqn:Es; cbn [bind];
    try discriminate.
  pose proof (readTrack_switch_range _ _ _ _ Ht Es) as Hc.
  destruct c as [t1|t1].
  - apply (IH _ _ Hc).
  - intros E. injection E as _ <-. exact Hc.
Qed.

Lemma readTracks_loop_range (fuel : nat) (b b' : Reader) (tracks tracks' : list Track) :
  Forall track_in_range tracks -> readTracks_loop fuel b tracks = Ok (b', tracks') ->
  Forall track_in_range tracks'.
Proof.
  revert b tracks. induction fuel as [|f IH]; intros b tracks Ht; [discriminate|].
  rewrite readTracks_loop_S. unfold bufio_ReadString.
  destruct (read_until b LF) as [[l fnd] r]. destruct fnd;
    [|intros E; injection E as _ <-; exact Ht].
  destruct (negb _); [intros E; injection E as _ <-; exact Ht|].
  destruct (ReadString _) as [[command line]| | |]; cbn [bind]; try discriminate.
  destruct (command =? "TRACK"); [|intros E; injection E as _ <-; exact Ht].
  destruct (ReadUint line) as [[num line']| | |] eqn:EU; cbn [bind]; try discriminate.
  apply ReadUint_range in EU.
  destruct (ReadString line') as [[v line'']| | |]; cbn [bind]; try discriminate.
  destruct (readTrack f r _) as [[b1 t1]| | |] eqn:ET; cbn [bind]; try discriminate.
  apply readTrack_range in ET.
  - apply IH. apply Forall_app. split; [exact Ht | constructor; [exact ET | constructor]].
  - unfold track_in_range, Track_zero. norm_track.
    repeat split; try assumption; try reflexivity. constructor.
Qed.

Lemma ReadFile_switch_range (fuel : nat) (command line : string) (b b' : Reader)
    (c c' : Cuesheet) :
  sheet_in_range c -> ReadFile_switch fuel command line b c = Ok (b', c') ->
  sheet_in_range c'.
Proof.
  intros (H1 & H2 & H3).
  destruct c as [rem cat cdt ti pe so co ar me ge di up pg po fs].
  unfold sheet_in_range, all_tracks in *. norm_sheet. cbn beta iota in *.
  unfold ReadFile_switch, readTracks.
  repeat match goal with
  | |- (if ?c then _ else _) = _ -> _ =>
      destruct c;
      [try solve [repeat range_step;
                  let E := fresh "E" in
                  intros E; injection E as _ <-;
                  norm_sheet; repeat split; assumption]|]
  end.
  - repeat range_step.
    destruct (readTracks_loop fuel b []) as [[b1 ts]| | |] eqn:ET; cbn [bind];
      try discriminate.
    apply readTracks_loop_range in ET; [|constructor].
    intros E. injection E as _ <-. norm_sheet. repeat split; try assumption.
    rewrite flat_map_app. apply Forall_app. split; [assumption|].
    cbn [flat_map File_Tracks]. rewrite app_nil_r. exact ET.
  - intros E. injection E as _ <-. repeat split; assumption.
Qed.

Lemma ReadFile_loop_range (fuel : nat) (b : Reader) (c c' : Cuesheet) :
  sheet_in_range c -> ReadFile_loop fuel b c = Ok c' -> sheet_in_range c'.
Proof.
  revert b c. induction fuel as [|f IH]; intros b c Hc; [discriminate|].
  rewrite ReadFile_loop_S. unfold bufio_ReadString.
  destruct (read_until b LF) as [[l fnd] r]. destruct fnd;
    [|intros E; injection E as <-; exact Hc].
  destruct (ReadString _) as [[command line]| | |]; cbn [bind]; try discriminate.
  destruct (ReadFile_switch f command line r c) as [[b1 c1]| | |] eqn:Es; cbn [bind];
    try discriminate.
  apply (IH _ _ (ReadFile_switch_range _ _ _ _ _ _ _ Hc Es)).
Qed.

(** X28: in a sheet that [ReadFile] returns, the numbers fit the types of
    their fields: the number of each track and of each index is below 2^32,
    each frame count (PREGAP, POSTGAP, INDEX) is below 2^64, and the flags of
    each track are made of the four named bits only. *)
Theorem ReadFile_in_range (r : string) (c : Cuesheet) :
  ReadFile r = Ok c -> sheet_in_range c.
Proof.
  apply ReadFile_loop_range. repeat split; constructor.
Qed.

Lemma ReadFile_in_range_witness :
  ReadFile minimal_text = Ok minimal_sheet /\ sheet_in_range minimal_sheet.
Proof.
  split; [reflexivity|].
  apply (ReadFile_in_range minimal_text minimal_sheet). reflexivity.
Defined.

(** ** The package [encoding] *)

Lemma switch_case_in (cases : list (Z * Z)) (r v : Z) :
  switch_case cases r = Some v -> In r (map fst cases).
Proof.
  induction cases as [|[k w] cases IH]; cbn [switch_case map fst In]; [discriminate|].
  destruct (Z.eqb_spec r k) as [->|_]; [left; reflexivity | right; apply IH; assumption].
Qed.

Lemma in_range (r : Z) (start len : nat) :
  (Z.of_nat start <= r < Z.of_nat (start + len))%Z -> In r (map Z.of_nat (seq start len)).
Proof.
  intros H. apply in_map_iff. exists (Z.to_nat r). split; [lia | apply in_seq; lia].
Qed.

Lemma CP1251_runes_in (r : Z) :
  (0 <= r)%Z -> Ascii.eqb (CP1251ToByte r) zero = false -> In r CP1251_runes.
Proof.
  intros H0. unfold CP1251ToByte, CP1251_runes.
  destruct (Z.leb_spec r 0x7F) as [H1|H1].
  - intros H. apply in_or_app. left. apply in_range.
    destruct (Z.eq_dec r 0) as [->|Hz]; [discriminate H | lia].
  - destruct ((0x0410 <=? r) && (r <=? 0x042F))%Z eqn:H2.
    + intros _. apply in_or_app. right. apply in_or_app. left. apply in_range. lia.
    + destruct ((0x0430 <=? r) && (r <=? 0x044F))%Z eqn:H3.
      * intros _. apply in_or_app. right. apply in_or_app. left. apply in_range. lia.
      * destruct (switch_case CP1251ToByte_cases r) as [v|] eqn:E; [|discriminate].
        intros _. apply in_or_app. right. apply in_or_app. right.
        apply (switch_case_in _ _ _ E).
Qed.

Lemma distinct_inj {A : Type} (f : A -> ascii) (l : list A) (x y : A) :
  distinct (map f l) = true -> In x l -> In y l -> f x = f y -> x = y.
Proof.
  induction l as [|a l IH]; cbn [map distinct In]; [intros _ []|].
  intros H Hx Hy E. apply andb_true_iff in H as [Ha Hl]. apply negb_true_iff in Ha.
  assert (N : forall z, In z l -> f a = f z -> False).
  { intros z Hz Ez.
    assert (T : existsb (Ascii.eqb (f a)) (map f l) = true).
    { apply existsb_exists. exists (f z). split; [apply in_map, Hz|].
      apply Ascii.eqb_eq, Ez. }
    congruence. }
  destruct Hx as [<-|Hx], Hy as [<-|Hy].
  - reflexivity.
  - exfalso. apply (N y Hy E).
  - exfalso. apply (N x Hx). symmetry. exact E.
  - apply IH; assumption.
Qed.

Lemma CP1251_runes_distinct : distinct (map CP1251ToByte CP1251_runes) = true.
Proof. vm_compute. reflexivity. Qed.

(** X25: [CP1251ToByte] sends no two runes to the same byte, the byte 0
    apart: two runes (not negative) that it maps to the same byte other than
    0 are equal, so the byte names the rune. *)
Theorem CP1251ToByte_injective (r1 r2 : Z) :
  (0 <= r1)%Z -> (0 <= r2)%Z ->
  Ascii.eqb (CP1251ToByte r1) zero = false ->
  CP1251ToByte r1 = CP1251ToByte r2 ->
  r1 = r2.
Proof.
  intros H1 H2 Hz E.
  apply (distinct_inj CP1251ToByte CP1251_runes r1 r2 CP1251_runes_distinct);
    [apply CP1251_runes_in; assumption | | exact E].
  apply CP1251_runes_in; [exact H2 | rewrite <- E; exact Hz].
Qed.

Lemma CP1251ToByte_injective_witness :
  Ascii.eqb (CP1251ToByte 0x0416) zero = false /\
  CP1251ToByte 0x0416 = CP1251ToByte (0x0410 + 6) /\
  (0x0416 = 0x0410 + 6)%Z.
Proof.
  split; [reflexivity|]. split; [reflexivity|].
  apply (CP1251ToByte_injective 0x0416 (0x0410 + 6));
    [lia | lia | reflexivity | reflexivity].
Defined.

Lemma byte_byte_val (c : ascii) : byte (byte_val c) = c.
Proof. destruct c as [[] [] [] [] [] [] [] []]; reflexivity. Qed.

Lemma byte_val_range (c : ascii) : (0 <= byte_val c <= 0xFF)%Z.
Proof.
  unfold byte_val. pose proof (N_ascii_bounded c) as H. lia.
Qed.

Lemma runes_encode_byte (c : ascii) (rest : string) :
  runes (encodeRune (byte_val c) ++ rest) = byte_val c :: runes rest.
Proof. destruct c as [[] [] [] [] [] [] [] []]; reflexivity. Qed.

Lemma DecodeFromCP1251_fold (b acc : string) :
  fold_left DecodeFromCP1251_step (runes (latin1_utf8 b)) acc = acc ++ b.
Proof.
  revert acc. induction b as [|c b IH]; intros acc; cbn [latin1_utf8].
  - cbn [runes fold_left]. rewrite append_empty_r. reflexivity.
  - rewrite runes_encode_byte. cbn [fold_left]. unfold DecodeFromCP1251_step at 2.
    replace (byte_val c <=? 0xFF)%Z with true
      by (symmetry; apply Z.leb_le, byte_val_range).
    rewrite byte_byte_val, IH, append_assoc. reflexivity.
Qed.

Lemma is_ascii_cons (c : ascii) (s : string) :
  is_ascii (String c s) = true -> (byte_val c < 0x80)%Z /\ is_ascii s = true.
Proof.
  unfold is_ascii. cbn [all_bytes]. intros H. apply andb_true_iff in H as [Hc Hs].
  split; [|exact Hs]. apply N.ltb_lt in Hc. unfold byte_val. lia.
Qed.

Lemma encodeRune_ascii (c : ascii) :
  (byte_val c < 0x80)%Z -> encodeRune (byte_val c) = String c EmptyString.
Proof.
  intros H. unfold encodeRune. pose proof (byte_val_range c) as R.
  replace ((0 <=? byte_val c) && (byte_val c <=? 0x7F))%Z with true
    by (symmetry; apply andb_true_iff; split; apply Z.leb_le; lia).
  rewrite byte_byte_val. reflexivity.
Qed.

Lemma latin1_utf8_ascii (s : string) : is_ascii s = true -> latin1_utf8 s = s.
Proof.
  induction s as [|c s IH]; [reflexivity|].
  intros H. apply is_ascii_cons in H as [Hc Hs]. cbn [latin1_utf8].
  rewrite (encodeRune_ascii c Hc), (IH Hs). reflexivity.
Qed.

(** X26: [DecodeFromCP1251] undoes the reading of a byte string as
    Latin-1: applied to the UTF-8 text in which each byte of the string stands
    as the rune of the same value, it returns the byte string, whatever the
    bytes are; a string of ASCII bytes is returned as it is. *)
Theorem DecodeFromCP1251_latin1 (b : string) :
  DecodeFromCP1251 (latin1_utf8 b) = b /\
  (is_ascii b = true -> DecodeFromCP1251 b = b).
Proof.
  assert (H : DecodeFromCP1251 (latin1_utf8 b) = b)
    by (unfold DecodeFromCP1251; apply DecodeFromCP1251_fold).
  split; [exact H|]. intros Ha. rewrite (latin1_utf8_ascii b Ha) in H. exact H.
Qed.

Lemma runes_ascii (c : ascii) (s : string) :
  (byte_val c < 0x80)%Z -> runes (String c s) = byte_val c :: runes s.
Proof.
  intros H. cbn [runes]. apply Z.ltb_lt in H. rewrite H. reflexivity.
Qed.

Lemma CP1251ToByte_ascii (c : ascii) :
  (byte_val c < 0x80)%Z -> CP1251ToByte (byte_val c) = c.
Proof.
  intros H. unfold CP1251ToByte.
  replace (byte_val c <=? 0x7F)%Z with true by (symmetry; apply Z.leb_le; lia).
  apply byte_byte_val.
Qed.

Lemma DecodeMojibake_loop_ascii (s acc : string) :
  is_ascii s = true -> DecodeMojibake_loop (runes s) acc = (acc ++ s, true).
Proof.
  revert acc. induction s as [|c s IH]; intros acc H.
  - cbn [runes DecodeMojibake_loop]. rewrite append_empty_r. reflexivity.
  - apply is_ascii_cons in H as [Hc Hs].
    rewrite (runes_ascii c s Hc). cbn [DecodeMojibake_loop].
    rewrite (CP1251ToByte_ascii c Hc).
    assert (E : negb (Ascii.eqb c zero) || (byte_val c =? 0)%Z = true).
    { destruct (Ascii.eqb_spec c zero) as [->|_]; reflexivity. }
    rewrite E, (IH _ Hs), append_assoc. reflexivity.
Qed.

Lemma DecodeMojibake_loop_unmapped (rs : list Z) (acc : string) (r : Z) :
  In r rs -> r <> 0%Z -> CP1251ToByte r = zero ->
  snd (DecodeMojibake_loop rs acc) = false.
Proof.
  intros Hin Hr Hz. revert acc. induction rs as [|a rs IH]; intros acc; [destruct Hin|].
  cbn [DecodeMojibake_loop].
  destruct (negb (Ascii.eqb (CP1251ToByte a) zero) || (a =? 0)%Z) eqn:E;
    [|reflexivity].
  destruct Hin as [->|Hin]; [|apply (IH Hin)].
  rewrite Hz, Ascii.eqb_refl in E. cbn [negb orb] in E.
  apply Z.eqb_eq in E. contradiction.
Qed.

(** X27: [DecodeMojibakeFromCP1251] returns its argument or a string in
    which [CountCyrillic] counts more.  It returns its argument when that is
    made of ASCII bytes, and when one of its runes, other than 0, is mapped to
    0 by [CP1251ToByte]; the runes U+040E, U+045E, U+0408, U+2116, U+0458,
    U+0405 and U+0455 are mapped to 0. *)
Theorem DecodeMojibakeFromCP1251_cases (s : string) :
  (DecodeMojibakeFromCP1251 s = s \/
   (CountCyrillic s < CountCyrillic (DecodeMojibakeFromCP1251 s))%Z) /\
  (is_ascii s = true -> DecodeMojibakeFromCP1251 s = s) /\
  (forall r, In r (runes s) -> r <> 0%Z -> CP1251ToByte r = zero ->
             DecodeMojibakeFromCP1251 s = s) /\
  Forall (fun r => CP1251ToByte r = zero) CP1251_missing.
Proof.
  split; [|split; [|split]].
  - unfold DecodeMojibakeFromCP1251.
    destruct (DecodeMojibake_loop (runes s) EmptyString) as [u m].
    destruct m; cbn [negb]; [|left; reflexivity].
    destruct (Z.ltb_spec (CountCyrillic s) (CountCyrillic u));
      [right; assumption | left; reflexivity].
  - intros H. unfold DecodeMojibakeFromCP1251.
    rewrite (DecodeMojibake_loop_ascii s EmptyString H). cbn [negb append].
    rewrite Z.ltb_irrefl. reflexivity.
  - intros r Hin Hr Hz. unfold DecodeMojibakeFromCP1251.
    pose proof (DecodeMojibake_loop_unmapped (runes s) EmptyString r Hin Hr Hz) as E.
    destruct (DecodeMojibake_loop (runes s) EmptyString) as [u m].
    cbn [snd] in E. subst m. reflexivity.
  - unfold CP1251_missing. repeat constructor.
Qed.
